(** * unified-husky-config: the configuration merge engine, the resolver,
      the hook runners and the commit message parser

    A shallow embedding of the JavaScript sources
    - [configs/common.config.js] and [configs/hooks-config.js]
      (base configuration, [deepMerge], [mergeArrays], [getConfig]),
    - [hooks/pre-commit.js] and [hooks/pre-push.js] (the two hook runners),
    - [hooks/commit-msg.js] ([parsePattern], [parseCommitMessage]),
    - [scripts/utils/config-loader.js] ([detectProjectType]),
    followed by the properties of the specification that concern them.

    Conventions of the embedding.
    - A JavaScript value is a tree [JsVal]; an object is a list of
      (key, value) pairs in insertion order with pairwise distinct keys.
      Strings are sequences of code units below 256, numbers are integers.
    - A computation that can throw returns [Res A].
    - The external world (git, the file system, the check modules, the timer)
      appears as explicit arguments.
    - The merge engine is embedded a second time over an explicit heap
      ([Module Heap]), where objects have identity and assignment is a heap
      update; that model carries the non-mutation property. *)

From Stdlib Require Import ZArith Lia Bool Ascii String.
From stdpp Require Import base option list strings pretty.

Set Default Proof Using "Type".
Set Warnings "-register-all".
Open Scope string_scope.
Open Scope list_scope.

(** ** Results of computations that may throw *)

Inductive Res (A : Type) : Type :=
| Ok (a : A)
| Throw (msg : string).
Arguments Ok {A} a.
Arguments Throw {A} msg.

Definition res_bind {A B} (r : Res A) (f : A -> Res B) : Res B :=
  match r with
  | Ok a => f a
  | Throw e => Throw e
  end.

Notation "'do' x <- r ; k" := (res_bind r (fun x => k))
  (at level 10, x name, r at level 100, k at level 200).

(** ** A backtracking matcher for the regular expressions of the sources

    The fragment covers what the literals of the repository use: literal
    characters, [.], character sets, sequence, alternation in source order,
    greedy and lazy repetition, capturing groups, [^] and [$] (without the
    [m] flag), and the [i] and [g] flags.  Priorities follow ECMAScript:
    alternatives left to right, a greedy repetition tries one more iteration
    first, a lazy one tries its continuation first, and an iteration that
    consumes nothing is rejected. *)

Module Regex.

Inductive cls : Type :=
| CAny                       (* [.]: anything but a line terminator *)
| CChar (c : ascii)
| COneOf (cs : list ascii).

Inductive re : Type :=
| REmpty
| RChar (c : cls)
| RSeq (r1 r2 : re)
| RAlt (r1 r2 : re)
| RStar (greedy : bool) (r : re)
| RGroup (n : nat) (r : re)
| RBol
| REol.

Definition plus (r : re) : re := RSeq r (RStar true r).
Definition opt (r : re) : re := RAlt r REmpty.

Fixpoint lit_chars (cs : list ascii) : re :=
  match cs with
  | [] => REmpty
  | [c] => RChar (CChar c)
  | c :: cs' => RSeq (RChar (CChar c)) (lit_chars cs')
  end.
Definition lit (s : string) : re := lit_chars (list_ascii_of_string s).

Fixpoint seqs (rs : list re) : re :=
  match rs with
  | [] => REmpty
  | [r] => r
  | r :: rs' => RSeq r (seqs rs')
  end.

Fixpoint alts (rs : list re) : re :=
  match rs with
  | [] => REmpty
  | [r] => r
  | r :: rs' => RAlt r (alts rs')
  end.

Definition ascii_eqb (a b : ascii) : bool := Ascii.eqb a b.

(** Case folding under the [i] flag, on code units below 256: the letters
    A-Z, and the accented capitals 192-222 but the sign 215. *)
Definition fold_case (c : ascii) : ascii :=
  let n := nat_of_ascii c in
  if (65 <=? n)%nat && (n <=? 90)%nat then ascii_of_nat (n + 32)
  else if (192 <=? n)%nat && (n <=? 222)%nat && negb (n =? 215)%nat
       then ascii_of_nat (n + 32)
  else c.

Definition is_line_terminator (c : ascii) : bool :=
  let n := nat_of_ascii c in (n =? 10)%nat || (n =? 13)%nat.

Definition char_eq (icase : bool) (a b : ascii) : bool :=
  if icase then ascii_eqb (fold_case a) (fold_case b) else ascii_eqb a b.

Definition cls_matches (icase : bool) (c : cls) (a : ascii) : bool :=
  match c with
  | CAny => negb (is_line_terminator a)
  | CChar b => char_eq icase b a
  | COneOf bs => existsb (fun b => char_eq icase b a) bs
  end.

(** Captures: group number, start and end offsets into the subject. *)
Definition caps : Type := list (nat * (nat * nat)).

Definition set_cap (n : nat) (span : nat * nat) (cs : caps) : caps :=
  (n, span) :: List.filter (fun e => negb (fst e =? n)%nat) cs.

Fixpoint get_cap (n : nat) (cs : caps) : option (nat * nat) :=
  match cs with
  | [] => None
  | (m, span) :: cs' => if (m =? n)%nat then Some span else get_cap n cs'
  end.

(** [run r icase s pos cs k]: match [r] against the rest [s] of the subject,
    which starts at offset [pos], then continue with [k]. *)
Fixpoint run {R : Type} (r : re) (icase : bool) (s : list ascii) (pos : nat)
    (cs : caps) (k : list ascii -> nat -> caps -> option R) {struct r}
    : option R :=
  match r with
  | REmpty => k s pos cs
  | RChar c =>
      match s with
      | a :: s' => if cls_matches icase c a then k s' (S pos) cs else None
      | [] => None
      end
  | RSeq r1 r2 =>
      run r1 icase s pos cs (fun s1 p1 c1 => run r2 icase s1 p1 c1 k)
  | RAlt r1 r2 =>
      match run r1 icase s pos cs k with
      | Some x => Some x
      | None => run r2 icase s pos cs k
      end
  | RStar greedy r1 =>
      (fix loop (fuel : nat) (s : list ascii) (pos : nat) (cs : caps)
           {struct fuel} : option R :=
         match fuel with
         | O => k s pos cs
         | S fuel' =>
             let again :=
               run r1 icase s pos cs
                 (fun s1 p1 c1 =>
                    if (pos <? p1)%nat then loop fuel' s1 p1 c1 else None) in
             if greedy then
               match again with
               | Some x => Some x
               | None => k s pos cs
               end
             else
               match k s pos cs with
               | Some x => Some x
               | None => again
               end
         end) (S (length s)) s pos cs
  | RGroup n r1 =>
      run r1 icase s pos cs (fun s1 p1 c1 => k s1 p1 (set_cap n (pos, p1) c1))
  | RBol => if (pos =? 0)%nat then k s pos cs else None
  | REol => match s with [] => k s pos cs | _ => None end
  end.

(** One match: where it starts, where it ends, and the captures. *)
Record hit : Type := Hit { hit_start : nat; hit_end : nat; hit_caps : caps }.

Definition match_at (r : re) (icase : bool) (s : list ascii) (pos : nat)
    : option hit :=
  run r icase s pos [] (fun _ p c => Some (Hit pos p c)).

(** Leftmost match at or after offset [pos]; [s] is the subject from [pos]. *)
Fixpoint search (r : re) (icase : bool) (s : list ascii) (pos : nat)
    : option hit :=
  match match_at r icase s pos with
  | Some h => Some h
  | None =>
      match s with
      | [] => None
      | _ :: s' => search r icase s' (S pos)
      end
  end.

Definition slice (s : list ascii) (from to : nat) : string :=
  string_of_list_ascii (take (to - from) (drop from s)).

(** The text of a hit and of its groups [1..ngroups]; [None] is a group that
    did not take part in the match. *)
Definition hit_text (s : list ascii) (h : hit) : string :=
  slice s (hit_start h) (hit_end h).

Definition hit_group (s : list ascii) (h : hit) (n : nat) : option string :=
  match get_cap n (hit_caps h) with
  | Some (a, b) => Some (slice s a b)
  | None => None
  end.

(** All successive matches, as the [g] flag enumerates them: the next search
    starts where the last match ended, one further after an empty match. *)
Fixpoint search_all (fuel : nat) (r : re) (icase : bool) (subject : list ascii)
    (pos : nat) : list hit :=
  match fuel with
  | O => []
  | S fuel' =>
      match search r icase (drop pos subject) pos with
      | None => []
      | Some h =>
          let next := if (hit_start h <? hit_end h)%nat
                      then hit_end h else S (hit_end h) in
          h :: search_all fuel' r icase subject next
      end
  end.

End Regex.

(** ** JavaScript values *)

Module Js.

(** A [RegExp] object: its source text and flags as the engine reports them,
    and the expression they denote.  The flags [m], [s], [u] and [y] change
    the matching itself and are outside the matcher above; no literal of the
    repository carries them. *)
Record RegExp : Type := MkRegExp {
  re_source : string;
  re_flags : string;
  re_ast : Regex.re
}.

Inductive JsVal : Type :=
| JUndef
| JNull
| JBool (b : bool)
| JNum (z : Z)
| JStr (s : string)
| JNative                          (* a built-in function; [typeof] is "function" *)
| JRegExp (r : RegExp)
| JArr (items : list JsVal)
| JObj (props : list (string * JsVal)).

Definition Props : Type := list (string * JsVal).

(** *** Strings *)

Fixpoint has_char (c : ascii) (s : string) : bool :=
  match s with
  | EmptyString => false
  | String a s' => Ascii.eqb a c || has_char c s'
  end.

Definition chars (s : string) : list ascii := list_ascii_of_string s.

(** [String.prototype.trim] removes white space and line terminators at both
    ends; on code units below 256 these are 9-13, 32 and 160. *)
Definition is_space (c : ascii) : bool :=
  let n := nat_of_ascii c in
  ((9 <=? n)%nat && (n <=? 13)%nat) || (n =? 32)%nat || (n =? 160)%nat.

Fixpoint trim_start (cs : list ascii) : list ascii :=
  match cs with
  | c :: cs' => if is_space c then trim_start cs' else cs
  | [] => []
  end.

Definition trim (s : string) : string :=
  string_of_list_ascii (rev (trim_start (rev (trim_start (chars s))))).

Fixpoint starts_with (p cs : list ascii) : bool :=
  match p, cs with
  | [], _ => true
  | a :: p', c :: cs' => Ascii.eqb a c && starts_with p' cs'
  | _ :: _, [] => false
  end.

(** [s.replace(p, "")] for a string pattern [p]: the first occurrence of [p]
    is removed. *)
Fixpoint remove_first (p cs : list ascii) : list ascii :=
  if starts_with p cs then drop (length p) cs
  else match cs with
       | [] => []
       | c :: cs' => c :: remove_first p cs'
       end.

(** *** Conversions and type tests *)

Definition truthy (v : JsVal) : bool :=
  match v with
  | JUndef | JNull => false
  | JBool b => b
  | JNum z => negb (z =? 0)%Z
  | JStr s => negb (String.eqb s "")
  | JNative | JRegExp _ | JArr _ | JObj _ => true
  end.

(** [typeof v === "object"] *)
Definition typeof_object (v : JsVal) : bool :=
  match v with
  | JNull | JRegExp _ | JArr _ | JObj _ => true
  | _ => false
  end.

Definition isArray (v : JsVal) : bool :=
  match v with JArr _ => true | _ => false end.

Definition is_nullish (v : JsVal) : bool :=
  match v with JUndef | JNull => true | _ => false end.

(** [v instanceof RegExp] and [typeof v === "string"] *)
Definition instanceof_RegExp (v : JsVal) : bool :=
  match v with JRegExp _ => true | _ => false end.

Definition typeof_string (v : JsVal) : bool :=
  match v with JStr _ => true | _ => false end.

(** [a === b] (and the same-value-zero comparison of [Map] keys, which
    differs on NaN only) for two values held at different places of a tree:
    primitives by content, objects never, since different places of a tree
    are different objects. *)
Definition strict_equals (a b : JsVal) : bool :=
  match a, b with
  | JUndef, JUndef => true
  | JNull, JNull => true
  | JBool x, JBool y => Bool.eqb x y
  | JNum x, JNum y => (x =? y)%Z
  | JStr x, JStr y => String.eqb x y
  | _, _ => false
  end.

(** *** Properties *)

Fixpoint lookup_prop (key : string) (ps : Props) : option JsVal :=
  match ps with
  | [] => None
  | (k, v) :: ps' => if String.eqb k key then Some v else lookup_prop key ps'
  end.

(** [o[key] = v]: an existing key keeps its place, a new one goes last. *)
Fixpoint set_prop (key : string) (v : JsVal) (ps : Props) : Props :=
  match ps with
  | [] => [(key, v)]
  | (k, w) :: ps' =>
      if String.eqb k key then (k, v) :: ps' else (k, w) :: set_prop key v ps'
  end.

(** [delete o[key]] *)
Definition delete_prop (key : string) (ps : Props) : Props :=
  List.filter (fun kv => negb (String.eqb (fst kv) key)) ps.

(** The string-named properties every object inherits from
    [Object.prototype], all of them functions.  The accessor [__proto__] is
    left out: the model has no prototypes to read or to set. *)
Definition object_prototype_names : list string :=
  [ "constructor"; "hasOwnProperty"; "isPrototypeOf"; "propertyIsEnumerable";
    "toLocaleString"; "toString"; "valueOf"; "__defineGetter__";
    "__defineSetter__"; "__lookupGetter__"; "__lookupSetter__" ].

Definition mem_string (s : string) (l : list string) : bool :=
  existsb (String.eqb s) l.

(** The own and inherited properties of a [RegExp] instance. *)
Definition regexp_flag_names : list (string * ascii) :=
  [ ("global", "g"%char); ("ignoreCase", "i"%char); ("multiline", "m"%char);
    ("dotAll", "s"%char); ("unicode", "u"%char); ("unicodeSets", "v"%char);
    ("sticky", "y"%char); ("hasIndices", "d"%char) ].

Definition regexp_prop (r : RegExp) (key : string) : option JsVal :=
  if String.eqb key "source" then Some (JStr (re_source r))
  else if String.eqb key "flags" then Some (JStr (re_flags r))
  else if String.eqb key "lastIndex" then Some (JNum 0)
  else match find (fun e => String.eqb (fst e) key) regexp_flag_names with
       | Some (_, c) => Some (JBool (has_char c (re_flags r)))
       | None =>
           if mem_string key ["exec"; "test"; "compile"] then Some JNative
           else None
       end.

(** [key in o], for [o] an object in the sense of [typeof_object] other than
    [null] and an array, and for a key other than [__proto__], which every
    object inherits as an accessor. *)
Definition has_property (o : JsVal) (key : string) : bool :=
  match o with
  | JObj ps =>
      match lookup_prop key ps with
      | Some _ => true
      | None => mem_string key object_prototype_names
      end
  | JRegExp r =>
      match regexp_prop r key with
      | Some _ => true
      | None => mem_string key object_prototype_names
      end
  | _ => false
  end.

(** [o[key]] for a base that is not [null] or [undefined].  Array and string
    bases are read at the names used by the sources only, none of which is an
    index or [length]; no source reads the accessor [__proto__]. *)
Definition get (o : JsVal) (key : string) : JsVal :=
  match o with
  | JObj ps =>
      match lookup_prop key ps with
      | Some v => v
      | None => if mem_string key object_prototype_names then JNative else JUndef
      end
  | JRegExp r =>
      match regexp_prop r key with
      | Some v => v
      | None => if mem_string key object_prototype_names then JNative else JUndef
      end
  | JArr _ | JStr _ | JBool _ | JNum _ | JNative =>
      if mem_string key object_prototype_names then JNative else JUndef
  | JUndef | JNull => JUndef
  end.

(** [o.key]: reading a property of [null] or [undefined] throws. *)
Definition member (o : JsVal) (key : string) : Res JsVal :=
  if is_nullish o
  then Throw ("TypeError: Cannot read properties of null or undefined, reading " +:+ key)
  else Ok (get o key).

(** [o?.key] *)
Definition opt_member (o : JsVal) (key : string) : JsVal :=
  if is_nullish o then JUndef else get o key.

(** [a || b] *)
Definition or_else (a b : JsVal) : JsVal := if truthy a then a else b.

(** *** Spread *)

Definition index_key (i : nat) : string := pretty i.

Fixpoint indexed_from {A} (i : nat) (l : list A) : list (nat * A) :=
  match l with
  | [] => []
  | x :: l' => (i, x) :: indexed_from (S i) l'
  end.

Definition char_str (c : ascii) : JsVal := JStr (String c EmptyString).

(** The own enumerable properties [{...v}] copies: those of an object, the
    indexed elements of an array, the indexed characters of a string, and
    none of any other value. *)
Definition own_enumerable (v : JsVal) : Props :=
  match v with
  | JObj ps => ps
  | JArr l => map (fun e => (index_key (fst e), snd e)) (indexed_from 0 l)
  | JStr s => map (fun e => (index_key (fst e), char_str (snd e)))
                  (indexed_from 0 (chars s))
  | _ => []
  end.

(** [{...a, ...b}] continued: the properties of [b] written onto [ps]. *)
Definition assign_all (ps : Props) (b : Props) : Props :=
  fold_left (fun acc kv => set_prop (fst kv) (snd kv) acc) b ps.

(** [[...v]]: arrays and strings are iterable, nothing else in the model. *)
Definition spread_array (v : JsVal) : Res (list JsVal) :=
  match v with
  | JArr l => Ok l
  | JStr s => Ok (map char_str (chars s))
  | _ => Throw "TypeError: value is not iterable"
  end.

(** *** JSON.stringify *)

Definition hex_digit (n : nat) : ascii :=
  ascii_of_nat (if (n <? 10)%nat then 48 + n else 87 + n).

Definition json_escape_char (c : ascii) : list ascii :=
  let n := nat_of_ascii c in
  if (n =? 34)%nat then [ascii_of_nat 92; ascii_of_nat 34]
  else if (n =? 92)%nat then chars "\\"
  else if (n =? 8)%nat then chars "\b"
  else if (n =? 9)%nat then chars "\t"
  else if (n =? 10)%nat then chars "\n"
  else if (n =? 12)%nat then chars "\f"
  else if (n =? 13)%nat then chars "\r"
  else if (n <? 32)%nat
       then chars "\u00" ++ [hex_digit (n / 16); hex_digit (n mod 16)]
  else [c].

Definition json_quote (s : string) : string :=
  string_of_list_ascii
    (ascii_of_nat 34 :: flat_map json_escape_char (chars s) ++ [ascii_of_nat 34]).

Fixpoint join (sep : string) (l : list string) : string :=
  match l with
  | [] => ""
  | [x] => x
  | x :: l' => x +:+ sep +:+ join sep l'
  end.

(** [None] stands for the result [undefined]. *)
Fixpoint stringify (v : JsVal) : option string :=
  match v with
  | JUndef | JNative => None
  | JNull => Some "null"
  | JBool b => Some (if b then "true" else "false")
  | JNum z => Some (pretty z)
  | JStr s => Some (json_quote s)
  | JRegExp _ => Some "{}"
  | JArr l =>
      Some ("[" +:+ join "," (map (fun x => default "null" (stringify x)) l) +:+ "]")
  | JObj ps =>
      Some ("{" +:+
            join ","
              ((fix members (ps : Props) : list string :=
                  match ps with
                  | [] => []
                  | (k, x) :: ps' =>
                      match stringify x with
                      | Some t => (json_quote k +:+ ":" +:+ t) :: members ps'
                      | None => members ps'
                      end
                  end) ps)
            +:+ "}")
  end.

Definition JSON_stringify (v : JsVal) : JsVal :=
  match stringify v with
  | Some s => JStr s
  | None => JUndef
  end.

End Js.

(** ** Matching a string against a [RegExp] object *)

Module RegExpOps.
Import Js.

Definition ignore_case (r : RegExp) : bool := has_char "i" (re_flags r).
Definition global (r : RegExp) : bool := has_char "g" (re_flags r).

Fixpoint group_count (r : Regex.re) : nat :=
  match r with
  | Regex.RSeq a b | Regex.RAlt a b => Nat.max (group_count a) (group_count b)
  | Regex.RStar _ a => group_count a
  | Regex.RGroup n a => Nat.max n (group_count a)
  | _ => 0
  end.

Definition exec_first (r : RegExp) (s : string) : option Regex.hit :=
  Regex.search (re_ast r) (ignore_case r) (chars s) 0.

(** [r.test(s)] for a pattern without the [g] and [y] flags. *)
Definition test (r : RegExp) (s : string) : bool :=
  match exec_first r s with Some _ => true | None => false end.

Definition group_val (s : string) (h : Regex.hit) (n : nat) : JsVal :=
  match Regex.hit_group (chars s) h n with
  | Some t => JStr t
  | None => JUndef
  end.

(** [s.match(r)]: [None] is [null].  Without the [g] flag the array holds
    the matched text and then every capture group; with it, the texts of all
    successive matches. *)
Definition string_match (s : string) (r : RegExp) : option (list JsVal) :=
  if global r then
    match Regex.search_all (S (String.length s)) (re_ast r) (ignore_case r)
            (chars s) 0 with
    | [] => None
    | hs => Some (map (fun h => JStr (Regex.hit_text (chars s) h)) hs)
    end
  else
    match exec_first r s with
    | None => None
    | Some h =>
        Some (JStr (Regex.hit_text (chars s) h)
              :: map (group_val s h) (seq 1 (group_count (re_ast r))))
    end.

End RegExpOps.

(** ** hooks/commit-msg.js *)

Module CommitMsg.
Import Js.

Definition default_types : list string :=
  [ "feat"; "fix"; "docs"; "style"; "refactor"; "test"; "chore"; "perf";
    "build"; "ci"; "revert" ].

(** [^(feat|fix|...|revert)(\(.+\))?: .+] *)
Definition conventional_ast : Regex.re :=
  Regex.seqs
    [ Regex.RBol;
      Regex.RGroup 1 (Regex.alts (map Regex.lit default_types));
      Regex.opt
        (Regex.RGroup 2
           (Regex.seqs [ Regex.lit "("; Regex.plus (Regex.RChar Regex.CAny);
                         Regex.lit ")" ]));
      Regex.lit ": ";
      Regex.plus (Regex.RChar Regex.CAny) ].

Definition conventional_source : string :=
  "^(feat|fix|docs|style|refactor|test|chore|perf|build|ci|revert)(\(.+\))?: .+".

(** The literal at the end of [parsePattern], with the [i] flag. *)
Definition default_pattern : RegExp :=
  MkRegExp conventional_source "i" conventional_ast.

(** The literal [parsePattern] uses to recognise a pattern written between
    slashes: a slash, a lazy run of any characters (group 1), a slash, a run
    of the flag letters g, i, m, u, y (group 2), anchored at both ends. *)
Definition slashed_pattern : RegExp :=
  MkRegExp "^\/(.*?)\/([gimuy]*)$" EmptyString
    (Regex.seqs
       [ Regex.RBol; Regex.lit "/";
         Regex.RGroup 1 (Regex.RStar false (Regex.RChar Regex.CAny));
         Regex.lit "/";
         Regex.RGroup 2
           (Regex.RStar true (Regex.RChar (Regex.COneOf (chars "gimuy"))));
         Regex.REol ]).

(** [/[()]/g] *)
Definition is_paren (c : ascii) : bool :=
  Ascii.eqb c "("%char || Ascii.eqb c ")"%char.

Definition strip_parens (s : string) : string :=
  string_of_list_ascii (List.filter (fun c => negb (is_paren c)) (chars s)).

Definition as_string (v : JsVal) : string :=
  match v with JStr s => s | _ => EmptyString end.

Section WithEngine.

(** [new RegExp(source, flags)]: the engine's compiler; it throws a
    [SyntaxError] on text that is not a pattern. *)
Variable RegExp_new : string -> string -> Res RegExp.

Definition parsePattern (pattern : JsVal) : Res RegExp :=
  match pattern with
  | JRegExp r => Ok r                           (* pattern instanceof RegExp *)
  | JStr s =>                                   (* typeof pattern === "string" *)
      match RegExpOps.string_match s slashed_pattern with
      | Some m =>
          let flags := as_string (nth 2 m JUndef) in
          RegExp_new (as_string (nth 1 m JUndef))
                     (if truthy (JStr flags) then flags else "i")
      | None => RegExp_new s "i"
      end
  | _ => Ok default_pattern
  end.

End WithEngine.

Record Parsed : Type := MkParsed {
  p_type : JsVal;
  p_scope : JsVal;
  p_description : string;
  p_raw : string
}.

(** [None] is the result [null]. *)
Definition parseCommitMessage (commitMessage : string) (pattern : RegExp)
    : option Parsed :=
  match RegExpOps.string_match commitMessage pattern with
  | None => None
  | Some m =>
      let type := nth 1 m JUndef in
      let scopePart := nth 2 m JUndef in
      let scope :=
        if truthy scopePart then JStr (strip_parens (as_string scopePart))
        else JNull in
      let description :=
        trim (string_of_list_ascii
                (remove_first (chars (as_string (nth 0 m JUndef)))
                              (chars commitMessage))) in
      Some (MkParsed type scope description commitMessage)
  end.

End CommitMsg.


(** ** The process environment *)

Record ProcessEnv : Type := MkEnv {
  env_CI : option string;
  env_GITHUB_ACTIONS : option string;
  env_NODE_ENV : option string;
  env_HUSKY_VERBOSE : option string;
  env_HUSKY_AUTO_FIX : option string;
  env_HUSKY_PARALLEL : option string;
  env_HUSKY_CACHE : option string;
  env_cwd : string;                (* process.cwd() *)
  env_now : string                 (* new Date().toISOString() *)
}.

(** [process.env.X === text] *)
Definition env_is (x : option string) (text : string) : bool :=
  match x with
  | Some s => String.eqb s text
  | None => false
  end.

Definition env_val (x : option string) : Js.JsVal :=
  match x with
  | Some s => Js.JStr s
  | None => Js.JUndef
  end.

(** ** configs/common.config.js *)

Module CommonConfig.
Import Js.

Definition check (name : string) (enabled critical : bool) (options : Props)
    : JsVal :=
  JObj [ ("name", JStr name); ("enabled", JBool enabled);
         ("critical", JBool critical); ("options", JObj options) ].

(** A descriptor of the environment overlays, which carry no options. *)
Definition check3 (name : string) (enabled critical : bool) : JsVal :=
  JObj [ ("name", JStr name); ("enabled", JBool enabled);
         ("critical", JBool critical) ].

(** [/^wip:|^fixup!|^squash!|^draft:/i] *)
Definition skipPattern : RegExp :=
  MkRegExp "^wip:|^fixup!|^squash!|^draft:" "i"
    (Regex.alts
       (map (fun w => Regex.RSeq Regex.RBol (Regex.lit w))
            [ "wip:"; "fixup!"; "squash!"; "draft:" ])).

(** The commit message pattern of the configuration: the conventional
    pattern without flags. *)
Definition commitPattern : RegExp :=
  MkRegExp CommitMsg.conventional_source EmptyString CommitMsg.conventional_ast.

Definition environments : JsVal :=
  JObj
    [ ("development",
        JObj [ ("general", JObj [ ("verbose", JBool true); ("autoFix", JBool true) ]);
               ("preCommit", JObj [ ("timeout", JNum 15000); ("failFast", JBool false) ]);
               ("prePush", JObj [ ("enabled", JBool false) ]) ]);
      ("production",
        JObj [ ("general", JObj [ ("skipCI", JBool false); ("verbose", JBool false) ]);
               ("preCommit",
                 JObj [ ("checks", JArr [ check3 "lint-staged" true true;
                                          check3 "typescript" true true ]) ]);
               ("prePush",
                 JObj [ ("enabled", JBool true);
                        ("checks", JArr [ check3 "build" true true;
                                          check3 "test" true false ]) ]) ]);
      ("ci",
        JObj [ ("general", JObj [ ("skipCI", JBool false); ("verbose", JBool true);
                                  ("parallelChecks", JBool true) ]);
               ("preCommit", JObj [ ("runInCI", JBool true); ("parallel", JBool true);
                                    ("timeout", JNum 30000) ]);
               ("prePush", JObj [ ("enabled", JBool true);
                                  ("timeout", JNum 180000) ]) ]) ].

(** The exported object.  Its [default] property (the object itself) and its
    [utils] property (functions) are left out: [getConfig] reads neither and
    copies neither into its result. *)
Definition config (e : ProcessEnv) : JsVal :=
  JObj
    [ ("general",
        JObj [ ("skipCI", JBool (env_is (env_CI e) "true"));
               ("verbose", JBool (env_is (env_HUSKY_VERBOSE e) "true"));
               ("autoFix", JBool (negb (env_is (env_HUSKY_AUTO_FIX e) "false")));
               ("parallelChecks", JBool (negb (env_is (env_HUSKY_PARALLEL e) "false")));
               ("cacheEnabled", JBool (negb (env_is (env_HUSKY_CACHE e) "false"))) ]);
      ("preCommitDefaults",
        JObj [ ("enabled", JBool true);
               ("checks",
                 JArr [ check "lint-staged" true true
                          [ ("stagedOnly", JBool true); ("allowEmpty", JBool false);
                            ("autoFix", JBool true) ];
                        check "typescript" true true
                          [ ("noEmit", JBool true); ("skipLibCheck", JBool true);
                            ("changedOnly", JBool true) ] ]);
               ("timeout", JNum 10000);
               ("skipPattern", JRegExp skipPattern);
               ("runInCI", JBool true);
               ("parallel", JBool false);
               ("failFast", JBool true) ]);
      ("prePushDefaults",
        JObj [ ("enabled", JBool true);
               ("checks",
                 JArr [ check "build" true true
                          [ ("production", JBool false); ("sourceMap", JBool true) ];
                        check "test" false false
                          [ ("watch", JBool false); ("coverage", JBool false) ] ]);
               ("timeout", JNum 120000);
               ("skipBranches",
                 JArr [ JStr "main"; JStr "master"; JStr "develop"; JStr "release/*" ]) ]);
      ("commitMsgDefaults",
        JObj [ ("enabled", JBool true);
               ("pattern", JRegExp commitPattern);
               ("minLength", JNum 10);
               ("maxLength", JNum 100);
               ("allowMerge", JBool true);
               ("allowRevert", JBool true);
               ("allowSquash", JBool false) ]);
      ("preCommit", JObj []);
      ("prePush", JObj []);
      ("commitMsg", JObj []);
      ("environments", environments) ].

(** *** utils.shouldSkipForBranch

    The branch name comes from [git branch --show-current]; [None] is a
    failing command.  A list entry with a star becomes the pattern
    [^entry$] with every star replaced by [.*]; [glob_ast] is that pattern
    for an entry whose other characters stand for themselves in a regular
    expression (letters, digits, slash, dash, underscore), which is the case
    of every entry in the repository. *)
Fixpoint glob_body (cs : list ascii) : Regex.re :=
  match cs with
  | [] => Regex.REol
  | c :: cs' =>
      Regex.RSeq
        (if Ascii.eqb c "*"%char
         then Regex.RStar true (Regex.RChar Regex.CAny)
         else Regex.RChar (Regex.CChar c))
        (glob_body cs')
  end.

Definition glob_ast (pattern : string) : Regex.re :=
  Regex.RSeq Regex.RBol (glob_body (chars pattern)).

Definition branch_matches (currentBranch pattern : string) : bool :=
  if has_char "*" pattern
  then match Regex.search (glob_ast pattern) false (chars currentBranch) 0 with
       | Some _ => true
       | None => false
       end
  else String.eqb currentBranch pattern.

Definition shouldSkipForBranch (git_branch : option string)
    (skipBranches : list string) : bool :=
  match git_branch with
  | None => false
  | Some out =>
      let currentBranch := trim out in
      if negb (truthy (JStr currentBranch)) || (length skipBranches =? 0)%nat
      then false
      else existsb (branch_matches currentBranch) skipBranches
  end.

End CommonConfig.

(** ** configs/nextjs.config.js and configs/vite.config.js *)

Module ProjectConfigs.
Import Js.

Definition strs (l : list string) : JsVal := JArr (map JStr l).

Definition nextjs : JsVal :=
  JObj
    [ ("dependencies",
        JObj [ ("@next/eslint-plugin-next", JStr "^14.0.0");
               ("eslint-config-next", JStr "^14.0.0");
               ("next", JStr "^14.0.0") ]);
      ("additionalChecks",
        JObj [ ("preCommit", JArr [ CommonConfig.check3 "next-lint" true true ]);
               ("prePush", JArr [ CommonConfig.check3 "next-build" true true;
                                  CommonConfig.check3 "next-security" true false ]) ]);
      ("scripts",
        JObj [ ("lint:next", JStr "next lint --fix --quiet");
               ("build:next", JStr "next build");
               ("type-check", JStr "tsc --noEmit --skipLibCheck") ]);
      ("lintStaged",
        JObj [ ("**/*.{js,jsx,ts,tsx}", strs [ "next lint --fix"; "prettier --write" ]);
               ("**/*.{css,scss}", strs [ "prettier --write" ]);
               ("**/*.{md,json}", strs [ "prettier --write" ]) ]);
      ("eslintConfig",
        JObj [ ("extends", strs [ "next/core-web-vitals" ]);
               ("rules",
                 JObj [ ("@next/next/no-html-link-for-pages", JStr "warn");
                        ("react/no-unescaped-entities", JStr "warn") ]) ]) ].

Definition vite : JsVal :=
  JObj
    [ ("dependencies",
        JObj [ ("@vitejs/plugin-react", JStr "^4.0.0");
               ("@typescript-eslint/eslint-plugin", JStr "^6.0.0");
               ("@typescript-eslint/parser", JStr "^6.0.0") ]);
      ("additionalChecks",
        JObj [ ("preCommit", JArr [ CommonConfig.check3 "vite-type-check" true true ]);
               ("prePush", JArr [ CommonConfig.check3 "vite-build" true true ]) ]);
      ("scripts",
        JObj [ ("lint:vite", JStr "eslint . --ext .js,.jsx,.ts,.tsx --fix --quiet");
               ("build:vite", JStr "vite build");
               ("type-check", JStr "tsc --noEmit --skipLibCheck") ]);
      ("lintStaged",
        JObj [ ("**/*.{js,jsx,ts,tsx,vue}",
                 strs [ "eslint --fix --max-warnings=0"; "prettier --write" ]);
               ("**/*.{css,scss,less,vue}", strs [ "prettier --write" ]);
               ("**/*.{md,json}", strs [ "prettier --write" ]) ]);
      ("eslintConfig",
        JObj [ ("extends",
                 strs [ "eslint:recommended"; "plugin:@typescript-eslint/recommended";
                        "plugin:react-hooks/recommended" ]);
               ("parser", JStr "@typescript-eslint/parser");
               ("plugins", strs [ "@typescript-eslint"; "react-hooks" ]) ]) ].

End ProjectConfigs.

(** ** configs/hooks-config.js *)

Module HooksConfig.
Import Js.

(** [item && typeof item === "object" && !Array.isArray(item)] *)
Definition isObject (item : JsVal) : bool :=
  truthy item && typeof_object item && negb (isArray item).

(** *** mergeArrays

    The [Map] is a list of (key, item) pairs in insertion order; setting a
    key that is present replaces its item and keeps its place. *)
Definition map_key (item : JsVal) : JsVal :=
  if truthy item && typeof_object item && truthy (get item "name")
  then get item "name"
  else JSON_stringify item.

Fixpoint map_set (k v : JsVal) (m : list (JsVal * JsVal)) : list (JsVal * JsVal) :=
  match m with
  | [] => [(k, v)]
  | (k', v') :: m' =>
      if strict_equals k' k then (k', v) :: m' else (k', v') :: map_set k v m'
  end.

Definition mergeArrays (arr1 arr2 : list JsVal) : list JsVal :=
  let combined := arr1 ++ arr2 in
  let unique :=
    fold_left (fun m item => map_set (map_key item) item m) combined [] in
  map snd unique.

(** *** deepMerge

    The recursion follows the entries of [source], each of which is
    [source[key]] for its key.  The assignment [output[key] = ...] is the
    one of an ordinary key, which creates or replaces an own property; at
    the key [__proto__] the program calls the setter of the prototype
    instead, and [key in target] holds there of every object.  The model
    does not cover that key: the statements about merges that mention it
    assume that the merged objects do not own it. *)
Definition as_items (v : JsVal) : list JsVal :=
  match v with JArr l => l | _ => [] end.

Fixpoint deepMerge (target source : JsVal) {struct source} : JsVal :=
  let output := own_enumerable target in
  if isObject target && isObject source then
    match source with
    | JObj entries =>
        JObj
          ((fix each (entries : Props) (output : Props) {struct entries} : Props :=
              match entries with
              | [] => output
              | (key, source_key) :: rest =>
                  let value :=
                    if isObject source_key then
                      if negb (has_property target key) then source_key
                      else deepMerge (get target key) source_key
                    else if isArray source_key && isArray (get target key) then
                      JArr (mergeArrays (as_items (get target key))
                                        (as_items source_key))
                    else source_key in
                  each rest (set_prop key value output)
              end) entries output)
    | _ => JObj output
    end
  else JObj output.

(** The body and the loop of [deepMerge] as functions of their own, which
    the proofs unfold [deepMerge] into. *)
Definition mergeValue (target : JsVal) (key : string) (source_key : JsVal)
    : JsVal :=
  if isObject source_key then
    if negb (has_property target key) then source_key
    else deepMerge (get target key) source_key
  else if isArray source_key && isArray (get target key) then
    JArr (mergeArrays (as_items (get target key)) (as_items source_key))
  else source_key.

Fixpoint mergeEntries (target : JsVal) (entries output : Props) : Props :=
  match entries with
  | [] => output
  | (key, source_key) :: rest =>
      mergeEntries target rest (set_prop key (mergeValue target key source_key) output)
  end.

(** *** loadProjectConfig *)

(** What the file [<projectType>.config.js] next to [hooks-config.js] is. *)
Inductive ConfigModule : Type :=
| NoFile                               (* [existsSync] is false *)
| LoadFails                            (* [require] throws *)
| Exports (config : JsVal)
| ExportsFunction (result : Res JsVal) (* the module is a function; its call *).

Definition loadProjectConfig (modules : string -> ConfigModule)
    (projectType : string) : JsVal :=
  if String.eqb projectType "common" then JObj []
  else match modules projectType with
       | Exports config => config
       | ExportsFunction (Ok config) => config
       | ExportsFunction (Throw _) | LoadFails | NoFile => JObj []
       end.

(** The configuration directory of the repository, for a project type that
    is the name of a configuration (what detection returns): the directory
    holds [nextjs.config.js] and [vite.config.js] beside the base
    configuration.  A project type with path segments would name a file
    elsewhere. *)
Definition repo_modules (projectType : string) : ConfigModule :=
  if String.eqb projectType "nextjs" then Exports ProjectConfigs.nextjs
  else if String.eqb projectType "vite" then Exports ProjectConfigs.vite
  else NoFile.

(** *** getEnvironment *)

Definition getEnvironment (e : ProcessEnv) : string :=
  if env_is (env_CI e) "true" || env_is (env_GITHUB_ACTIONS e) "true" then "ci"
  else if env_is (env_NODE_ENV e) "production" then "production"
  else if env_is (env_NODE_ENV e) "test" then "test"
  else "development".

(** *** getConfig *)

(** [self.findIndex(p)], [None] for -1; [p] sees the index as well. *)
Fixpoint findIndex_from (j : nat) (p : nat -> JsVal -> Res bool)
    (l : list JsVal) : Res (option nat) :=
  match l with
  | [] => Ok None
  | c :: l' =>
      do b <- p j c;
      if b then Ok (Some j) else findIndex_from (S j) p l'
  end.

(** [c.name === check.name], with [c] at index [j] and [check] at index
    [index] of the same array: at the same index both are one object. *)
Definition same_name (j : nat) (c : JsVal) (index : nat) (check : JsVal)
    : Res bool :=
  do a <- member c "name";
  do b <- member check "name";
  Ok ((j =? index)%nat || strict_equals a b).

(** [self.filter((check, index, self) =>
       index === self.findIndex((c) => c.name === check.name))] *)
Fixpoint keep_first_from (index : nat) (self rest : list JsVal)
    : Res (list JsVal) :=
  match rest with
  | [] => Ok []
  | check :: rest' =>
      do found <- findIndex_from 0 (fun j c => same_name j c index check) self;
      do tail <- keep_first_from (S index) self rest';
      Ok (if decide (found = Some index) then check :: tail else tail)
  end.

Definition uniqueByName (self : list JsVal) : Res (list JsVal) :=
  keep_first_from 0 self self.

(** The [checks] of a hook section: the defaults, then the overrides, first
    occurrence of each name kept. *)
Definition sectionChecks (defaults overrides : JsVal) : Res (list JsVal) :=
  do a <- spread_array (or_else (opt_member defaults "checks") (JArr []));
  do b <- spread_array (or_else (opt_member overrides "checks") (JArr []));
  uniqueByName (a ++ b).

Definition hookSection (defaults overrides : JsVal) : Res JsVal :=
  do checks <- sectionChecks defaults overrides;
  Ok (JObj (set_prop "checks" (JArr checks)
              (assign_all (assign_all [] (own_enumerable defaults))
                          (own_enumerable overrides)))).

(** [x !== false] *)
Definition not_false (v : JsVal) : bool :=
  match v with JBool false => false | _ => true end.

(** [path.join(a, b)] for a normalized [a] without a trailing separator. *)
Definition path_join (a b : string) : string := a +:+ "/" +:+ b.

Definition delete_key (key : string) (v : JsVal) : JsVal :=
  match v with
  | JObj ps => JObj (delete_prop key ps)
  | _ => v
  end.

Definition getConfig (e : ProcessEnv) (modules : string -> ConfigModule)
    (projectType : string) (userConfig : JsVal) : Res JsVal :=
  let userConfig := match userConfig with JUndef => JObj [] | _ => userConfig end in
  let commonConfig := CommonConfig.config e in
  let environment := getEnvironment e in
  let projectConfig := loadProjectConfig modules projectType in
  let envConfig :=
    or_else (opt_member (opt_member commonConfig "environments") environment)
            (JObj []) in
  let mergedConfig := deepMerge commonConfig envConfig in
  let mergedConfig := delete_key "environments" mergedConfig in
  let mergedConfig := deepMerge mergedConfig projectConfig in
  let mergedConfig := deepMerge mergedConfig userConfig in
  let field := get mergedConfig in
  do preCommit <- hookSection (field "preCommitDefaults") (field "preCommit");
  do prePush <- hookSection (field "prePushDefaults") (field "prePush");
  Ok (JObj
        [ ("meta",
            JObj [ ("projectType", JStr projectType);
                   ("environment", JStr environment);
                   ("configVersion", JStr "1.0.0");
                   ("generatedAt", JStr (env_now e)) ]);
          ("general",
            JObj (set_prop "environment" (JStr environment)
                   (set_prop "projectType" (JStr projectType)
                     (set_prop "projectRoot" (JStr (env_cwd e))
                       (assign_all [] (own_enumerable (field "general")))))));
          ("preCommit", preCommit);
          ("prePush", prePush);
          ("commitMsg",
            JObj (assign_all (assign_all [] (own_enumerable (field "commitMsgDefaults")))
                             (own_enumerable (field "commitMsg"))));
          ("advanced",
            JObj [ ("project", projectConfig);
                   ("env",
                     JObj [ ("nodeEnv", env_val (env_NODE_ENV e));
                            ("isCI", JBool (env_is (env_CI e) "true"));
                            ("isVerbose", JBool (env_is (env_HUSKY_VERBOSE e) "true")) ]);
                   ("cache",
                     JObj [ ("enabled",
                              JBool (not_false (opt_member (field "general") "cacheEnabled")));
                            ("directory", JStr (path_join (env_cwd e) ".husky-cache"));
                            ("ttl", JNum 3600000) ]) ]) ]).

End HooksConfig.

(** ** scripts/utils/config-loader.js: detectProjectType *)

Module ConfigLoader.
Import Js.

(** The manifest [package.json] in the project root, as the [try] block of
    [detectProjectType] meets it. *)
Inductive Manifest : Type :=
| NoManifest                   (* [existsSync] is false *)
| Unreadable                   (* [readFileSync] throws *)
| Malformed                    (* [JSON.parse] throws *)
| Parsed (pkg : JsVal).

Record ProjectRoot : Type := MkRoot {
  root_readdir : Res (list string);   (* [fs.readdirSync(projectRoot)] *)
  root_manifest : Manifest
}.

(** [/^next\.config\.(js|ts|mjs|cjs)$/.test(f)]: the pattern is anchored at
    both ends and has four alternatives, so it holds of four names. *)
Definition is_next_config (f : string) : bool :=
  mem_string f [ "next.config.js"; "next.config.ts"; "next.config.mjs";
                 "next.config.cjs" ].

Definition is_vite_config (f : string) : bool :=
  mem_string f [ "vite.config.js"; "vite.config.ts"; "vite.config.mjs";
                 "vite.config.cjs" ].

(** The body of the [try] block; [Ok None] is falling out of it. *)
Definition fromManifest (m : Manifest) : Res (option string) :=
  match m with
  | NoManifest => Ok None
  | Unreadable => Throw "EACCES: permission denied, open package.json"
  | Malformed => Throw "SyntaxError: Unexpected token in JSON"
  | Parsed pkg =>
      do dependencies <- member pkg "dependencies";
      do devDependencies <- member pkg "devDependencies";
      do peerDependencies <- member pkg "peerDependencies";
      let allDeps :=
        JObj (assign_all
                (assign_all (assign_all [] (own_enumerable dependencies))
                            (own_enumerable devDependencies))
                (own_enumerable peerDependencies)) in
      if truthy (get allDeps "next") || truthy (get allDeps "nextjs")
      then Ok (Some "nextjs")
      else if truthy (get allDeps "vite") then Ok (Some "vite")
      else if truthy (get allDeps "react") && negb (truthy (get allDeps "next"))
      then Ok (Some "react")
      else Ok None
  end.

Definition detectProjectType (root : ProjectRoot) : Res string :=
  do files <- root_readdir root;
  if existsb is_next_config files then Ok "nextjs"
  else if existsb is_vite_config files then Ok "vite"
  else match fromManifest (root_manifest root) with
       | Ok (Some type) => Ok type
       | Ok None => Ok "common"
       | Throw _ => Ok "common"        (* caught and logged at debug level *)
       end.

End ConfigLoader.

(** ** hooks/pre-commit.js and hooks/pre-push.js *)

Module Hooks.
Import Js.

(** What [await checkModule()] does, [checkModule] being the module
    [./scripts/checks/<name>.js]: it resolves, it throws an [Error] (a
    module that cannot be loaded throws as well), or it never settles.
    This is the contract of a check in the specification: throwing, with a
    message, signals failure.  The [catch] block of the runners reads
    [error.message]; a module that throws [null] or [undefined] is outside
    the contract and outside this type. *)
Inductive CheckOutcome : Type :=
| Passes
| Fails (message : string)
| Hangs.

(** An entry of the [results] array.  The entry of a check that passed has no
    [critical] property. *)
Record CheckResult : Type := MkResult {
  r_name : JsVal;
  r_passed : bool;
  r_critical : JsVal
}.

(** How an [async] function ends. *)
Inductive Outcome : Type :=
| Returns (v : JsVal)
| Rejects (message : string)
| NeverSettles.

(** [`${v}`] for the values a check name can be; an array gives its
    elements joined by commas, [null] and [undefined] among them as empty
    text, and an object the text of [Object.prototype.toString], which an
    object of the configuration inherits. *)
Fixpoint template (v : JsVal) : string :=
  match v with
  | JStr s => s
  | JUndef => "undefined"
  | JNull => "null"
  | JBool b => if b then "true" else "false"
  | JNum z => pretty z
  | JRegExp r => "/" +:+ re_source r +:+ "/" +:+ re_flags r
  | JNative => "function () { [native code] }"
  | JArr l =>
      join "," (map (fun x => if is_nullish x then EmptyString else template x) l)
  | JObj _ => "[object Object]"
  end.

(** The outputs of the two git commands; [execSync] throws when the command
    fails. *)
Record Git : Type := MkGit {
  git_branch : Res string;       (* git branch --show-current *)
  git_log : Res string           (* git log -1 --pretty=%B *)
}.

Section WithChecks.

Variable World : Type.

(** Running the check module of the given name in a state of the world. *)
Variable run_check : string -> World -> CheckOutcome * World.

(** The state of a run: the world, the checks whose module was invoked so
    far with what each did, and the [results] array. *)
Record RunState : Type := MkRun {
  rs_world : World;
  rs_trace : list (JsVal * CheckOutcome);
  rs_results : list CheckResult
}.

Definition start (w : World) : RunState := MkRun w [] [].

(** The module a check names: [./scripts/checks/${check.name}.js]. *)
Definition moduleName (check : JsVal) : string := template (get check "name").

(** How the [for] loop over the checks ends. *)
Inductive LoopEnd : Type :=
| Completed (st : RunState)
| Aborted (st : RunState)        (* [return false] in the [catch] block *)
| Stuck (st : RunState).         (* an [await] that never resumes *)

(** The state after one check did [outcome] and left the world [w]. *)
Definition record (st : RunState) (check : JsVal) (outcome : CheckOutcome)
    (w : World) : RunState :=
  MkRun w (rs_trace st ++ [(check, outcome)])
    (match outcome with
     | Passes => rs_results st ++ [MkResult (get check "name") true JUndef]
     | Fails _ =>
         rs_results st
         ++ [MkResult (get check "name") false (get check "critical")]
     | Hangs => rs_results st
     end).

Fixpoint loop (checks : list JsVal) (st : RunState) : LoopEnd :=
  match checks with
  | [] => Completed st
  | check :: rest =>
      let '(outcome, w) := run_check (moduleName check) (rs_world st) in
      let st' := record st check outcome w in
      match outcome with
      | Passes => loop rest st'
      | Fails _ =>
          if truthy (get check "critical") then Aborted st' else loop rest st'
      | Hangs => Stuck st'
      end
  end.

(** [results.filter((r) => r.critical).every((r) => r.passed)] *)
Definition allCriticalPassed (results : list CheckResult) : bool :=
  forallb r_passed (List.filter (fun r => truthy (r_critical r)) results).

(** The loop over the enabled checks and the summary after it. *)
Definition runChecks (checks : list JsVal) (st : RunState)
    : Outcome * RunState :=
  match loop checks st with
  | Aborted st' => (Returns (JBool false), st')
  | Stuck st' => (NeverSettles, st')
  | Completed st' =>
      if negb (allCriticalPassed (rs_results st'))
      then (Returns (JBool false), st')
      else (Returns (JBool true), st')
  end.

(** [checks.filter((check) => check.enabled)] on the value of
    [config.<hook>.checks]. *)
Fixpoint filterEnabled (l : list JsVal) : Res (list JsVal) :=
  match l with
  | [] => Ok []
  | check :: l' =>
      do enabled <- member check "enabled";
      do tail <- filterEnabled l';
      Ok (if truthy enabled then check :: tail else tail)
  end.

Definition enabledChecks (checks : JsVal) : Res (list JsVal) :=
  match checks with
  | JArr l => filterEnabled l
  | JUndef | JNull =>
      Throw "TypeError: Cannot read properties of undefined, reading filter"
  | _ => Throw "TypeError: checks.filter is not a function"
  end.

Definition rejected (message : string) (w : World) : Outcome * RunState :=
  (Rejects message, start w).

(** [pattern.test(text)] on the value of [skipPattern]. *)
Definition skipPatternTest (pattern : JsVal) (text : string) : Res bool :=
  match pattern with
  | JRegExp r => Ok (RegExpOps.test r text)
  | _ => Throw "TypeError: skipPattern.test is not a function"
  end.

Definition runPreCommitChecks (config : JsVal) (git : Git) (w : World)
    : Outcome * RunState :=
  if negb (truthy (opt_member (get config "preCommit") "enabled"))
  then (Returns (JBool true), start w)
  else
    match git_branch git, git_log git with
    | Throw e, _ => rejected e w
    | Ok _, Throw e => rejected e w
    | Ok _, Ok log =>
        let commitMsg := trim log in
        let preCommit := get config "preCommit" in
        let skipPattern := get preCommit "skipPattern" in
        match (if truthy skipPattern then skipPatternTest skipPattern commitMsg
               else Ok false) with
        | Throw e => rejected e w
        | Ok true => (Returns (JBool true), start w)
        | Ok false =>
            match enabledChecks (get preCommit "checks") with
            | Throw e => rejected e w
            | Ok checks => runChecks checks (start w)
            end
        end
    end.

Fixpoint is_substring (p cs : list ascii) : bool :=
  starts_with p cs ||
  match cs with
  | [] => false
  | _ :: cs' => is_substring p cs'
  end.

(** [skipBranches?.includes(currentBranch)]: membership in an array, and a
    substring test on a string. *)
Definition includesBranch (skipBranches : JsVal) (currentBranch : string)
    : Res bool :=
  match skipBranches with
  | JUndef | JNull => Ok false
  | JArr l => Ok (existsb (strict_equals (JStr currentBranch)) l)
  | JStr s => Ok (is_substring (chars currentBranch) (chars s))
  | _ => Throw "TypeError: skipBranches.includes is not a function"
  end.

Definition runPrePushChecks (config : JsVal) (git : Git) (w : World)
    : Outcome * RunState :=
  if negb (truthy (opt_member (get config "prePush") "enabled"))
  then (Returns (JBool true), start w)
  else
    match git_branch git with
    | Throw e => rejected e w
    | Ok out =>
        let currentBranch := trim out in
        let prePush := get config "prePush" in
        match includesBranch (get prePush "skipBranches") currentBranch with
        | Throw e => rejected e w
        | Ok true => (Returns (JBool true), start w)
        | Ok false =>
            match enabledChecks (get prePush "checks") with
            | Throw e => rejected e w
            | Ok checks => runChecks checks (start w)
            end
        end
    end.

(** *** runWithTimeout and the last statement of each hook

    [Promise.race] settles as the runner does, unless the timer armed with
    [config.<hook>.timeout] fires first, which [timer_first] tells; a
    runner that never settles loses the race. *)
Definition timeoutError : string := "timeout".

Definition race (runner : Outcome) (timer_first : bool) : Res JsVal :=
  if timer_first then Throw timeoutError
  else match runner with
       | Returns v => Ok v
       | Rejects e => Throw e
       | NeverSettles => Throw timeoutError
       end.

(** How the process ends. *)
Inductive ProcessEnd : Type :=
| Exit (code : Z)                       (* [process.exit(code)] *)
| UnhandledRejection (message : string).

(** The body of [runWithTimeout]: it calls [process.exit] in its [catch]
    block, or it comes to its end, which resolves its promise with
    [undefined] since the function has no [return] statement, or
    [getConfig] throws before the [try] block. *)
Inductive Settled : Type :=
| Exited (code : Z)
| Resolved (v : JsVal)
| Rejected (message : string).

Definition runWithTimeout (runner : JsVal -> Outcome * RunState)
    (getConfig : Res JsVal) (timer_first : bool) : Settled :=
  match getConfig with
  | Throw e => Rejected e
  | Ok config =>
      match race (fst (runner config)) timer_first with
      | Ok _ => Resolved JUndef
      | Throw _ => Exited 1
      end
  end.

(** [runWithTimeout().then((success) => process.exit(success ? 0 : 1))] *)
Definition finish (s : Settled) : ProcessEnd :=
  match s with
  | Exited code => Exit code
  | Resolved success => Exit (if truthy success then 0 else 1)
  | Rejected e => UnhandledRejection e
  end.

Definition preCommitMain (getConfig : Res JsVal) (git : Git) (w : World)
    (timer_first : bool) : ProcessEnd :=
  finish (runWithTimeout (fun config => runPreCommitChecks config git w)
                         getConfig timer_first).

Definition prePushMain (getConfig : Res JsVal) (git : Git) (w : World)
    (timer_first : bool) : ProcessEnd :=
  finish (runWithTimeout (fun config => runPrePushChecks config git w)
                         getConfig timer_first).

End WithChecks.

End Hooks.

(** ** The merge engine over a heap

    Objects, arrays and [RegExp] objects live in cells of a heap and are
    reached through references, so that two places can hold the same object
    and an assignment to a property is an update of one cell.  A location is
    an index into the heap; allocation appends a cell. *)

Module Heap.

Inductive val : Type :=
| VUndef
| VNull
| VBool (b : bool)
| VNum (z : Z)
| VStr (s : string)
| VFun (id : nat)                (* a function, with its identity *)
| VRef (l : nat).

Definition Props : Type := list (string * val).

Inductive cell : Type :=
| CObj (props : Props)
| CArr (items : list val)
| CRegExp (r : Js.RegExp).

Abbreviation heap := (list cell).

Definition alloc (h : heap) (c : cell) : heap * val := (h ++ [c], VRef (length h)).

Definition truthy (v : val) : bool :=
  match v with
  | VUndef | VNull => false
  | VBool b => b
  | VNum z => negb (z =? 0)%Z
  | VStr s => negb (String.eqb s "")
  | VFun _ | VRef _ => true
  end.

Definition typeof_object (v : val) : bool :=
  match v with VNull | VRef _ => true | _ => false end.

Definition isArray (h : heap) (v : val) : bool :=
  match v with
  | VRef l => match h !! l with Some (CArr _) => true | _ => false end
  | _ => false
  end.

Definition isObject (h : heap) (item : val) : bool :=
  truthy item && typeof_object item && negb (isArray h item).

(** The same-value-zero comparison of [Map] keys: primitives by content,
    functions and objects by identity. *)
Definition same_value (a b : val) : bool :=
  match a, b with
  | VUndef, VUndef => true
  | VNull, VNull => true
  | VBool x, VBool y => Bool.eqb x y
  | VNum x, VNum y => (x =? y)%Z
  | VStr x, VStr y => String.eqb x y
  | VFun x, VFun y => (x =? y)%nat
  | VRef x, VRef y => (x =? y)%nat
  | _, _ => false
  end.

Fixpoint lookup_prop (key : string) (ps : Props) : option val :=
  match ps with
  | [] => None
  | (k, v) :: ps' => if String.eqb k key then Some v else lookup_prop key ps'
  end.

Fixpoint set_prop (key : string) (v : val) (ps : Props) : Props :=
  match ps with
  | [] => [(key, v)]
  | (k, w) :: ps' =>
      if String.eqb k key then (k, v) :: ps' else (k, w) :: set_prop key v ps'
  end.

(** Inherited functions are told apart by their place in these lists. *)
Fixpoint index_of (s : string) (l : list string) (i : nat) : option nat :=
  match l with
  | [] => None
  | x :: l' => if String.eqb x s then Some i else index_of s l' (S i)
  end.

Definition inherited (key : string) : option val :=
  match index_of key Js.object_prototype_names 0 with
  | Some i => Some (VFun i)
  | None => None
  end.

Definition regexp_prop (r : Js.RegExp) (key : string) : option val :=
  if String.eqb key "source" then Some (VStr (Js.re_source r))
  else if String.eqb key "flags" then Some (VStr (Js.re_flags r))
  else if String.eqb key "lastIndex" then Some (VNum 0)
  else match find (fun e => String.eqb (fst e) key) Js.regexp_flag_names with
       | Some (_, c) => Some (VBool (Js.has_char c (Js.re_flags r)))
       | None =>
           match index_of key ["exec"; "test"; "compile"] 100 with
           | Some i => Some (VFun i)
           | None => None
           end
       end.

(** The property [key] of [o], own or inherited, if there is one.  As in
    the tree model, arrays are read at names that are neither an index nor
    [length]. *)
Definition find_property (h : heap) (o : val) (key : string) : option val :=
  match o with
  | VRef l =>
      match h !! l with
      | Some (CObj ps) =>
          match lookup_prop key ps with
          | Some v => Some v
          | None => inherited key
          end
      | Some (CRegExp r) =>
          match regexp_prop r key with
          | Some v => Some v
          | None => inherited key
          end
      | Some (CArr _) => inherited key
      | None => None
      end
  | VUndef | VNull => None
  | _ => inherited key
  end.

(** [key in o] and [o[key]] *)
Definition has_property (h : heap) (o : val) (key : string) : bool :=
  match find_property h o key with Some _ => true | None => false end.

Definition get (h : heap) (o : val) (key : string) : val :=
  default VUndef (find_property h o key).

Definition char_str (c : ascii) : val := VStr (String c EmptyString).

(** The own enumerable properties that [{...v}] copies. *)
Definition own_enumerable (h : heap) (v : val) : Props :=
  match v with
  | VRef l =>
      match h !! l with
      | Some (CObj ps) => ps
      | Some (CArr items) =>
          map (fun e => (Js.index_key (fst e), snd e)) (Js.indexed_from 0 items)
      | _ => []
      end
  | VStr s =>
      map (fun e => (Js.index_key (fst e), char_str (snd e)))
          (Js.indexed_from 0 (Js.chars s))
  | _ => []
  end.

(** [Object.keys(o)] for an object *)
Definition keys (h : heap) (o : val) : list string :=
  match o with
  | VRef l =>
      match h !! l with
      | Some (CObj ps) => map fst ps
      | _ => []
      end
  | _ => []
  end.

Definition items (h : heap) (a : val) : list val :=
  match a with
  | VRef l => match h !! l with Some (CArr l) => l | _ => [] end
  | _ => []
  end.

(** [o[key] = v] for the object at location [l] *)
Definition store (h : heap) (l : nat) (key : string) (v : val) : heap :=
  match h !! l with
  | Some (CObj ps) => <[ l := CObj (set_prop key v ps) ]> h
  | _ => h
  end.

(** *** JSON.stringify

    The engine keeps the stack of the objects it is inside of and throws
    when it meets one of them again.  The stack holds distinct locations of
    the heap, so the descent is never deeper than the heap has cells, which
    is what [fuel] counts. *)
Definition circular : string := "TypeError: Converting circular structure to JSON".

Definition on_stack (l : nat) (stack : list nat) : bool :=
  existsb (Nat.eqb l) stack.

Fixpoint stringify_at (fuel : nat) (stack : list nat) (h : heap) (v : val)
    : Res (option string) :=
  match v with
  | VUndef | VFun _ => Ok None
  | VNull => Ok (Some "null")
  | VBool b => Ok (Some (if b then "true" else "false"))
  | VNum z => Ok (Some (pretty z))
  | VStr s => Ok (Some (Js.json_quote s))
  | VRef l =>
      if on_stack l stack then Throw circular
      else
        match fuel with
        | O => Throw circular
        | S fuel' =>
            match h !! l with
            | None => Ok None
            | Some (CRegExp _) => Ok (Some "{}")
            | Some (CArr items) =>
                do parts <-
                  (fix elements (xs : list val) : Res (list string) :=
                     match xs with
                     | [] => Ok []
                     | x :: xs' =>
                         do t <- stringify_at fuel' (l :: stack) h x;
                         do ts <- elements xs';
                         Ok (default "null" t :: ts)
                     end) items;
                Ok (Some ("[" +:+ Js.join "," parts +:+ "]"))
            | Some (CObj ps) =>
                do parts <-
                  (fix members (ps : Props) : Res (list string) :=
                     match ps with
                     | [] => Ok []
                     | (k, x) :: ps' =>
                         do t <- stringify_at fuel' (l :: stack) h x;
                         do ts <- members ps';
                         Ok (match t with
                             | Some t => (Js.json_quote k +:+ ":" +:+ t) :: ts
                             | None => ts
                             end)
                     end) ps;
                Ok (Some ("{" +:+ Js.join "," parts +:+ "}"))
            end
        end
  end.

Definition JSON_stringify (h : heap) (v : val) : Res val :=
  do t <- stringify_at (length h) [] h v;
  Ok (match t with Some s => VStr s | None => VUndef end).

(** *** mergeArrays *)

Definition map_key (h : heap) (item : val) : Res val :=
  if truthy item && typeof_object item && truthy (get h item "name")
  then Ok (get h item "name")
  else JSON_stringify h item.

Fixpoint map_set (k v : val) (m : list (val * val)) : list (val * val) :=
  match m with
  | [] => [(k, v)]
  | (k', v') :: m' =>
      if same_value k' k then (k', v) :: m' else (k', v') :: map_set k v m'
  end.

Fixpoint collect (h : heap) (combined : list val) (unique : list (val * val))
    : Res (list (val * val)) :=
  match combined with
  | [] => Ok unique
  | item :: rest =>
      do k <- map_key h item;
      collect h rest (map_set k item unique)
  end.

(** The array [combined] and the returned array are new cells. *)
Definition mergeArrays (h : heap) (arr1 arr2 : val) : heap * Res val :=
  let combined := items h arr1 ++ items h arr2 in
  let '(h1, _) := alloc h (CArr combined) in
  match collect h1 combined [] with
  | Throw e => (h1, Throw e)
  | Ok unique =>
      let '(h2, result) := alloc h1 (CArr (map snd unique)) in
      (h2, Ok result)
  end.

(** *** deepMerge

    [None] is a recursion deeper than [fuel]; every other call returns the
    heap it leaves and what it returned or threw.  [mergeKeys] is the loop
    over [Object.keys(source)]; [recurse] is [deepMerge] with the fuel
    that is left, [out] the location of [output]. *)
Fixpoint mergeKeys (recurse : heap -> val -> val -> option (heap * Res val))
    (target source : val) (out : nat) (ks : list string) (h : heap)
    : option (heap * Res val) :=
  match ks with
  | [] => Some (h, Ok (VRef out))
  | key :: rest =>
      let source_key := get h source key in
      if isObject h source_key then
        if negb (has_property h target key)
        then mergeKeys recurse target source out rest (store h out key source_key)
        else match recurse h (get h target key) source_key with
             | None => None
             | Some (h', Throw e) => Some (h', Throw e)
             | Some (h', Ok merged) =>
                 mergeKeys recurse target source out rest (store h' out key merged)
             end
      else if isArray h source_key && isArray h (get h target key) then
        match mergeArrays h (get h target key) source_key with
        | (h', Throw e) => Some (h', Throw e)
        | (h', Ok merged) =>
            mergeKeys recurse target source out rest (store h' out key merged)
        end
      else mergeKeys recurse target source out rest (store h out key source_key)
  end.

Fixpoint deepMerge (fuel : nat) (h : heap) (target source : val)
    : option (heap * Res val) :=
  match fuel with
  | O => None
  | S fuel' =>
      let '(h1, output) := alloc h (CObj (own_enumerable h target)) in
      if isObject h1 target && isObject h1 source
      then mergeKeys (deepMerge fuel') target source (length h) (keys h1 source) h1
      else Some (h1, Ok output)
  end.

(** *** Shape of the inputs *)

(** [unchanged h h']: every cell of [h] is in [h'] as it was. *)
Definition unchanged (h h' : heap) : Prop :=
  forall l c, h !! l = Some c -> h' !! l = Some c.

(** The values a cell holds. *)
Definition children (c : cell) : list val :=
  match c with
  | CObj ps => map snd ps
  | CArr items => items
  | CRegExp _ => []
  end.

(** [tree_le h n v]: the objects and arrays that [v] reaches in [h] are
    nested at most [n] deep.  Every reference among them leads to a cell and
    none of them contains itself; two places may hold the same object.  A
    configuration tree has such a bound. *)
Fixpoint tree_le (h : heap) (n : nat) (v : val) : Prop :=
  match v with
  | VRef l =>
      match n with
      | O => False
      | S n' =>
          match h !! l with
          | Some c => Forall (tree_le h n') (children c)
          | None => False
          end
      end
  | _ => True
  end.

(** The value is a reference to a cell that holds an object. *)
Definition is_object_at (h : heap) (v : val) (l : nat) : Prop :=
  v = VRef l /\ exists ps, h !! l = Some (CObj ps).

End Heap.

(** ** Notions used in the statements *)

Module Spec.
Import Js.

(** *** Hook runs *)

(** An executed check that is flagged critical passed. *)
Definition critical_passed (entry : JsVal * Hooks.CheckOutcome) : Prop :=
  truthy (get (fst entry) "critical") = true -> snd entry = Hooks.Passes.

(** The checks whose module a run invoked, in order. *)
Definition invoked {World} (st : Hooks.RunState World) : list JsVal :=
  map fst (Hooks.rs_trace World st).

(** The entries of the [results] array that an executed check adds. *)
Definition result_of (entry : JsVal * Hooks.CheckOutcome) : list Hooks.CheckResult :=
  match snd entry with
  | Hooks.Passes => [Hooks.MkResult (get (fst entry) "name") true JUndef]
  | Hooks.Fails _ =>
      [Hooks.MkResult (get (fst entry) "name") false (get (fst entry) "critical")]
  | Hooks.Hangs => []
  end.

(** *** Resolved configurations *)

Definition is_bool (v : JsVal) : Prop := exists b, v = JBool b.

Definition check_name (c : JsVal) : JsVal := get c "name".

(** No two entries of a [checks] list carry the same name. *)
Definition unique_names (l : list JsVal) : Prop :=
  forall i j ci cj, i <> j -> l !! i = Some ci -> l !! j = Some cj ->
    strict_equals (check_name ci) (check_name cj) = false.

Definition enabled_resolved (cfg : JsVal) (section : string) : Prop :=
  is_bool (get (get cfg section) "enabled").

Definition checks_unique (cfg : JsVal) (section : string) : Prop :=
  exists l, get (get cfg section) "checks" = JArr l /\ unique_names l.

(** The invariant of an effective configuration. *)
Definition resolved (cfg : JsVal) : Prop :=
  enabled_resolved cfg "preCommit" /\ enabled_resolved cfg "prePush"
  /\ enabled_resolved cfg "commitMsg"
  /\ checks_unique cfg "preCommit" /\ checks_unique cfg "prePush".

(** *** Configuration layers that follow the schema *)

Definition non_nullish (v : JsVal) : Prop := is_nullish v = false.

Definition is_check_list (v : JsVal) : Prop :=
  exists l, v = JArr l /\ Forall non_nullish l.

(** A property of a hook section: [enabled] is a boolean and [checks] is a
    list of descriptors, where they are present. *)
Definition entry_ok (kv : string * JsVal) : Prop :=
  (fst kv = "enabled" -> is_bool (snd kv))
  /\ (fst kv = "checks" -> is_check_list (snd kv)).

Definition section_ok (s : JsVal) : Prop :=
  exists ps, s = JObj ps /\ Forall entry_ok ps.

Definition section_keys : list string :=
  [ "preCommitDefaults"; "prePushDefaults"; "commitMsgDefaults";
    "preCommit"; "prePush"; "commitMsg" ].

Definition top_ok (kv : string * JsVal) : Prop :=
  In (fst kv) section_keys -> section_ok (snd kv).

(** A layer (project overlay or caller-supplied overrides) in the strict
    form of the schema: any value; if it is an object, each hook section it
    holds is an object whose [enabled] and [checks] are as above. *)
Definition layer_ok (v : JsVal) : Prop :=
  match v with
  | JObj ps => Forall top_ok ps
  | _ => True
  end.

Definition modules_ok (modules : string -> HooksConfig.ConfigModule) : Prop :=
  forall projectType,
    match modules projectType with
    | HooksConfig.Exports config => layer_ok config
    | HooksConfig.ExportsFunction (Ok config) => layer_ok config
    | _ => True
    end.

End Spec.

(** ** Sample inputs *)

Module Samples.
Import Js.

Definition newline : string := String (ascii_of_nat 10) EmptyString.

(** A development machine, and a production build. *)
Definition dev : ProcessEnv :=
  MkEnv None None None None None None None "/work/app" "2025-01-01T00:00:00.000Z".

Definition production : ProcessEnv :=
  MkEnv None None (Some "production") None None None None "/work/app"
        "2025-01-01T00:00:00.000Z".

(** Check modules that do not touch the world: the named ones throw, the
    others resolve. *)
Definition failing (names : list string) (name : string) (w : unit)
    : Hooks.CheckOutcome * unit :=
  if mem_string name names then (Hooks.Fails "check failed", w)
  else (Hooks.Passes, w).

Definition A_critical : JsVal := CommonConfig.check3 "A" true true.
Definition A_optional : JsVal := CommonConfig.check3 "A" true false.
Definition B_critical : JsVal := CommonConfig.check3 "B" true true.

(** A repository on the given branch whose last commit has the given
    message. *)
Definition repo (branch message : string) : Hooks.Git :=
  Hooks.MkGit (Ok (branch +:+ newline)) (Ok (message +:+ newline)).

(** The configuration [getConfig] resolves, or [undefined] if it throws. *)
Definition resolvedConfig (e : ProcessEnv) (projectType : string)
    (userConfig : JsVal) : JsVal :=
  match HooksConfig.getConfig e HooksConfig.repo_modules projectType userConfig with
  | Ok config => config
  | Throw _ => JUndef
  end.

(** A pre-push section that is switched on, with a skip list and checks. *)
Definition pushConfig (skipBranches : list string) (checks : JsVal) : JsVal :=
  JObj [ ("prePush",
           JObj [ ("enabled", JBool true);
                  ("skipBranches", JArr (map JStr skipBranches));
                  ("checks", checks) ]) ].

(** Overrides that mean to switch [lint-staged] off. *)
Definition lintOff : JsVal :=
  JObj [ ("preCommit",
           JObj [ ("checks", JArr [ CommonConfig.check3 "lint-staged" false false ]) ]) ].

(** Overrides whose [enabled] is not set to a boolean. *)
Definition enabledUnset : JsVal :=
  JObj [ ("preCommit", JObj [ ("enabled", JUndef) ]) ].

(** A heap with two configuration objects, at 2 and at 5, that share the
    descriptor at 0 and the object at 6. *)
Definition heap0 : Heap.heap :=
  [ Heap.CObj [("name", Heap.VStr "lint")];
    Heap.CArr [Heap.VRef 0];
    Heap.CObj [("checks", Heap.VRef 1); ("timeout", Heap.VNum 10000);
               ("options", Heap.VRef 6)];
    Heap.CObj [("name", Heap.VStr "lint"); ("enabled", Heap.VBool false)];
    Heap.CArr [Heap.VRef 3; Heap.VStr "main"; Heap.VRef 6];
    Heap.CObj [("checks", Heap.VRef 4); ("options", Heap.VRef 6);
               ("extra", Heap.VRef 0)];
    Heap.CObj [("fix", Heap.VBool true)] ].

End Samples.

(** ** hooks/commit-msg.js: the validation pipeline *)

Module Validator.
Import Js.

(** A number as the comparisons of the pipeline see it: an integer,
    [Infinity] or [NaN]. *)
Inductive Number : Type :=
| NFin (z : Z)
| NInf
| NNaN.

(** [n < v] and [n > v] for an integer [n]; a comparison with [NaN] is
    false. *)
Definition lt_number (n : Z) (v : Number) : bool :=
  match v with
  | NFin m => (n <? m)%Z
  | NInf => true
  | NNaN => false
  end.

Definition gt_number (n : Z) (v : Number) : bool :=
  match v with
  | NFin m => (m <? n)%Z
  | NInf => false
  | NNaN => false
  end.

(** The message without its comment lines: [split], [filter], [join],
    [trim]. *)
Fixpoint split_lines (cs acc : list ascii) : list (list ascii) :=
  match cs with
  | [] => [rev acc]
  | c :: cs' =>
      if Ascii.eqb c (ascii_of_nat 10) then rev acc :: split_lines cs' []
      else split_lines cs' (c :: acc)
  end.

Definition is_comment_line (line : list ascii) : bool :=
  starts_with (chars "#") (chars (trim (string_of_list_ascii line))).

Fixpoint join_lines (lines : list (list ascii)) : list ascii :=
  match lines with
  | [] => []
  | [l] => l
  | l :: rest => l ++ ascii_of_nat 10 :: join_lines rest
  end.

Definition stripComments (rawCommitMsg : string) : string :=
  trim (string_of_list_ascii
          (join_lines
             (List.filter (fun line => negb (is_comment_line line))
                          (split_lines (chars rawCommitMsg) [])))).

(** The emoji pattern of the last check, on code units: a dingbat, two
    regional indicators in a row, or a surrogate pair.  (The strings of the
    model hold code units below 256, none of which the pattern matches.) *)
Definition in_range (lo hi n : Z) : bool := (lo <=? n)%Z && (n <=? hi)%Z.

Fixpoint has_emoji_units (units : list Z) : bool :=
  match units with
  | [] => false
  | a :: rest =>
      in_range 9984 10175 a
      || match rest with
         | b :: c :: d :: _ =>
             (a =? 55356)%Z && in_range 56806 56831 b
             && (c =? 55356)%Z && in_range 56806 56831 d
         | _ => false
         end
      || match rest with
         | b :: _ => in_range 55296 56319 a && in_range 56320 57343 b
         | [] => false
         end
      || has_emoji_units rest
  end.

Definition has_emoji (s : string) : bool :=
  has_emoji_units (map (fun c => Z.of_nat (nat_of_ascii c)) (chars s)).

(** What the hook reports first before it returns; every constructor is one
    of its messages.  (After [BadFormat] and [BadType] the hook prints hints,
    and an exception in printing them ends in the [catch] block, with the
    same return value.) *)
Inductive Verdict : Type :=
| Disabled                 (* the check is switched off *)
| SkippedInCI
| NoFileArgument
| EmptyMessage
| SpecialCommit
| TooShort
| TooLong
| BadFormat
| BadType
| ScopeRequired
| BadScope
| EmojiFound
| Failed (message : string)   (* an exception caught by the [catch] block *)
| Valid (parsed : CommitMsg.Parsed).

(** The value the function returns after the report. *)
Definition accepted (v : Verdict) : bool :=
  match v with
  | Disabled | SkippedInCI | SpecialCommit | Valid _ => true
  | _ => false
  end.

Section WithEngine.

(** [new RegExp(source, flags)], the conversion to a number of a value
    that is a string, an object or a function, and the arity of a function
    met as a configuration value. *)
Variable RegExp_new : string -> string -> Res RegExp.
Variable ToNumber_other : JsVal -> Number.
Variable function_length : Z.

(** [allowed.length]: the length of an array or a string, the arity of a
    function, and for any other value the property of that name, if it has
    one. *)
Definition js_length (allowed : JsVal) : JsVal :=
  match allowed with
  | JArr l => JNum (Z.of_nat (length l))
  | JStr s => JNum (Z.of_nat (String.length s))
  | JNative => JNum function_length
  | _ => get allowed "length"
  end.

(** [allowed.includes(x)] for a primitive [x]: membership in an array, a
    substring test on a string, and a [TypeError] on a value without the
    method. *)
Definition includes (allowed x : JsVal) : Res bool :=
  match allowed with
  | JArr l => Ok (existsb (strict_equals x) l)
  | JStr s => Ok (Hooks.is_substring (chars (Hooks.template x)) (chars s))
  | _ => Throw "TypeError: includes is not a function"
  end.

(** [!allowed || allowed.length === 0] *)
Definition no_list (allowed : JsVal) : bool :=
  negb (truthy allowed) || strict_equals (js_length allowed) (JNum 0).

Definition validateType (type allowedTypes : JsVal) : Res bool :=
  if no_list allowedTypes then Ok true
  else includes allowedTypes type.

Definition validateScope (scope allowedScopes : JsVal) : Res bool :=
  if no_list allowedScopes then Ok true
  else if negb (truthy scope) then Ok false
  else includes allowedScopes scope.

(** The conversion of the right operand of [<] and [>] to a number. *)
Definition to_number (v : JsVal) : Number :=
  match v with
  | JNum z => NFin z
  | JBool b => NFin (if b then 1 else 0)
  | JNull => NFin 0
  | JUndef => NNaN
  | _ => ToNumber_other v
  end.

(** The pattern is tested from the start of the message, as it is for a
    [RegExp] that has not been used before; the sticky flag is not
    modelled. *)
Definition isSpecialCommit (commitMessage : string) (config : JsVal) : Res bool :=
  let message := trim commitMessage in
  do autoSkipPattern <- member config "autoSkipPattern";
  do skipped <-
    (if truthy autoSkipPattern then
       do skipPattern <- CommitMsg.parsePattern RegExp_new autoSkipPattern;
       Ok (RegExpOps.test skipPattern message)
     else Ok false);
  if skipped then Ok true
  else if starts_with (chars "Merge ") (chars message)
          && HooksConfig.not_false (get config "allowMerge") then Ok true
  else if starts_with (chars "Revert ") (chars message)
          && HooksConfig.not_false (get config "allowRevert") then Ok true
  else if Hooks.is_substring (chars "squash") (chars message)
          && HooksConfig.not_false (get config "allowSquash") then Ok true
  else Ok false.

(** The body of the [try] block, for the message [commitMsg] that is left of
    the file. *)
Definition checkMessage (commitMsgConfig : JsVal) (commitMsg : string)
    : Res Verdict :=
  if negb (truthy (JStr commitMsg)) then Ok EmptyMessage
  else
    do special <- isSpecialCommit commitMsg commitMsgConfig;
    if special then Ok SpecialCommit
    else
      let minLength :=
        if truthy (get commitMsgConfig "minLength")
        then to_number (get commitMsgConfig "minLength") else NFin 0 in
      let maxLength :=
        if truthy (get commitMsgConfig "maxLength")
        then to_number (get commitMsgConfig "maxLength") else NInf in
      let len := Z.of_nat (String.length commitMsg) in
      if lt_number len minLength then Ok TooShort
      else if gt_number len maxLength then Ok TooLong
      else
        do pattern <- CommitMsg.parsePattern RegExp_new (get commitMsgConfig "pattern");
        match CommitMsg.parseCommitMessage commitMsg pattern with
        | None => Ok BadFormat
        | Some parsed =>
            do typeOk <- validateType (CommitMsg.p_type parsed)
                                      (get commitMsgConfig "types");
            if negb typeOk then Ok BadType
            else if truthy (get commitMsgConfig "requireScope")
                    && negb (truthy (CommitMsg.p_scope parsed)) then Ok ScopeRequired
            else
              do scopeOk <- validateScope (CommitMsg.p_scope parsed)
                                          (get commitMsgConfig "scopes");
              if negb scopeOk then Ok BadScope
              else if strict_equals (get commitMsgConfig "allowEmoji") (JBool false)
                      && has_emoji commitMsg then Ok EmojiFound
              else Ok (Valid parsed)
        end.

(** [validateCommitMessage]: [ci] is [process.env.CI], [argv2] the argument
    of the process, [readFile] the file system.  An exception inside the
    [try] block ends in the [catch] block, which reports it. *)
Definition validate (config : JsVal) (ci : option string) (argv2 : option string)
    (readFile : string -> Res string) : Res Verdict :=
  do general <- member config "general";
  do commitMsgConfig <- member config "commitMsg";
  if negb (truthy (opt_member commitMsgConfig "enabled")) then Ok Disabled
  else if truthy (opt_member general "skipCI") && env_is ci "true"
  then Ok SkippedInCI
  else
    match argv2 with
    | None => Ok NoFileArgument
    | Some commitMsgFile =>
        if negb (truthy (JStr commitMsgFile)) then Ok NoFileArgument
        else
          match (do rawCommitMsg <- readFile commitMsgFile;
                 checkMessage commitMsgConfig (stripComments rawCommitMsg)) with
          | Ok verdict => Ok verdict
          | Throw e => Ok (Failed e)
          end
    end.

Definition validateCommitMessage (config : JsVal) (ci : option string)
    (argv2 : option string) (readFile : string -> Res string) : Res bool :=
  do verdict <- validate config ci argv2 readFile;
  Ok (accepted verdict).

End WithEngine.

End Validator.

(** ** scripts/utils/config-loader.js: loading, fallback and cache *)

Module Loader.
Import Js.

(** A function that a configuration module exports, applied to the project
    type. *)
Definition ConfigFunction : Type := string -> Res JsVal.

(** What [require(configPath)] evaluates to, as [loadConfigWithFallback]
    tells the cases apart. *)
Inductive Exported : Type :=
| ExportsFunction (f : ConfigFunction)     (* [typeof hooksConfig === "function"] *)
| ExportsObject (default getConfig : option ConfigFunction)
                                           (* the members that are functions *)
| ExportsNullish.                          (* reading [.default] throws *)

(** The module [configs/hooks-config.js] of the repository: the function
    [getConfig], which is also its own [default]. *)
Definition hooks_config_js (e : ProcessEnv)
    (modules : string -> HooksConfig.ConfigModule) : Exported :=
  ExportsFunction (fun projectType =>
                     HooksConfig.getConfig e modules projectType JUndef).

(** The files the loader touches. *)
Record Files : Type := MkFiles {
  f_root : ConfigLoader.ProjectRoot;     (* [projectRoot], as detection reads it *)
  f_exists : string -> bool;             (* [fs.existsSync] *)
  f_require : string -> Res Exported;    (* [require] after the cache entry is deleted *)
  f_writable : string -> bool            (* [fs.writeFileSync] succeeds *)
}.

(** An absolute path from its segments, and [path.join(dir, "..", "..")]. *)
Definition render (segments : list string) : string :=
  "/" +:+ join "/" segments.

Definition up (segments : list string) : list string := removelast segments.

(** [findConfigPath]: [dirname] holds the segments of [__dirname]. *)
Definition possiblePaths (dirname : list string) (projectRoot : string)
    : list string :=
  [ render (up (up dirname) ++ ["configs"; "hooks-config.js"]);
    HooksConfig.path_join projectRoot ".husky/configs/hooks-config.js";
    HooksConfig.path_join projectRoot "configs/hooks-config.js";
    render (up (up (up dirname)) ++ ["configs"; "hooks-config.js"]) ].

Definition findConfigPath (dirname : list string) (projectRoot : string)
    (files : Files) : option string :=
  List.find (f_exists files) (possiblePaths dirname projectRoot).

Section WithTexts.

(** The three example messages of the fallback configuration, texts in
    Cyrillic letters, which the strings of the model do not hold. *)
Variable examples : JsVal.

(** [projectRoot] is the field of the loader, the working directory at the
    time the loader was created.  The two patterns are
    [/^wip:|^fixup!|^squash!|^draft:/i] and the conventional pattern without
    flags, as the fallback configuration writes them. *)
Definition getDefaultConfig (e : ProcessEnv) (projectRoot : string)
    (projectType : string) : JsVal :=
  JObj
    [ ("meta",
        JObj [ ("projectType", JStr projectType);
               ("environment", or_else (env_val (env_NODE_ENV e)) (JStr "development"));
               ("configVersion", JStr "1.0.0");
               ("generatedAt", JStr (env_now e));
               ("isDefault", JBool true) ]);
      ("general",
        JObj [ ("projectRoot", JStr projectRoot);
               ("projectType", JStr projectType);
               ("skipCI", JBool (env_is (env_CI e) "true"));
               ("verbose", JBool (env_is (env_HUSKY_VERBOSE e) "true"));
               ("configPath", JStr ".husky-config.json") ]);
      ("preCommit",
        JObj [ ("enabled", JBool true);
               ("checks", JArr [ CommonConfig.check3 "lint-staged" true true;
                                 CommonConfig.check3 "typescript" true true ]);
               ("timeout", JNum 10000);
               ("skipPattern", JRegExp CommonConfig.skipPattern) ]);
      ("prePush",
        JObj [ ("enabled", JBool true);
               ("checks", JArr [ CommonConfig.check3 "build" true true ]);
               ("timeout", JNum 120000);
               ("skipBranches", JArr [ JStr "main"; JStr "master"; JStr "develop" ]) ]);
      ("commitMsg",
        JObj [ ("enabled", JBool true);
               ("pattern", JRegExp CommonConfig.commitPattern);
               ("minLength", JNum 10);
               ("maxLength", JNum 100);
               ("examples", examples) ]) ].

(** The call of what the module exports; an export in no known format is
    [None]. *)
Definition callExported (hooksConfig : Exported) (projectType : string)
    : Res (option JsVal) :=
  match hooksConfig with
  | ExportsFunction f => do config <- f projectType; Ok (Some config)
  | ExportsObject (Some f) _ => do config <- f projectType; Ok (Some config)
  | ExportsObject None (Some f) => do config <- f projectType; Ok (Some config)
  | ExportsObject None None => Ok None
  | ExportsNullish =>
      Throw "TypeError: Cannot read properties of undefined, reading default"
  end.

Definition loadConfigWithFallback (e : ProcessEnv) (dirname : list string)
    (files : Files) (projectRoot : string) (projectType : string) : JsVal :=
  match findConfigPath dirname projectRoot files with
  | None => getDefaultConfig e projectRoot projectType
  | Some configPath =>
      match (do hooksConfig <- f_require files configPath;
             callExported hooksConfig projectType) with
      | Ok (Some config) => config
      | Ok None => getDefaultConfig e projectRoot projectType
      | Throw _ => getDefaultConfig e projectRoot projectType   (* the [catch] block *)
      end
  end.

(** The object [saveProjectConfig] writes to [.husky-config.json]. *)
Definition configInfo (e : ProcessEnv) (config : JsVal) (projectType : string)
    : Res JsVal :=
  do meta <- member config "meta";
  Ok (JObj
        [ ("version", JStr "1.0.0");
          ("projectType", JStr projectType);
          ("configType",
            JStr (if truthy (opt_member meta "isDefault") then "default" else "custom"));
          ("installed", JStr (env_now e));
          ("source", JStr "unified-husky-advanced");
          ("environment", or_else (env_val (env_NODE_ENV e)) (JStr "development"));
          ("hooks",
            JObj [ ("preCommit",
                     or_else (opt_member (get config "preCommit") "enabled") (JBool false));
                   ("prePush",
                     or_else (opt_member (get config "prePush") "enabled") (JBool false));
                   ("commitMsg",
                     or_else (opt_member (get config "commitMsg") "enabled") (JBool false)) ]) ]).

(** The files written, each with the value whose JSON text it holds.  An
    exception in [saveProjectConfig] is caught and logged. *)
Definition saveProjectConfig (e : ProcessEnv) (files : Files)
    (projectRoot : string) (config : JsVal) (projectType : string)
    : list (string * JsVal) :=
  let configPath := HooksConfig.path_join projectRoot ".husky-config.json" in
  match configInfo e config projectType with
  | Ok info => if f_writable files configPath then [(configPath, info)] else []
  | Throw _ => []
  end.

(** The fields [config], [isConfigLoaded] and [projectRoot] of the loader
    ([configPath] is never read). *)
Record Cache : Type := MkCache {
  c_config : JsVal;
  c_isConfigLoaded : bool;
  c_projectRoot : string
}.

(** The constructor, in the working directory [cwd]. *)
Definition create (cwd : string) : Cache := MkCache JNull false cwd.

Definition clearCache (st : Cache) : Cache :=
  MkCache JNull false (c_projectRoot st).

(** [loadConfig]: the value returned or the exception thrown, the fields
    afterwards, and the files written. *)
Definition loadConfig (e : ProcessEnv) (dirname : list string) (files : Files)
    (st : Cache) : Res JsVal * Cache * list (string * JsVal) :=
  if c_isConfigLoaded st && truthy (c_config st) then (Ok (c_config st), st, [])
  else
    match ConfigLoader.detectProjectType (f_root files) with
    | Throw err => (Throw err, st, [])
    | Ok projectType =>
        let projectRoot := c_projectRoot st in
        let config :=
          loadConfigWithFallback e dirname files projectRoot projectType in
        let written := saveProjectConfig e files projectRoot config projectType in
        let st' := MkCache config true projectRoot in
        match member config "meta" with
        | Throw err => (Throw err, st', written)
        | Ok _ => (Ok config, st', written)
        end
    end.

Definition getConfig := loadConfig.

End WithTexts.

End Loader.

(** ** install.js: the installer *)

Module Installer.
Import Js.

(** [/^next\.config\.(js|ts|mjs)$/.test(f)] and the same for [vite]. *)
Definition is_next_config (f : string) : bool :=
  mem_string f [ "next.config.js"; "next.config.ts"; "next.config.mjs" ].

Definition is_vite_config (f : string) : bool :=
  mem_string f [ "vite.config.js"; "vite.config.ts"; "vite.config.mjs" ].

Definition detectProjectType (readdir : Res (list string)) : Res string :=
  do files <- readdir;
  if existsb is_next_config files then Ok "nextjs"
  else if existsb is_vite_config files then Ok "vite"
  else Ok "common".

Definition minimalPkg : JsVal :=
  JObj [ ("name", JStr "my-project"); ("version", JStr "1.0.0");
         ("scripts", JObj []); ("devDependencies", JObj []) ].

Definition lintStaged : JsVal :=
  JObj [ ("**/*.{js,jsx,ts,tsx}",
           JArr [ JStr "prettier --write"; JStr "eslint --fix --max-warnings=0" ]);
         ("**/*.{css,scss}", JArr [ JStr "prettier --write" ]);
         ("**/*.{md,json}", JArr [ JStr "prettier --write" ]) ].

(** The two assignments of [setupPackageJson] on the parsed manifest.  The
    method is class code, hence strict: on a manifest that is a number, a
    string or a boolean the first assignment throws.  On an array the
    assignments add properties that [JSON.stringify] leaves out. *)
Definition configure (pkg : JsVal) : Res JsVal :=
  do scripts <- member pkg "scripts";
  match pkg with
  | JObj ps =>
      Ok (JObj
            (set_prop "lint-staged" lintStaged
               (set_prop "scripts"
                  (JObj (set_prop "prepare" (JStr "husky install")
                           (assign_all [] (own_enumerable scripts))))
                  ps)))
  | JBool _ | JNum _ | JStr _ =>
      Throw "TypeError: Cannot create property scripts on a primitive value"
  | _ => Ok pkg
  end.

(** [setupPackageJson]: the value whose JSON text is written to
    [package.json]; a missing file is created with [minimalPkg] first. *)
Definition setupPackageJson (manifest : ConfigLoader.Manifest) : Res JsVal :=
  match manifest with
  | ConfigLoader.NoManifest => configure minimalPkg
  | ConfigLoader.Unreadable => Throw "EACCES: permission denied, open package.json"
  | ConfigLoader.Malformed => Throw "SyntaxError: Unexpected token in JSON"
  | ConfigLoader.Parsed pkg => configure pkg
  end.

(** *** setupHusky

    The disk is the set of paths that exist; different paths name
    different files (no links).  What the command [npx husky init] does to
    it is not in the source, so it is a parameter, as is the answer of the
    operating system to each attempt to create or change a path.  Paths are
    joined as [path.join] joins normalized segments. *)
Definition Disk : Type := list string.

Definition existsSync (p : string) (d : Disk) : bool := mem_string p d.

Inductive Operation : Type := Mkdir | Copy | Write | Chmod.

(** [path.basename(p)] for a path that does not end in a separator. *)
Fixpoint after_last_slash (cs acc : list ascii) : list ascii :=
  match cs with
  | [] => rev acc
  | c :: cs' =>
      if Ascii.eqb c "/"%char then after_last_slash cs' []
      else after_last_slash cs' (c :: acc)
  end.

Definition basename (p : string) : string :=
  string_of_list_ascii (after_last_slash (chars p) []).

Definition hooks : list string := [ "pre-commit.js"; "commit-msg.js"; "pre-push.js" ].

Definition scriptFiles : list string :=
  [ "utils/config-loader.js"; "utils/logger.js"; "checks/typescript.js";
    "checks/lint-staged.js"; "checks/build.js"; "checks/security.js" ].

Section WithSystem.

Variable projectRoot : string.      (* [process.cwd()] *)
Variable dirname : string.          (* [__dirname] of install.js *)
Variable permitted : Operation -> string -> Disk -> bool.
Variable husky_init : Disk -> Res Disk.

(** [mkdirSync], [copyFileSync] and [writeFileSync]: the path exists
    afterwards, or the call throws.  ([mkdirSync] is called on directories
    whose parent exists.) *)
Definition create (op : Operation) (p : string) (d : Disk) : Res Disk :=
  if permitted op p d then Ok (p :: d)
  else Throw "EACCES: permission denied".

Definition chmodSync (p : string) (d : Disk) : Res Disk :=
  if existsSync p d && permitted Chmod p d then Ok d
  else Throw "ENOENT: no such file or directory, chmod".

(** [copyFile(sourcePath, targetDir, baseDir)]; the directory of the target
    is [targetDir]. *)
Definition copyFile (sourcePath targetDir baseDir : string) (d : Disk)
    : bool * Disk :=
  let source :=
    HooksConfig.path_join (HooksConfig.path_join dirname baseDir) sourcePath in
  let target := HooksConfig.path_join targetDir (basename sourcePath) in
  if negb (existsSync source d) then (false, d)
  else
    match (if negb (existsSync targetDir d) then create Mkdir targetDir d
           else Ok d) with
    | Throw _ => (false, d)
    | Ok d1 =>
        match create Copy target d1 with
        | Ok d2 => (true, d2)
        | Throw _ => (false, d1)
        end
    end.

(** One round of [hooks.forEach]: the count of hooks copied and the disk. *)
Definition installHook (huskyDir : string) (st : nat * Disk) (hookFile : string)
    : nat * Disk :=
  let (copied, d1) := copyFile hookFile huskyDir "hooks" (snd st) in
  if copied then
    let target :=
      HooksConfig.path_join huskyDir
        (string_of_list_ascii (remove_first (chars ".js") (chars hookFile))) in
    match chmodSync target d1 with
    | Ok d2 => (S (fst st), d2)
    | Throw _ => (fst st, d1)
    end
  else (fst st, d1).

Fixpoint ensureDirs (dirs : list string) (d : Disk) : Res Disk :=
  match dirs with
  | [] => Ok d
  | dir :: rest =>
      if negb (existsSync dir d)
      then do d1 <- create Mkdir dir d; ensureDirs rest d1
      else ensureDirs rest d
  end.

Definition copyScript (scriptsDir : string) (st : nat * Disk) (filePath : string)
    : nat * Disk :=
  let (copied, d1) := copyFile filePath scriptsDir "scripts" (snd st) in
  (if copied then S (fst st) else fst st, d1).

Definition criticalFiles : list string :=
  let scriptsDir :=
    HooksConfig.path_join (HooksConfig.path_join projectRoot ".husky") "scripts" in
  [ HooksConfig.path_join (HooksConfig.path_join scriptsDir "utils") "config-loader.js";
    HooksConfig.path_join (HooksConfig.path_join scriptsDir "utils") "logger.js" ].

Definition setupHusky (d : Disk) : Res Disk :=
  do d1 <- husky_init d;
  let huskyDir := HooksConfig.path_join projectRoot ".husky" in
  if negb (existsSync huskyDir d1)
  then Throw "Husky initialization failed - no .husky directory"
  else
    let d2 := snd (fold_left (installHook huskyDir) hooks (0, d1)) in
    let configsDir := HooksConfig.path_join huskyDir "configs" in
    let scriptsDir := HooksConfig.path_join huskyDir "scripts" in
    do d3 <- ensureDirs [configsDir; scriptsDir] d2;
    let (configCopied, d4) := copyFile "hooks-config.js" configsDir "configs" d3 in
    do d5 <- (if negb configCopied
              then create Write (HooksConfig.path_join configsDir "hooks-config.js") d4
              else Ok d4);
    let d6 := snd (fold_left (copyScript scriptsDir) scriptFiles (0, d5)) in
    let missingCritical :=
      List.filter (fun file => negb (existsSync file d6)) criticalFiles in
    if (0 <? length missingCritical)%nat then Throw "Missing critical files"
    else Ok d6.

End WithSystem.

End Installer.

(** ** configs/common.config.js: utils *)

Module CommonUtils.
Import Js.

Definition getEnvironment (e : ProcessEnv) : string :=
  if env_is (env_CI e) "true" || env_is (env_GITHUB_ACTIONS e) "true" then "ci"
  else if env_is (env_NODE_ENV e) "production" then "production"
  else "development".

End CommonUtils.

Import Js.

(** ** Notions used in the proofs *)

(** The project types detection can return. *)
Definition known_types : list string := ["nextjs"; "vite"; "react"; "common"].

(** A section that has an [enabled] property. *)
Definition has_enabled (s : JsVal) : Prop :=
  exists ps, s = JObj ps /\ is_Some (lookup_prop "enabled" ps).

Definition defaults_keys : list string :=
  [ "preCommitDefaults"; "prePushDefaults"; "commitMsgDefaults" ].

(** What holds of the object every merge step leaves: the six hook sections
    are there and follow the schema, and the three default sections have
    their [enabled]. *)
Definition props_ok (ps : Props) : Prop :=
  Forall Spec.top_ok ps
  /\ (forall k, In k Spec.section_keys -> is_Some (lookup_prop k ps))
  /\ (forall k s, In k defaults_keys -> lookup_prop k ps = Some s -> has_enabled s).

Definition merged_ok (m : JsVal) : Prop :=
  exists ps, m = JObj ps /\ props_ok ps.

(** The index [findIndex] returns, for a predicate that does not throw. *)
Fixpoint first_match (j : nat) (p : nat -> JsVal -> bool) (l : list JsVal)
    : option nat :=
  match l with
  | [] => None
  | c :: l' => if p j c then Some j else first_match (S j) p l'
  end.

Definition name_eq (index : nat) (check : JsVal) (j : nat) (c : JsVal) : bool :=
  (j =? index)%nat || strict_equals (Spec.check_name c) (Spec.check_name check).

(** Names differ pairwise, first entry against the later ones. *)
Definition differ (a b : JsVal) : Prop :=
  strict_equals (Spec.check_name a) (Spec.check_name b) = false.

(** [reach h v w]: [w] is held somewhere inside [v]. *)
Inductive reach (h : Heap.heap) : Heap.val -> Heap.val -> Prop :=
| reach_child l c x :
    h !! l = Some c -> In x (Heap.children c) -> reach h (Heap.VRef l) x
| reach_more l c x y :
    h !! l = Some c -> In x (Heap.children c) -> reach h x y ->
    reach h (Heap.VRef l) y.

(** A value that is a tree of some depth. *)
Definition is_tree (h : Heap.heap) (v : Heap.val) : Prop :=
  exists n, Heap.tree_le h n v.


(** Two items that [mergeArrays] files under one key of its [Map]. *)
Definition same_key (a b : JsVal) : bool :=
  strict_equals (HooksConfig.map_key a) (HooksConfig.map_key b).

(** The [Map] of [mergeArrays] after the items of [l]. *)
Definition merge_map (l : list JsVal) : list (JsVal * JsVal) :=
  fold_left (fun m item => HooksConfig.map_set (HooksConfig.map_key item) item m)
            l [].

(** Two entries of the [Map] whose keys differ. *)
Definition keys_differ (p q : JsVal * JsVal) : Prop :=
  strict_equals (fst p) (fst q) = false.

(** [item] is at some place of [l] with no item of the same key after it. *)
Definition last_of_key (item : JsVal) (l : list JsVal) : Prop :=
  exists pre post,
    l = pre ++ item :: post /\ Forall (fun x => same_key item x = false) post.

(** [check] is at some place of [l] with no entry of the same name before
    it. *)
Definition first_of_name (check : JsVal) (l : list JsVal) : Prop :=
  exists pre post,
    l = pre ++ check :: post /\ Forall (fun c => differ c check) pre.

(** The filter of [uniqueByName] as one pass over the list, [seen] being the
    names of the entries passed so far. *)
Fixpoint first_by_name (seen : list JsVal) (l : list JsVal) : list JsVal :=
  match l with
  | [] => []
  | check :: l' =>
      let tail := first_by_name (seen ++ [Spec.check_name check]) l' in
      if existsb (fun n => strict_equals n (Spec.check_name check)) seen
      then tail else check :: tail
  end.

(** An object of the model stands for an object of the program if its keys
    differ pairwise. *)
Definition distinct_keys (v : JsVal) : Prop :=
  match v with
  | JObj ps => List.NoDup (map fst ps)
  | _ => True
  end.

(** The hook sections of a merged configuration are such objects. *)
Definition sections_distinct (ps : Props) : Prop :=
  forall k s, In k Spec.section_keys -> lookup_prop k ps = Some s -> distinct_keys s.

Definition merged_distinct (m : JsVal) : Prop :=
  exists ps, m = JObj ps /\ props_ok ps /\ sections_distinct ps.

(** The three sections a hook reads. *)
Definition hook_keys : list string := [ "preCommit"; "prePush"; "commitMsg" ].

(** The state a loop over the checks ends in. *)
Definition end_state {World} (r : Hooks.LoopEnd World) : Hooks.RunState World :=
  match r with
  | Hooks.Completed _ st | Hooks.Aborted _ st | Hooks.Stuck _ st => st
  end.

(** The entries of a [checks] value that are switched on. *)
Definition enabled_of (checks : JsVal) : list JsVal :=
  match checks with
  | JArr l => List.filter (fun check => truthy (get check "enabled")) l
  | _ => []
  end.

(** The messages that the commit-msg hook lets pass under the configuration
    of the repository: a message that is not empty and is a merge or a
    revert, or has 10 to 100 characters and matches the commit pattern. *)
Definition passes_defaults (m : string) : bool :=
  negb (String.eqb m "")
  && (starts_with (chars "Merge ") (chars m)
      || starts_with (chars "Revert ") (chars m)
      || ((10 <=? Z.of_nat (String.length m))%Z
          && (Z.of_nat (String.length m) <=? 100)%Z
          && RegExpOps.test CommonConfig.commitPattern m)).

(** Sample inputs of the commit-msg hook: an engine that compiles no pattern,
    a conversion that gives [NaN], a message file as git writes it, and a
    configuration with the defaults of the base configuration. *)
Definition no_engine (source flags : string) : Res RegExp :=
  Throw "SyntaxError: Invalid regular expression".

Definition nan_of (v : JsVal) : Validator.Number := Validator.NNaN.

Definition message_file (path : string) : Res string :=
  Ok ("feat(button): add variant" +:+ Samples.newline
      +:+ "# Please enter the commit message for your changes.").

Definition commit_config : JsVal :=
  JObj [ ("general", JObj []);
         ("commitMsg", get (CommonConfig.config Samples.dev) "commitMsgDefaults") ].

(** Sample inputs of the loader: a checkout in which the hooks are
    installed, and one whose root cannot be listed. *)
Definition installed_dirname : list string :=
  [ "work"; "app"; ".husky"; "scripts"; "utils" ].

Definition installed_files : Loader.Files :=
  Loader.MkFiles
    (ConfigLoader.MkRoot (Ok [ "package.json"; "vite.config.ts" ])
                         ConfigLoader.NoManifest)
    (fun path => String.eqb path "/work/app/.husky/configs/hooks-config.js")
    (fun path => Ok (Loader.hooks_config_js Samples.dev HooksConfig.repo_modules))
    (fun path => true).

Definition unreadable_files : Loader.Files :=
  Loader.MkFiles
    (ConfigLoader.MkRoot (Throw "EACCES: permission denied, scandir")
                         ConfigLoader.Unreadable)
    (fun path => false)
    (fun path => Throw "Cannot find module")
    (fun path => false).

(** A run of [npx husky init] on a project that holds the two files the
    installer requires at its end. *)
Definition prepared_init (d : Installer.Disk) : Res Installer.Disk :=
  Ok ("/work/app/.husky" :: Installer.criticalFiles "/work/app" ++ d).

(** A text without a line terminator, which is what [.*] can run over. *)
Definition no_break (cs : list ascii) : bool :=
  forallb (fun c => negb (Regex.is_line_terminator c)) cs.

(** [.*$] *)
Definition any_to_end : Regex.re :=
  Regex.RSeq (Regex.RStar true (Regex.RChar Regex.CAny)) Regex.REol.

(** The characters of a branch pattern that stand for themselves in a
    regular expression: letters, digits, slash, dash and underscore. *)
Definition is_plain (c : ascii) : bool :=
  let n := nat_of_ascii c in
  ((48 <=? n)%nat && (n <=? 57)%nat) || ((65 <=? n)%nat && (n <=? 90)%nat)
  || ((97 <=? n)%nat && (n <=? 122)%nat)
  || (n =? 47)%nat || (n =? 45)%nat || (n =? 95)%nat.


(** *** Runs of the checks *)

(** A check that settles without ending the run: it passes, or it fails
    while it is not flagged critical. *)
Definition goes_on (check : JsVal) (outcome : Hooks.CheckOutcome) : Prop :=
  match outcome with
  | Hooks.Passes => True
  | Hooks.Fails _ => truthy (get check "critical") = false
  | Hooks.Hangs => False
  end.

(** The answer of a run that ends with a check flagged critical: [true] if
    the check passed, [false] if it threw; if it never settles, neither does
    the run. *)
Definition verdict (outcome : Hooks.CheckOutcome) : Hooks.Outcome :=
  match outcome with
  | Hooks.Passes => Hooks.Returns (JBool true)
  | Hooks.Fails _ => Hooks.Returns (JBool false)
  | Hooks.Hangs => Hooks.NeverSettles
  end.

(** *** The schema of a configuration layer *)

(** A property of a hook section as the schema has it: its name is not
    [__proto__], [enabled] is a boolean and [checks] a list of descriptors
    none of which is [null] or [undefined]. *)
Definition plain_entry (kv : string * JsVal) : Prop :=
  fst kv <> "__proto__" /\ Spec.entry_ok kv.

(** A hook section of a layer: if it is an object with properties, each
    of them is as above.  Any other value is taken as it is. *)
Definition schema_section (s : JsVal) : Prop :=
  match s with
  | JObj ps => Forall plain_entry ps
  | _ => True
  end.

(** A property of a layer: a defaults section is an object in the sense
    of [isObject] (not [null], not an array, not a primitive value). *)
Definition schema_top (kv : string * JsVal) : Prop :=
  (In (fst kv) defaults_keys ->
     HooksConfig.isObject (snd kv) = true /\ schema_section (snd kv))
  /\ (In (fst kv) hook_keys -> schema_section (snd kv)).

(** A layer (project overlay or caller-supplied overrides) that follows the
    schema: any value; if it is an object, the hook sections it holds are
    as above. *)
Definition follows_schema (layer : JsVal) : Prop :=
  match layer with
  | JObj ps => Forall schema_top ps
  | _ => True
  end.

(** What holds of a section [preCommit], [prePush] or [commitMsg] after
    every merge step, and of the merged object as a whole. *)
Definition merged_section (s : JsVal) : Prop :=
  match s with
  | JObj ps => Forall Spec.entry_ok ps
  | _ => True
  end.

Definition loose_props (ps : Props) : Prop :=
  (forall k, In k defaults_keys ->
     exists s, lookup_prop k ps = Some s /\ Spec.section_ok s /\ has_enabled s)
  /\ (forall k, In k hook_keys ->
        exists s, lookup_prop k ps = Some s /\ merged_section s).

Definition loose_ok (m : JsVal) : Prop :=
  exists ps, m = JObj ps /\ loose_props ps.

(** *** The texts of a regular expression *)

(** [matches icase r pos w rest]: the text [w], met at offset [pos] of a
    subject and followed there by [rest], is a text of the expression [r].
    A round of a star takes at least one character. *)
Inductive matches (icase : bool)
    : Regex.re -> nat -> list ascii -> list ascii -> Prop :=
| matches_empty pos rest : matches icase Regex.REmpty pos [] rest
| matches_char c a pos rest :
    Regex.cls_matches icase c a = true ->
    matches icase (Regex.RChar c) pos [a] rest
| matches_seq r1 r2 pos w1 w2 rest :
    matches icase r1 pos w1 (w2 ++ rest) ->
    matches icase r2 (pos + length w1) w2 rest ->
    matches icase (Regex.RSeq r1 r2) pos (w1 ++ w2) rest
| matches_alt_l r1 r2 pos w rest :
    matches icase r1 pos w rest -> matches icase (Regex.RAlt r1 r2) pos w rest
| matches_alt_r r1 r2 pos w rest :
    matches icase r2 pos w rest -> matches icase (Regex.RAlt r1 r2) pos w rest
| matches_star_end g r pos rest : matches icase (Regex.RStar g r) pos [] rest
| matches_star_more g r pos w1 w2 rest :
    w1 <> [] ->
    matches icase r pos w1 (w2 ++ rest) ->
    matches icase (Regex.RStar g r) (pos + length w1) w2 rest ->
    matches icase (Regex.RStar g r) pos (w1 ++ w2) rest
| matches_group n r pos w rest :
    matches icase r pos w rest -> matches icase (Regex.RGroup n r) pos w rest
| matches_bol rest : matches icase Regex.RBol 0 [] rest
| matches_eol pos : matches icase Regex.REol pos [] [].

(** The loop of [Regex.run] at a star, as a function of its own. *)
Definition star_loop {R : Type}
    (step : list ascii -> nat -> Regex.caps ->
            (list ascii -> nat -> Regex.caps -> option R) -> option R)
    (greedy : bool) (k : list ascii -> nat -> Regex.caps -> option R)
    : nat -> list ascii -> nat -> Regex.caps -> option R :=
  fix loop (fuel : nat) (s : list ascii) (pos : nat) (cs : Regex.caps)
      {struct fuel} : option R :=
    match fuel with
    | O => k s pos cs
    | S fuel' =>
        let again :=
          step s pos cs
            (fun s1 p1 c1 =>
               if (pos <? p1)%nat then loop fuel' s1 p1 c1 else None) in
        if greedy then
          match again with
          | Some x => Some x
          | None => k s pos cs
          end
        else
          match k s pos cs with
          | Some x => Some x
          | None => again
          end
    end.

(** *** Conventional subjects

    What the specification says of the built-in pattern: one of the eleven
    prefixes, an optional scope between parentheses, a colon, a space, then
    free text. *)

(** A capital letter A-Z as its small letter. *)
Definition lower (c : ascii) : ascii :=
  let n := nat_of_ascii c in
  if (65 <=? n)%nat && (n <=? 90)%nat then ascii_of_nat (n + 32) else c.

Definition on_one_line (cs : list ascii) : Prop :=
  Forall (fun c => Regex.is_line_terminator c = false) cs.

Definition conventional_types : list string :=
  [ "feat"; "fix"; "docs"; "style"; "refactor"; "test"; "chore"; "perf";
    "build"; "ci"; "revert" ].

(** The message begins with a type in letters of either case; then, or
    not, a scope of one character or more, none of them a line terminator,
    between parentheses; then a colon, a space and one character more that
    is no line terminator. *)
Definition conventional_subject (message : string) : Prop :=
  exists type scope c rest,
    chars message = type ++ scope ++ chars ": " ++ c :: rest
    /\ (exists t, In t conventional_types /\ map lower type = chars t)
    /\ (scope = []
        \/ exists inner, inner <> [] /\ on_one_line inner
                         /\ scope = chars "(" ++ inner ++ chars ")")
    /\ Regex.is_line_terminator c = false.
(** * Properties *)

(** ** The matcher and the texts of an expression *)

Section MatcherFacts.

Variable R : Type.
Variable icase : bool.

Local Abbreviation cont := (list ascii -> nat -> Regex.caps -> option R).

Lemma run_star (g : bool) (r1 : Regex.re) (s : list ascii) (pos : nat)
    (cs : Regex.caps) (k : cont) :
  Regex.run (Regex.RStar g r1) icase s pos cs k
  = star_loop (fun s pos cs k' => Regex.run r1 icase s pos cs k') g k
      (S (length s)) s pos cs.
Proof. reflexivity. Qed.

Lemma star_loop_S (step : list ascii -> nat -> Regex.caps -> cont -> option R)
    (g : bool) (k : cont) (fuel : nat) (s : list ascii) (pos : nat)
    (cs : Regex.caps) :
  is_Some (star_loop step g k (S fuel) s pos cs)
  <-> is_Some (step s pos cs
                 (fun s1 p1 c1 =>
                    if (pos <? p1)%nat then star_loop step g k fuel s1 p1 c1
                    else None))
      \/ is_Some (k s pos cs).
Proof.
  cbn [star_loop].
  destruct g;
    destruct (step s pos cs _) as [x|], (k s pos cs) as [y|]; split;
    intros H; eauto; try tauto;
    destruct H as [[? [=]]|[? [=]]].
Qed.

(** What the matcher finds is a text of the expression. *)
Lemma run_sound (r : Regex.re) :
  forall (s : list ascii) (pos : nat) (cs : Regex.caps) (k : cont),
    is_Some (Regex.run r icase s pos cs k) ->
    exists w rest c',
      s = w ++ rest /\ matches icase r pos w rest
      /\ is_Some (k rest (pos + length w) c').
Proof.
  induction r as [|c|r1 IH1 r2 IH2|r1 IH1 r2 IH2|g r1 IH1|n r1 IH1| |];
    intros s pos cs k H.
  - exists [], s, cs. simpl. rewrite Nat.add_0_r.
    repeat split; [constructor | exact H].
  - simpl in H. destruct s as [|a s']; [destruct H as [? [=]]|].
    destruct (Regex.cls_matches icase c a) eqn:E; [|destruct H as [? [=]]].
    exists [a], s', cs. simpl. rewrite Nat.add_1_r.
    repeat split; [now constructor | exact H].
  - simpl in H. apply IH1 in H as (w1 & rest1 & c1 & -> & Hm1 & H).
    apply IH2 in H as (w2 & rest & c2 & -> & Hm2 & H).
    exists (w1 ++ w2), rest, c2. rewrite <- app_assoc, length_app, Nat.add_assoc.
    repeat split; [now constructor | exact H].
  - simpl in H.
    destruct (Regex.run r1 icase s pos cs k) as [x|] eqn:E.
    + assert (H1 : is_Some (Regex.run r1 icase s pos cs k)) by (rewrite E; eauto).
      apply IH1 in H1 as (w & rest & c' & -> & Hm & Hk).
      exists w, rest, c'. repeat split; [now apply matches_alt_l | exact Hk].
    + apply IH2 in H as (w & rest & c' & -> & Hm & Hk).
      exists w, rest, c'. repeat split; [now apply matches_alt_r | exact Hk].
  - rewrite run_star in H. revert H.
    generalize (S (length s)) as fuel. intros fuel. revert s pos cs.
    induction fuel as [|fuel IHf]; intros s pos cs H.
    + exists [], s, cs. simpl. rewrite Nat.add_0_r.
      repeat split; [constructor | exact H].
    + apply star_loop_S in H as [H|H].
      * apply IH1 in H as (w1 & rest1 & c1 & -> & Hm1 & H).
        destruct (pos <? pos + length w1)%nat eqn:Elt; [|destruct H as [? [=]]].
        apply IHf in H as (w2 & rest & c2 & -> & Hm2 & H).
        exists (w1 ++ w2), rest, c2.
        rewrite <- app_assoc, length_app, Nat.add_assoc.
        repeat split; [|exact H].
        apply matches_star_more; try assumption.
        intros ->. simpl in Elt. rewrite Nat.add_0_r, Nat.ltb_irrefl in Elt.
        discriminate.
      * exists [], s, cs. simpl. rewrite Nat.add_0_r.
        repeat split; [constructor | exact H].
  - simpl in H. apply IH1 in H as (w & rest & c' & -> & Hm & Hk).
    exists w, rest, (Regex.set_cap n (pos, pos + length w) c').
    repeat split; [now constructor | exact Hk].
  - simpl in H. destruct (pos =? 0)%nat eqn:E; [|destruct H as [? [=]]].
    apply Nat.eqb_eq in E. subst pos.
    exists [], s, cs. repeat split; [constructor | exact H].
  - simpl in H. destruct s; [|destruct H as [? [=]]].
    exists [], [], cs. simpl. rewrite Nat.add_0_r.
    repeat split; [constructor | exact H].
Qed.

(** A text of the expression, before a rest that the continuation accepts
    whatever the captures are, is found by the matcher. *)
Lemma run_complete (r : Regex.re) :
  forall (pos : nat) (w rest : list ascii) (cs : Regex.caps) (k : cont),
    matches icase r pos w rest ->
    (forall c', is_Some (k rest (pos + length w) c')) ->
    is_Some (Regex.run r icase (w ++ rest) pos cs k).
Proof.
  induction r as [|c|r1 IH1 r2 IH2|r1 IH1 r2 IH2|g r1 IH1|n r1 IH1| |];
    intros pos w rest cs k Hm Hk.
  - inversion Hm; subst. simpl in *. rewrite Nat.add_0_r in Hk. apply Hk.
  - inversion Hm as [|c0 a p0 rest0 Hc| | | | | | | |]; subst. simpl.
    rewrite Hc. specialize (Hk cs). simpl in Hk. now rewrite Nat.add_1_r in Hk.
  - inversion Hm as [| |? ? ? w1 w2 ? Hm1 Hm2| | | | | | |]; subst.
    simpl. rewrite <- app_assoc. apply IH1; [exact Hm1|].
    intros c1. apply IH2; [exact Hm2|].
    intros c2. specialize (Hk c2).
    now rewrite length_app, Nat.add_assoc in Hk.
  - simpl. inversion Hm as [| | |? ? ? ? ? Hm1|? ? ? ? ? Hm2| | | | |]; subst.
    + destruct (IH1 pos w rest cs k Hm1 Hk) as [x ->]. eauto.
    + destruct (Regex.run r1 icase (w ++ rest) pos cs k); [eauto|].
      now apply IH2.
  - rewrite run_star.
    assert (Hfuel : length (w ++ rest) < S (length (w ++ rest))) by lia.
    revert Hfuel. generalize (S (length (w ++ rest))) as fuel. intros fuel.
    revert pos w cs Hm Hk.
    induction fuel as [|fuel IHf]; intros pos w cs Hm Hk Hfuel; [lia|].
    apply star_loop_S.
    inversion Hm as [| | | | |? ? ? ?|? ? ? w1 w2 ? Hne Hm1 Hm2| | |]; subst.
    + right. specialize (Hk cs). simpl in Hk. now rewrite Nat.add_0_r in Hk.
    + left. rewrite <- app_assoc. apply IH1; [exact Hm1|].
      intros c1.
      assert (Hlt : (pos <? pos + length w1)%nat = true).
      { apply Nat.ltb_lt. destruct w1; [contradiction|simpl; lia]. }
      rewrite Hlt. apply IHf; [exact Hm2| |].
      * intros c2. specialize (Hk c2).
        now rewrite length_app, Nat.add_assoc in Hk.
      * rewrite <- app_assoc, length_app in Hfuel.
        destruct w1; [contradiction|simpl in Hfuel; lia].
  - inversion Hm; subst. simpl. apply IH1; [assumption|].
    intros c1. apply Hk.
  - inversion Hm; subst. simpl in *. apply Hk.
  - inversion Hm; subst. simpl in *. rewrite Nat.add_0_r in Hk. apply Hk.
Qed.

End MatcherFacts.

Lemma search_bol_later (r : Regex.re) (icase : bool) (s : list ascii) (pos : nat) :
  pos <> 0 -> Regex.search (Regex.RSeq Regex.RBol r) icase s pos = None.
Proof.
  revert pos. induction s as [|a s IH]; intros pos Hpos; simpl;
    unfold Regex.match_at; simpl;
    rewrite (proj2 (Nat.eqb_neq pos 0) Hpos); [reflexivity|].
  apply IH. discriminate.
Qed.

(** A pattern anchored at the start holds of a subject exactly if a text
    of its body begins the subject. *)
Lemma test_anchored (r : RegExp) (body : Regex.re) (m : string) :
  re_ast r = Regex.RSeq Regex.RBol body ->
  RegExpOps.test r m = true
  <-> exists w rest,
        chars m = w ++ rest /\ matches (RegExpOps.ignore_case r) body 0 w rest.
Proof.
  intros Hast. unfold RegExpOps.test, RegExpOps.exec_first. rewrite Hast.
  set (ic := RegExpOps.ignore_case r). set (s := chars m).
  assert (Hs : Regex.search (Regex.RSeq Regex.RBol body) ic s 0
               = Regex.match_at (Regex.RSeq Regex.RBol body) ic s 0).
  { destruct s as [|a s']; cbn [Regex.search];
      destruct (Regex.match_at _ _ _ _); try reflexivity.
    apply search_bol_later. discriminate. }
  rewrite Hs. unfold Regex.match_at. cbn [Regex.run Nat.eqb].
  split.
  - intros H.
    destruct (Regex.run body ic s 0 [] _) as [h|] eqn:E; [|discriminate].
    assert (Hsome : is_Some (Regex.run body ic s 0 []
                               (fun _ p c => Some (Regex.Hit 0 p c))))
      by (rewrite E; eauto).
    apply run_sound in Hsome as (w & rest & _ & Hw & Hm & _). eauto.
  - intros (w & rest & Hw & Hm). rewrite Hw.
    destruct (run_complete _ ic body 0 w rest []
                (fun _ p c => Some (Regex.Hit 0 p c)) Hm) as [h ->];
      [eauto | reflexivity].
Qed.

Lemma matches_seq_inv (ic : bool) (r1 r2 : Regex.re) (pos : nat)
    (w rest : list ascii) :
  matches ic (Regex.RSeq r1 r2) pos w rest ->
  exists w1 w2, w = w1 ++ w2 /\ matches ic r1 pos w1 (w2 ++ rest)
                /\ matches ic r2 (pos + length w1) w2 rest.
Proof. inversion 1; subst. eauto. Qed.

Lemma matches_char_inv (ic : bool) (c : Regex.cls) (pos : nat)
    (w rest : list ascii) :
  matches ic (Regex.RChar c) pos w rest ->
  exists a, w = [a] /\ Regex.cls_matches ic c a = true.
Proof. inversion 1; subst. eauto. Qed.

Lemma matches_group_inv (ic : bool) (n : nat) (r : Regex.re) (pos : nat)
    (w rest : list ascii) :
  matches ic (Regex.RGroup n r) pos w rest -> matches ic r pos w rest.
Proof. now inversion 1. Qed.

Lemma matches_alt_inv (ic : bool) (r1 r2 : Regex.re) (pos : nat)
    (w rest : list ascii) :
  matches ic (Regex.RAlt r1 r2) pos w rest ->
  matches ic r1 pos w rest \/ matches ic r2 pos w rest.
Proof. inversion 1; subst; tauto. Qed.

Lemma matches_lit (ic : bool) (p : list ascii) (pos : nat) (w rest : list ascii) :
  matches ic (Regex.lit_chars p) pos w rest
  <-> Forall2 (fun b a => Regex.char_eq ic b a = true) p w.
Proof.
  revert pos w. induction p as [|c p IH]; intros pos w.
  - simpl. split.
    + inversion 1; subst. constructor.
    + intros H. apply Forall2_nil_inv_l in H. subst. constructor.
  - destruct p as [|c' p'].
    + simpl. split.
      * intros H. apply matches_char_inv in H as (a & -> & Ha).
        repeat constructor. exact Ha.
      * intros H. apply Forall2_cons_inv_l in H as (a & w' & Ha & Hw & ->).
        apply Forall2_nil_inv_l in Hw. subst. now constructor.
    + change (Regex.lit_chars (c :: c' :: p'))
        with (Regex.RSeq (Regex.RChar (Regex.CChar c)) (Regex.lit_chars (c' :: p'))).
      split.
      * intros H. apply matches_seq_inv in H as (w1 & w2 & -> & H1 & H2).
        apply matches_char_inv in H1 as (a & -> & Ha).
        simpl. constructor; [exact Ha|]. now apply (IH (pos + 1)).
      * intros H. apply Forall2_cons_inv_l in H as (a & w' & Ha & Hw & ->).
        change (a :: w') with ([a] ++ w'). constructor.
        -- now constructor.
        -- now apply IH.
Qed.

Lemma matches_alts (ic : bool) (rs : list Regex.re) (pos : nat)
    (w rest : list ascii) :
  rs <> [] ->
  matches ic (Regex.alts rs) pos w rest
  <-> Exists (fun r => matches ic r pos w rest) rs.
Proof.
  induction rs as [|r rs IH]; intros Hne; [contradiction|].
  destruct rs as [|r' rs'].
  - simpl. split; [now constructor|].
    intros H. apply Exists_cons in H as [H|H]; [exact H|].
    now apply Exists_nil in H.
  - change (Regex.alts (r :: r' :: rs'))
      with (Regex.RAlt r (Regex.alts (r' :: rs'))).
    split.
    + inversion 1; subst; [now left|]. right. now apply IH.
    + intros H. apply Exists_cons in H as [H|H].
      * now apply matches_alt_l.
      * apply matches_alt_r. now apply IH.
Qed.

Lemma matches_star_char (ic g : bool) (c : Regex.cls) (pos : nat)
    (w rest : list ascii) :
  matches ic (Regex.RStar g (Regex.RChar c)) pos w rest
  <-> Forall (fun a => Regex.cls_matches ic c a = true) w.
Proof.
  split.
  - intros H. remember (Regex.RStar g (Regex.RChar c)) as r eqn:Er.
    induction H; try discriminate Er.
    + constructor.
    + injection Er as -> ->.
      apply matches_char_inv in H0 as (a & -> & Ha).
      simpl. constructor; [exact Ha|]. now apply IHmatches2.
  - intros H. revert pos. induction H as [|a w' Ha Hw IH]; intros pos;
      [constructor|].
    change (a :: w') with ([a] ++ w'). apply matches_star_more.
    + discriminate.
    + now constructor.
    + apply IH.
Qed.

Lemma matches_plus_char (ic : bool) (c : Regex.cls) (pos : nat)
    (w rest : list ascii) :
  matches ic (Regex.plus (Regex.RChar c)) pos w rest
  <-> exists a w', w = a :: w' /\ Regex.cls_matches ic c a = true
                   /\ Forall (fun a => Regex.cls_matches ic c a = true) w'.
Proof.
  unfold Regex.plus. split.
  - intros H. apply matches_seq_inv in H as (w1 & w2 & -> & H1 & H2).
    apply matches_char_inv in H1 as (a & -> & Ha).
    exists a, w2. repeat split; [exact Ha|]. now apply matches_star_char in H2.
  - intros (a & w' & -> & Ha & Hw).
    change (a :: w') with ([a] ++ w'). constructor; [now constructor|].
    now apply matches_star_char.
Qed.

(** Letters under the flag [i]. *)
Lemma char_eq_table :
  forallb (fun n =>
    forallb (fun m =>
      Bool.eqb (Regex.char_eq true (ascii_of_nat m) (ascii_of_nat n))
               (Ascii.eqb (lower (ascii_of_nat n)) (ascii_of_nat m)))
      (seq 97 26)
    && forallb (fun m =>
      Bool.eqb (Regex.char_eq true (ascii_of_nat m) (ascii_of_nat n))
               (Ascii.eqb (ascii_of_nat n) (ascii_of_nat m)))
      (seq 0 65))
    (seq 0 256) = true.
Proof. vm_compute. reflexivity. Qed.

Lemma char_eq_letter (a b : ascii) :
  97 <= nat_of_ascii b <= 122 ->
  Regex.char_eq true b a = true <-> lower a = b.
Proof.
  intros Hb. pose proof char_eq_table as H.
  rewrite forallb_forall in H. specialize (H (nat_of_ascii a)).
  rewrite andb_true_iff, ascii_nat_embedding in H.
  destruct H as [H _].
  { apply in_seq. pose proof (nat_ascii_bounded a). lia. }
  rewrite forallb_forall in H. specialize (H (nat_of_ascii b)).
  rewrite ascii_nat_embedding in H.
  rewrite <- Ascii.eqb_eq.
  destruct (Regex.char_eq true b a), (Ascii.eqb (lower a) b);
    try tauto; (discriminate H; apply in_seq; lia).
Qed.

Lemma char_eq_sign (a b : ascii) :
  nat_of_ascii b < 65 ->
  Regex.char_eq true b a = true <-> a = b.
Proof.
  intros Hb. pose proof char_eq_table as H.
  rewrite forallb_forall in H. specialize (H (nat_of_ascii a)).
  rewrite andb_true_iff, ascii_nat_embedding in H.
  destruct H as [_ H].
  { apply in_seq. pose proof (nat_ascii_bounded a). lia. }
  rewrite forallb_forall in H. specialize (H (nat_of_ascii b)).
  rewrite ascii_nat_embedding in H.
  rewrite <- Ascii.eqb_eq.
  destruct (Regex.char_eq true b a), (Ascii.eqb a b);
    try tauto; (discriminate H; apply in_seq; lia).
Qed.

Lemma lit_letters (p w : list ascii) :
  Forall (fun b => 97 <= nat_of_ascii b <= 122) p ->
  Forall2 (fun b a => Regex.char_eq true b a = true) p w <-> map lower w = p.
Proof.
  intros Hp. revert w. induction Hp as [|b p Hb Hp IH]; intros w.
  - split.
    + intros H. apply Forall2_nil_inv_l in H. now subst.
    + destruct w; [constructor|discriminate].
  - split.
    + intros H. apply Forall2_cons_inv_l in H as (a & w' & Ha & Hw & ->).
      simpl. f_equal; [now apply char_eq_letter | now apply IH].
    + destruct w as [|a w']; [discriminate|]. simpl. intros [= Ha Hw].
      constructor; [now apply char_eq_letter | now apply IH].
Qed.

Lemma lit_signs (p w : list ascii) :
  Forall (fun b => nat_of_ascii b < 65) p ->
  Forall2 (fun b a => Regex.char_eq true b a = true) p w <-> w = p.
Proof.
  intros Hp. revert w. induction Hp as [|b p Hb Hp IH]; intros w.
  - split.
    + intros H. apply Forall2_nil_inv_l in H. now subst.
    + intros ->. constructor.
  - split.
    + intros H. apply Forall2_cons_inv_l in H as (a & w' & Ha & Hw & ->).
      f_equal; [now apply char_eq_sign | now apply IH].
    + intros ->. constructor; [now apply char_eq_sign | now apply IH].
Qed.

Lemma types_letters (t : string) :
  In t CommitMsg.default_types ->
  Forall (fun b => 97 <= nat_of_ascii b <= 122) (chars t).
Proof.
  intros H. apply List.Forall_forall. intros b Hb.
  assert (Hall : forallb (fun t => forallb (fun b => (97 <=? nat_of_ascii b)%nat
                                             && (nat_of_ascii b <=? 122)%nat)
                                   (chars t))
                   CommitMsg.default_types = true) by (vm_compute; reflexivity).
  rewrite forallb_forall in Hall. specialize (Hall t H).
  rewrite forallb_forall in Hall. specialize (Hall b Hb).
  apply andb_true_iff in Hall as [H1 H2].
  apply Nat.leb_le in H1, H2. lia.
Qed.

(** The language of the default pattern. *)
Lemma default_pattern_language (m : string) :
  RegExpOps.test CommitMsg.default_pattern m = true <-> conventional_subject m.
Proof.
  rewrite (test_anchored CommitMsg.default_pattern
             (Regex.RSeq
                (Regex.RGroup 1 (Regex.alts (map Regex.lit CommitMsg.default_types)))
                (Regex.RSeq
                   (Regex.opt
                      (Regex.RGroup 2
                         (Regex.RSeq (Regex.lit "(")
                            (Regex.RSeq (Regex.plus (Regex.RChar Regex.CAny))
                               (Regex.lit ")")))))
                   (Regex.RSeq (Regex.lit ": ")
                      (Regex.plus (Regex.RChar Regex.CAny)))))) by reflexivity.
  change (RegExpOps.ignore_case CommitMsg.default_pattern) with true.
  assert (Hsign : forall p, In p ["("; ")"; ": "] ->
            Forall (fun b => nat_of_ascii b < 65) (chars p)).
  { intros p Hp. apply List.Forall_forall. intros b Hb.
    assert (Hall : forallb (fun p => forallb (fun b => (nat_of_ascii b <? 65)%nat)
                                       (chars p))
                     ["("; ")"; ": "] = true) by (vm_compute; reflexivity).
    rewrite forallb_forall in Hall. specialize (Hall p Hp).
    rewrite forallb_forall in Hall. specialize (Hall b Hb).
    now apply Nat.ltb_lt in Hall. }
  split.
  - intros (w & rest & Hw & H).
    apply matches_seq_inv in H as (type & w1 & -> & Htype & H).
    apply matches_seq_inv in H as (scope & w2 & -> & Hscope & H).
    apply matches_seq_inv in H as (colon & w3 & -> & Hcolon & H).
    apply matches_plus_char in H as (c & w4 & -> & Hc & _).
    apply matches_group_inv, matches_alts in Htype; [|discriminate].
    apply List.Exists_exists in Htype as (r & Hr & Hlit).
    apply in_map_iff in Hr as (t & <- & Ht).
    apply matches_lit in Hlit.
    apply (lit_letters _ _ (types_letters t Ht)) in Hlit.
    apply matches_lit, lit_signs in Hcolon; [|apply Hsign; simpl; tauto].
    subst colon.
    exists type, scope, c, (w4 ++ rest).
    split; [rewrite Hw, <- !app_assoc; reflexivity|].
    split; [exists t; split; [exact Ht | exact Hlit]|].
    split; [|now apply negb_true_iff in Hc].
    unfold Regex.opt in Hscope.
    apply matches_alt_inv in Hscope as [Hs|He].
    + right. apply matches_group_inv in Hs.
      apply matches_seq_inv in Hs as (op & s1 & -> & Hop & Hs).
      apply matches_seq_inv in Hs as (inner & cl & -> & Hin & Hcl).
      apply matches_lit, lit_signs in Hop; [|apply Hsign; simpl; tauto].
      apply matches_lit, lit_signs in Hcl; [|apply Hsign; simpl; tauto].
      subst op cl.
      apply matches_plus_char in Hin as (a & inner' & -> & Ha & Hin).
      exists (a :: inner'). split; [discriminate|]. split; [|reflexivity].
      constructor; [now apply negb_true_iff in Ha|].
      eapply Forall_impl; [exact Hin|].
      intros x Hx. now apply negb_true_iff in Hx.
    + left. inversion He. reflexivity.
  - intros (type & scope & c & rest & Hm & (t & Ht & Htype) & Hscope & Hc).
    exists (type ++ scope ++ chars ": " ++ [c]), rest.
    split; [rewrite Hm, <- !app_assoc; reflexivity|].
    constructor.
    { constructor. apply matches_alts; [discriminate|].
      apply List.Exists_exists. exists (Regex.lit t).
      split; [now apply in_map|].
      apply matches_lit, (lit_letters _ _ (types_letters t Ht)). exact Htype. }
    constructor.
    { destruct Hscope as [->|(inner & Hne & Hline & ->)].
      - apply matches_alt_r. constructor.
      - apply matches_alt_l. constructor. constructor.
        { apply matches_lit, lit_signs; [apply Hsign; simpl; tauto|reflexivity]. }
        constructor.
        { apply matches_plus_char. destruct inner as [|a inner']; [contradiction|].
          apply Forall_cons in Hline as [Ha Hline].
          exists a, inner'. split; [reflexivity|].
          split; [simpl; now rewrite Ha|].
          eapply Forall_impl; [exact Hline|].
          intros x Hx. simpl. now rewrite Hx. }
        apply matches_lit, lit_signs; [apply Hsign; simpl; tauto|reflexivity]. }
    constructor.
    { apply matches_lit, lit_signs; [apply Hsign; simpl; tauto|reflexivity]. }
    apply matches_plus_char. exists c, []. split; [reflexivity|].
    split; [simpl; now rewrite Hc | constructor].
Qed.

(** ** The commit message parser *)

Section CommitMsgFacts.

Variable RegExp_new : string -> string -> Res RegExp.

(** A pattern that is already compiled is returned as it is. *)
Lemma parsePattern_regexp (r : RegExp) :
  CommitMsg.parsePattern RegExp_new (JRegExp r) = Ok r.
Proof. reflexivity. Qed.

(** The default pattern accepts a subject of each conventional type, with
    and without a scope, in either case of the letters. *)
Lemma default_pattern_accepts :
  forallb (fun t => RegExpOps.test CommitMsg.default_pattern (t +:+ ": x")
                    && RegExpOps.test CommitMsg.default_pattern (t +:+ "(core): x"))
          CommitMsg.default_types = true
  /\ RegExpOps.test CommitMsg.default_pattern "FEAT: shout" = true
  /\ RegExpOps.test CommitMsg.default_pattern "wip" = false
  /\ RegExpOps.test CommitMsg.default_pattern "feat:missing space" = false.
Proof. repeat split; vm_compute; reflexivity. Qed.

(** C10. [parsePattern] returns on every value that is neither a [RegExp]
    nor a string (null, undefined, numbers, booleans, objects, arrays), and
    what it returns is the built-in Conventional-Commits pattern: its source
    is the text of the literal, its only flag is [i], and it is a matcher
    that holds of a message exactly if the message is a conventional
    subject, that is, begins with one of the eleven types in letters of
    either case, an optional scope between parentheses, a colon, a space and
    some text. *)
Theorem parsePattern_total_on_other_values (pattern : JsVal) :
  instanceof_RegExp pattern = false ->
  typeof_string pattern = false ->
  exists r,
    CommitMsg.parsePattern RegExp_new pattern = Ok r
    /\ re_source r
       = "^(feat|fix|docs|style|refactor|test|chore|perf|build|ci|revert)(\(.+\))?: .+"
    /\ re_flags r = "i"
    /\ forall message,
         RegExpOps.test r message = true <-> conventional_subject message.
Proof.
  intros Hre Hstr. exists CommitMsg.default_pattern. split; [|split; [|split]].
  - destruct pattern; simpl in *; try reflexivity; discriminate.
  - reflexivity.
  - reflexivity.
  - apply default_pattern_language.
Qed.

End CommitMsgFacts.

Lemma parsePattern_total_witness :
  exists r,
    CommitMsg.parsePattern (fun _ _ => Throw "SyntaxError") (JObj [("a", JNum 1)])
      = Ok r
    /\ re_source r
       = "^(feat|fix|docs|style|refactor|test|chore|perf|build|ci|revert)(\(.+\))?: .+"
    /\ re_flags r = "i"
    /\ forall message,
         RegExpOps.test r message = true <-> conventional_subject message.
Proof.
  apply (parsePattern_total_on_other_values (fun _ _ => Throw "SyntaxError")
           (JObj [("a", JNum 1)])); reflexivity.
Defined.

(** What [parseCommitMessage] computes from a match without the [g] flag: the
    type is the first group, the scope the second one without parentheses,
    and the description what is left of the message once the first occurrence
    of the whole matched text is removed, trimmed. *)
Lemma parseCommitMessage_fields (message : string) (pattern : RegExp) (h : Regex.hit) :
  RegExpOps.global pattern = false ->
  RegExpOps.exec_first pattern message = Some h ->
  2 <= RegExpOps.group_count (re_ast pattern) ->
  exists p,
    CommitMsg.parseCommitMessage message pattern = Some p
    /\ CommitMsg.p_type p = RegExpOps.group_val message h 1
    /\ CommitMsg.p_scope p =
         (if truthy (RegExpOps.group_val message h 2)
          then JStr (CommitMsg.strip_parens
                       (CommitMsg.as_string (RegExpOps.group_val message h 2)))
          else JNull)
    /\ CommitMsg.p_description p =
         trim (string_of_list_ascii
                 (remove_first (chars (Regex.hit_text (chars message) h))
                               (chars message)))
    /\ CommitMsg.p_raw p = message.
Proof.
  intros Hg Hex Hn.
  unfold CommitMsg.parseCommitMessage, RegExpOps.string_match.
  rewrite Hg, Hex.
  destruct (RegExpOps.group_count (re_ast pattern)) as [|[|n]] eqn:E; try lia.
  eexists. split; [reflexivity|]. simpl. repeat split; reflexivity.
Qed.

(** C8. On the message of the specification's golden case the default
    pattern matches the whole line, description included, so that nothing is
    left for the description: type and scope are as the claim says, the
    description is empty and not [add variant].  The same holds with the
    pattern of the base configuration. *)
Theorem parseCommitMessage_golden_case :
  CommitMsg.parseCommitMessage "feat(button): add variant" CommitMsg.default_pattern
    = Some (CommitMsg.MkParsed (JStr "feat") (JStr "button") ""
              "feat(button): add variant")
  /\ CommitMsg.parseCommitMessage "feat(button): add variant" CommonConfig.commitPattern
    = Some (CommitMsg.MkParsed (JStr "feat") (JStr "button") ""
              "feat(button): add variant").
Proof. split; vm_compute; reflexivity. Qed.

(** With the default pattern the description is only ever what follows the
    first line. *)
Lemma parseCommitMessage_body_only :
  option_map CommitMsg.p_description
    (CommitMsg.parseCommitMessage
       ("fix: close the modal" +:+ String (ascii_of_nat 10) "details below")
       CommitMsg.default_pattern)
  = Some "details below".
Proof. vm_compute. reflexivity. Qed.

(** ** The hook runners *)

Section HookFacts.

Variable World : Type.
Variable run_check : string -> World -> Hooks.CheckOutcome * World.

Local Abbreviation RunState := (Hooks.RunState World).
Local Abbreviation loop := (Hooks.loop World run_check).
Local Abbreviation runChecks := (Hooks.runChecks World run_check).
Local Abbreviation record := (Hooks.record World).
Local Abbreviation Completed := (Hooks.Completed World).
Local Abbreviation Aborted := (Hooks.Aborted World).
Local Abbreviation Stuck := (Hooks.Stuck World).
Local Abbreviation rs_world := (Hooks.rs_world World).
Local Abbreviation rs_trace := (Hooks.rs_trace World).
Local Abbreviation rs_results := (Hooks.rs_results World).

(** The loop over a list in two parts. *)
Lemma loop_app (pre rest : list JsVal) (st : RunState) :
  loop (pre ++ rest) st =
  match loop pre st with
  | Hooks.Completed _ st' => loop rest st'
  | other => other
  end.
Proof.
  revert st. induction pre as [|c pre IH]; intros st; simpl; [reflexivity|].
  destruct (run_check (Hooks.moduleName c) (rs_world st)) as [o w].
  destruct o; try reflexivity; [apply IH|].
  destruct (truthy (get c "critical")); [reflexivity | apply IH].
Qed.

(** A loop that completes invoked every check of its list, in order, and
    met no critical failure and no check that hangs. *)
Lemma loop_completed (checks : list JsVal) (st st' : RunState) :
  loop checks st = Completed st' ->
  exists entries,
    rs_trace st' = rs_trace st ++ entries
    /\ rs_results st' = rs_results st ++ flat_map Spec.result_of entries
    /\ map fst entries = checks
    /\ Forall Spec.critical_passed entries
    /\ Forall (fun e => snd e <> Hooks.Hangs) entries.
Proof.
  revert st. induction checks as [|c checks IH]; intros st H; simpl in H.
  - injection H as <-. exists []. rewrite !app_nil_r. repeat split; constructor.
  - destruct (run_check (Hooks.moduleName c) (rs_world st)) as [o w] eqn:E.
    destruct o as [|msg|]; try discriminate.
    + apply IH in H as (es & Ht & Hr & Hm & Hc & Hh).
      exists ((c, Hooks.Passes) :: es). simpl in *.
      rewrite Ht, Hr, <- !app_assoc. simpl. rewrite Hm.
      repeat split; constructor; try assumption; try discriminate.
      intros _. reflexivity.
    + destruct (truthy (get c "critical")) eqn:Ec; try discriminate.
      apply IH in H as (es & Ht & Hr & Hm & Hc & Hh).
      exists ((c, Hooks.Fails msg) :: es). simpl in *.
      rewrite Ht, Hr, <- !app_assoc. simpl. rewrite Hm.
      repeat split; constructor; try assumption; try discriminate.
      unfold Spec.critical_passed. simpl. congruence.
Qed.

(** A loop that is left by [return false] stopped at a critical check that
    failed: the trace ends there. *)
Lemma loop_aborted (checks : list JsVal) (st st' : RunState) :
  loop checks st = Aborted st' ->
  exists entries c msg,
    rs_trace st' = rs_trace st ++ entries ++ [(c, Hooks.Fails msg)]
    /\ truthy (get c "critical") = true
    /\ exists rest, checks = map fst entries ++ c :: rest.
Proof.
  revert st. induction checks as [|c checks IH]; intros st H; simpl in H;
    [discriminate|].
  destruct (run_check (Hooks.moduleName c) (rs_world st)) as [o w] eqn:E.
  destruct o as [|msg|]; try discriminate.
  - apply IH in H as (es & c' & m' & Ht & Hc & rest & Hr).
    exists ((c, Hooks.Passes) :: es), c', m'. simpl in *.
    rewrite Ht, <- !app_assoc. simpl. repeat split; try assumption.
    exists rest. rewrite Hr. reflexivity.
  - destruct (truthy (get c "critical")) eqn:Ec.
    + injection H as <-. exists [], c, msg. simpl. repeat split; try assumption.
      exists checks. reflexivity.
    + apply IH in H as (es & c' & m' & Ht & Hc & rest & Hr).
      exists ((c, Hooks.Fails msg) :: es), c', m'. simpl in *.
      rewrite Ht, <- !app_assoc. simpl. repeat split; try assumption.
      exists rest. rewrite Hr. reflexivity.
Qed.

(** The summary after the loop never finds a failed critical entry: the
    loop has returned on each already. *)
Lemma allCriticalPassed_noncritical (entries : list (JsVal * Hooks.CheckOutcome)) :
  Forall Spec.critical_passed entries ->
  Hooks.allCriticalPassed (flat_map Spec.result_of entries) = true.
Proof.
  unfold Hooks.allCriticalPassed.
  induction 1 as [|[c o] es Hc _ IH]; [reflexivity|].
  simpl. rewrite List.filter_app, forallb_app, IH, andb_true_r.
  unfold Spec.critical_passed in Hc. simpl in Hc.
  destruct o as [|m|]; unfold Spec.result_of; simpl; try reflexivity.
  destruct (truthy (get c "critical")) eqn:E.
  - specialize (Hc eq_refl). discriminate.
  - reflexivity.
Qed.

(** A run from the start returns [true] exactly when its loop completes. *)
Lemma runChecks_start (checks : list JsVal) (w : World) :
  runChecks checks (Hooks.start World w) =
  match loop checks (Hooks.start World w) with
  | Hooks.Completed _ st' => (Hooks.Returns (JBool true), st')
  | Hooks.Aborted _ st' => (Hooks.Returns (JBool false), st')
  | Hooks.Stuck _ st' => (Hooks.NeverSettles, st')
  end.
Proof.
  unfold Hooks.runChecks.
  destruct (loop checks (Hooks.start World w)) as [st'|st'|st'] eqn:E;
    try reflexivity.
  apply loop_completed in E as (es & _ & Hr & _ & Hc & _). simpl in Hr.
  rewrite Hr, allCriticalPassed_noncritical by assumption. reflexivity.
Qed.

(** C4. If the loop reaches an enabled check flagged critical and that
    check fails, the run returns [false] at once: the failed check is the
    last one whose module is invoked, so none of the checks after it
    runs. *)
Theorem critical_failure_aborts
    (pre post : list JsVal) (c : JsVal) (w w2 : World) (st1 : RunState)
    (message : string) :
  loop pre (Hooks.start World w) = Completed st1 ->
  truthy (get c "critical") = true ->
  run_check (Hooks.moduleName c) (rs_world st1) = (Hooks.Fails message, w2) ->
  exists st2,
    runChecks (pre ++ c :: post) (Hooks.start World w)
      = (Hooks.Returns (JBool false), st2)
    /\ Spec.invoked st2 = pre ++ [c]
    /\ rs_world st2 = w2.
Proof.
  intros Hpre Hc Hrun.
  exists (record st1 c (Hooks.Fails message) w2).
  rewrite runChecks_start, loop_app, Hpre. simpl. rewrite Hrun, Hc.
  split; [reflexivity|]. split; [|reflexivity].
  apply loop_completed in Hpre as (es & Ht & _ & Hm & _). simpl in Ht.
  unfold Spec.invoked. simpl. rewrite Ht, map_app, Hm. reflexivity.
Qed.

(** Whenever a run returns, it returns [true] exactly if every executed
    check flagged critical passed, and then every check of the list was
    executed, in order. *)
Lemma runChecks_true_iff (checks : list JsVal) (w : World) (b : bool)
    (st' : RunState) :
  runChecks checks (Hooks.start World w) = (Hooks.Returns (JBool b), st') ->
  (b = true <-> Forall Spec.critical_passed (rs_trace st'))
  /\ (b = true -> Spec.invoked st' = checks).
Proof.
  rewrite runChecks_start.
  destruct (loop checks (Hooks.start World w)) as [s|s|s] eqn:E;
    intros [= <- <-].
  - apply loop_completed in E as (es & Ht & _ & Hm & Hcp & _). simpl in Ht.
    unfold Spec.invoked. rewrite Ht. split; [tauto|]. intros _. exact Hm.
  - apply loop_aborted in E as (es & c' & m' & Ht & Hc' & _). simpl in Ht.
    split; [|discriminate]. split; [discriminate|].
    rewrite Ht. intros HF. apply Forall_app in HF as [_ HF].
    apply Forall_inv in HF. specialize (HF Hc'). discriminate.
Qed.

(** A loop none of whose checks hangs comes to its end or is left by
    [return false]. *)
Lemma loop_settles (checks : list JsVal) (st : RunState) :
  (forall check w, In check checks ->
     fst (run_check (Hooks.moduleName check) w) <> Hooks.Hangs) ->
  exists st', loop checks st = Completed st' \/ loop checks st = Aborted st'.
Proof.
  revert st. induction checks as [|c checks IH]; intros st H; simpl.
  - exists st. now left.
  - pose proof (H c (rs_world st) (or_introl eq_refl)) as Hc.
    destruct (run_check (Hooks.moduleName c) (rs_world st)) as [o w'] eqn:E.
    simpl in Hc.
    assert (Hrest : forall check w, In check checks ->
              fst (run_check (Hooks.moduleName check) w) <> Hooks.Hangs)
      by (intros check w0 Hin; apply H; now right).
    destruct o as [|msg|]; [now apply IH| |contradiction].
    destruct (truthy (get c "critical")); [|now apply IH].
    eexists. right. reflexivity.
Qed.

(** A loop each of whose checks passes, or fails without being critical,
    comes to its end. *)
Lemma loop_goes_on (checks : list JsVal) (st : RunState) :
  (forall check w, In check checks ->
     goes_on check (fst (run_check (Hooks.moduleName check) w))) ->
  exists st', loop checks st = Completed st'.
Proof.
  revert st. induction checks as [|c checks IH]; intros st H; simpl.
  - now exists st.
  - pose proof (H c (rs_world st) (or_introl eq_refl)) as Hc.
    destruct (run_check (Hooks.moduleName c) (rs_world st)) as [o w'] eqn:E.
    simpl in Hc.
    assert (Hrest : forall check w, In check checks ->
              goes_on check (fst (run_check (Hooks.moduleName check) w)))
      by (intros check w0 Hin; apply H; now right).
    destruct o as [|msg|]; [now apply IH| |contradiction].
    simpl in Hc. rewrite Hc. now apply IH.
Qed.

(** The trace of a run that returned, after a first part of the list that
    completed: it holds what the first part left. *)
Lemma loop_trace_extends (checks : list JsVal) (st st' : RunState) :
  loop checks st = Completed st' \/ loop checks st = Aborted st' ->
  exists entries, rs_trace st' = rs_trace st ++ entries.
Proof.
  intros [H|H].
  - apply loop_completed in H as (es & Ht & _). eauto.
  - apply loop_aborted in H as (es & c & m & Ht & _). eauto.
Qed.

(** C5. A failure of a check that is not flagged critical (the check
    throws, with a message, as the contract of a check has it) does not end
    the run: it goes on with the checks after it, from the world that check
    left.  If none of the later checks hangs, the run returns; it returns
    [true] exactly if every executed check flagged critical passed, and
    then every check of the list was executed, in order, the failed one
    among them.  If each of the later checks passes, or fails without being
    flagged critical, the run returns [true]. *)
Theorem noncritical_failure_continues
    (pre post : list JsVal) (c : JsVal) (w w2 : World) (st1 : RunState)
    (message : string) :
  loop pre (Hooks.start World w) = Completed st1 ->
  truthy (get c "critical") = false ->
  run_check (Hooks.moduleName c) (rs_world st1) = (Hooks.Fails message, w2) ->
  loop (pre ++ c :: post) (Hooks.start World w)
    = loop post (record st1 c (Hooks.Fails message) w2)
  /\ ((forall check w', In check post ->
         fst (run_check (Hooks.moduleName check) w') <> Hooks.Hangs) ->
      exists (b : bool) (st' : RunState),
        runChecks (pre ++ c :: post) (Hooks.start World w)
          = (Hooks.Returns (JBool b), st')
        /\ (b = true <-> Forall Spec.critical_passed (rs_trace st'))
        /\ (b = true -> Spec.invoked st' = pre ++ c :: post)
        /\ In (c, Hooks.Fails message) (rs_trace st'))
  /\ ((forall check w', In check post ->
         goes_on check (fst (run_check (Hooks.moduleName check) w'))) ->
      exists st' : RunState,
        runChecks (pre ++ c :: post) (Hooks.start World w)
          = (Hooks.Returns (JBool true), st')
        /\ Spec.invoked st' = pre ++ c :: post
        /\ In (c, Hooks.Fails message) (rs_trace st')).
Proof.
  intros Hpre Hc Hrun.
  set (st2 := record st1 c (Hooks.Fails message) w2).
  assert (Hloop : loop (pre ++ c :: post) (Hooks.start World w) = loop post st2).
  { rewrite loop_app, Hpre. simpl. rewrite Hrun, Hc. reflexivity. }
  assert (Hin : forall st', loop post st2 = Completed st'
                            \/ loop post st2 = Aborted st' ->
                In (c, Hooks.Fails message) (rs_trace st')).
  { intros st' H. apply loop_trace_extends in H as [es ->].
    apply in_or_app. left. unfold st2. simpl. apply in_or_app. right. now left. }
  split; [exact Hloop|]. split.
  - intros Hsettle.
    destruct (loop_settles post st2 Hsettle) as [st' Hend].
    assert (Hret : exists b, runChecks (pre ++ c :: post) (Hooks.start World w)
                             = (Hooks.Returns (JBool b), st')).
    { rewrite runChecks_start, Hloop.
      destruct Hend as [-> | ->]; eauto. }
    destruct Hret as [b Hret]. exists b, st'. split; [exact Hret|].
    destruct (runChecks_true_iff _ _ _ _ Hret) as [H1 H2].
    split; [exact H1|]. split; [exact H2|]. now apply Hin.
  - intros Hgo.
    destruct (loop_goes_on post st2 Hgo) as [st' Hend].
    assert (Hret : runChecks (pre ++ c :: post) (Hooks.start World w)
                   = (Hooks.Returns (JBool true), st'))
      by (rewrite runChecks_start, Hloop, Hend; reflexivity).
    exists st'. split; [exact Hret|].
    destruct (runChecks_true_iff _ _ _ _ Hret) as [_ H2].
    split; [now apply H2|]. apply Hin. now left.
Qed.

(** A hook that is switched off succeeds without invoking a check. *)
Lemma disabled_hook_succeeds (config : JsVal) (git : Hooks.Git) (w : World) :
  truthy (opt_member (get config "preCommit") "enabled") = false ->
  Hooks.runPreCommitChecks World run_check config git w
    = (Hooks.Returns (JBool true), Hooks.start World w).
Proof. intros H. unfold Hooks.runPreCommitChecks. rewrite H. reflexivity. Qed.

(** Whatever the runner does, the process of either hook ends with status 1
    once the configuration is loaded: on a rejection or a timeout through
    [process.exit(1)] in [runWithTimeout], and on a run that returned,
    with [true] or [false], because [runWithTimeout] hands on [undefined]. *)
Lemma hook_exit_status (config : JsVal) (git : Hooks.Git) (w : World)
    (timer_first : bool) :
  Hooks.preCommitMain World run_check (Ok config) git w timer_first
    = Hooks.Exit 1
  /\ Hooks.prePushMain World run_check (Ok config) git w timer_first
    = Hooks.Exit 1.
Proof.
  unfold Hooks.preCommitMain, Hooks.prePushMain, Hooks.runWithTimeout. split.
  - destruct (Hooks.race _ _); reflexivity.
  - destruct (Hooks.race _ _); reflexivity.
Qed.

End HookFacts.

(** *** The examples of the specification *)

(** Given [A] critical and failing and [B] critical, [B] is never invoked and
    the result is failure. *)
Lemma critical_failure_example :
  Hooks.runChecks unit (Samples.failing ["A"])
    [Samples.A_critical; Samples.B_critical] (Hooks.start unit tt)
  = (Hooks.Returns (JBool false),
     Hooks.MkRun unit tt [(Samples.A_critical, Hooks.Fails "check failed")]
       [Hooks.MkResult (JStr "A") false (JBool true)]).
Proof. vm_compute. reflexivity. Qed.

(** Given [A] not critical and failing and [B] critical and passing, both run
    and the result is success. *)
Lemma noncritical_failure_example :
  Hooks.runChecks unit (Samples.failing ["A"])
    [Samples.A_optional; Samples.B_critical] (Hooks.start unit tt)
  = (Hooks.Returns (JBool true),
     Hooks.MkRun unit tt
       [(Samples.A_optional, Hooks.Fails "check failed");
        (Samples.B_critical, Hooks.Passes)]
       [Hooks.MkResult (JStr "A") false (JBool false);
        Hooks.MkResult (JStr "B") true JUndef]).
Proof. vm_compute. reflexivity. Qed.

Lemma critical_failure_aborts_witness :
  exists st2,
    Hooks.runChecks unit (Samples.failing ["A"])
      ([] ++ Samples.A_critical :: [Samples.B_critical]) (Hooks.start unit tt)
      = (Hooks.Returns (JBool false), st2)
    /\ Spec.invoked st2 = [] ++ [Samples.A_critical]
    /\ Hooks.rs_world unit st2 = tt.
Proof.
  apply (critical_failure_aborts unit (Samples.failing ["A"]) []
           [Samples.B_critical] Samples.A_critical tt tt (Hooks.start unit tt)
           "check failed"); reflexivity.
Defined.

Lemma noncritical_failure_continues_witness :
  exists st' : Hooks.RunState unit,
    Hooks.runChecks unit (Samples.failing ["A"])
      ([] ++ Samples.A_optional :: [Samples.B_critical]) (Hooks.start unit tt)
      = (Hooks.Returns (JBool true), st')
    /\ Spec.invoked st' = [] ++ Samples.A_optional :: [Samples.B_critical]
    /\ In (Samples.A_optional, Hooks.Fails "check failed") (Hooks.rs_trace unit st').
Proof.
  destruct (noncritical_failure_continues unit (Samples.failing ["A"]) []
              [Samples.B_critical] Samples.A_optional tt tt (Hooks.start unit tt)
              "check failed" eq_refl eq_refl eq_refl) as (_ & _ & H).
  apply H. intros check w' [<-|[]]. exact I.
Defined.

(** *** The exit status *)

(** C1. On a development machine with the default configuration the
    pre-commit run succeeds when every check passes, and the pre-push run
    succeeds because the hook is switched off there; both runners return
    [true], and both processes end with status 1. *)
Theorem hooks_exit_1_on_success :
  let config := Samples.resolvedConfig Samples.dev "common" JUndef in
  let git := Samples.repo "feature/login" "feat: add login" in
  fst (Hooks.runPreCommitChecks unit (Samples.failing []) config git tt)
    = Hooks.Returns (JBool true)
  /\ Hooks.preCommitMain unit (Samples.failing []) (Ok config) git tt false
    = Hooks.Exit 1
  /\ Hooks.runPrePushChecks unit (Samples.failing []) config git tt
    = (Hooks.Returns (JBool true), Hooks.start unit tt)
  /\ Hooks.prePushMain unit (Samples.failing []) (Ok config) git tt false
    = Hooks.Exit 1.
Proof. vm_compute. repeat split; reflexivity. Qed.

(** *** The branch skip list *)

(** The helper [shouldSkipForBranch] of the base configuration reads a star
    as a wildcard. *)
Lemma shouldSkipForBranch_wildcard :
  CommonConfig.shouldSkipForBranch (Some ("release/1.2" +:+ Samples.newline))
    ["release/*"] = true
  /\ CommonConfig.shouldSkipForBranch (Some ("release" +:+ Samples.newline))
       ["release/*"] = false.
Proof. split; vm_compute; reflexivity. Qed.

(** The pre-push runner compares the branch with the entries of the list as
    they are. *)
Lemma prePush_skip_literal (World : Type)
    (run_check : string -> World -> Hooks.CheckOutcome * World)
    (skipBranches : list string) (checks : JsVal) (branch : string) (w : World) :
  Hooks.runPrePushChecks World run_check (Samples.pushConfig skipBranches checks)
    (Hooks.MkGit (Ok branch) (Ok EmptyString)) w
  = if existsb (String.eqb (trim branch)) skipBranches
    then (Hooks.Returns (JBool true), Hooks.start World w)
    else match Hooks.enabledChecks checks with
         | Throw e => Hooks.rejected World e w
         | Ok l => Hooks.runChecks World run_check l (Hooks.start World w)
         end.
Proof.
  unfold Hooks.runPrePushChecks, Samples.pushConfig. simpl.
  replace (existsb (strict_equals (JStr (trim branch))) (map JStr skipBranches))
    with (existsb (String.eqb (trim branch)) skipBranches).
  - destruct (existsb _ skipBranches); reflexivity.
  - induction skipBranches as [|x l IH]; simpl; [reflexivity|]. now rewrite IH.
Qed.

(** C3. With the skip list [release/*] the pre-push runner does not skip on
    the branch [release/1.2]: it goes on and invokes the check.  It does not
    skip on [release] either, and skips on a branch whose name is the entry
    itself. *)
Theorem prePush_wildcard_not_skipped :
  let config := Samples.pushConfig ["release/*"] (JArr [Samples.B_critical]) in
  let on branch :=
    Hooks.runPrePushChecks unit (Samples.failing []) config
      (Samples.repo branch "feat: x") tt in
  on "release/1.2"
    = (Hooks.Returns (JBool true),
       Hooks.MkRun unit tt [(Samples.B_critical, Hooks.Passes)]
         [Hooks.MkResult (JStr "B") true JUndef])
  /\ on "release" = on "release/1.2"
  /\ on "release/*" = (Hooks.Returns (JBool true), Hooks.start unit tt).
Proof. vm_compute. repeat split; reflexivity. Qed.

(** ** Project type detection *)

(** Once the project root is listed, detection returns a type, whatever the
    manifest is. *)
Lemma detectProjectType_listed (files : list string) (m : ConfigLoader.Manifest) :
  exists t, ConfigLoader.detectProjectType (ConfigLoader.MkRoot (Ok files) m) = Ok t
            /\ In t known_types.
Proof.
  unfold ConfigLoader.detectProjectType, known_types. simpl.
  destruct (existsb ConfigLoader.is_next_config files); [eexists; split; [reflexivity|simpl; tauto]|].
  destruct (existsb ConfigLoader.is_vite_config files); [eexists; split; [reflexivity|simpl; tauto]|].
  destruct (ConfigLoader.fromManifest m) as [[t|]|e] eqn:E;
    try (eexists; split; [reflexivity|simpl; tauto]).
  exists t. split; [reflexivity|].
  destruct m as [| | |pkg]; simpl in E; try discriminate.
  unfold member in E.
  destruct (is_nullish pkg); simpl in E; [discriminate|].
  repeat match type of E with
         | (if ?c then _ else _) = _ => destruct c
         end; try discriminate; injection E as <-; simpl; tauto.
Qed.

(** A manifest that is missing, unreadable or malformed gives the generic
    type when no marker file is there. *)
Lemma detectProjectType_bad_manifest (files : list string) (m : ConfigLoader.Manifest) :
  existsb ConfigLoader.is_next_config files = false ->
  existsb ConfigLoader.is_vite_config files = false ->
  match m with ConfigLoader.Parsed pkg => is_nullish pkg = true | _ => True end ->
  ConfigLoader.detectProjectType (ConfigLoader.MkRoot (Ok files) m) = Ok "common".
Proof.
  intros Hn Hv Hm. unfold ConfigLoader.detectProjectType. simpl. rewrite Hn, Hv.
  destruct m as [| | |pkg]; try reflexivity.
  simpl. unfold member. rewrite Hm. reflexivity.
Qed.

(** C7. The listing of the project root stands before the [try] block: when
    it throws, as on a root that the process may not read, detection throws
    and returns no type. *)
Theorem detectProjectType_throws (message : string) (m : ConfigLoader.Manifest) :
  ConfigLoader.detectProjectType (ConfigLoader.MkRoot (Throw message) m)
    = Throw message.
Proof. reflexivity. Qed.

(** ** The merge engine and the resolver *)

(** *** Properties and maps *)

Lemma lookup_set_prop_eq (key : string) (v : JsVal) (ps : Props) :
  lookup_prop key (set_prop key v ps) = Some v.
Proof.
  induction ps as [|[k w] ps IH]; simpl.
  - now rewrite String.eqb_refl.
  - destruct (String.eqb k key) eqn:E; simpl; rewrite E; [reflexivity | exact IH].
Qed.

Lemma lookup_set_prop_ne (key key' : string) (v : JsVal) (ps : Props) :
  key <> key' -> lookup_prop key' (set_prop key v ps) = lookup_prop key' ps.
Proof.
  intros Hne. induction ps as [|[k w] ps IH]; simpl.
  - destruct (String.eqb key key') eqn:E; [|reflexivity].
    apply String.eqb_eq in E. contradiction.
  - destruct (String.eqb k key) eqn:E; simpl.
    + apply String.eqb_eq in E. subst k.
      destruct (String.eqb key key') eqn:E'; [|reflexivity].
      apply String.eqb_eq in E'. contradiction.
    + destruct (String.eqb k key'); [reflexivity | exact IH].
Qed.

Lemma get_own (ps : Props) (key : string) (v : JsVal) :
  lookup_prop key ps = Some v -> get (JObj ps) key = v.
Proof. intros H. simpl. now rewrite H. Qed.

Lemma Forall_set_prop (P : string * JsVal -> Prop) (key : string) (v : JsVal)
    (ps : Props) :
  P (key, v) -> Forall P ps -> Forall P (set_prop key v ps).
Proof.
  intros Hv. induction 1 as [|[k w] ps Hk Hps IH]; simpl.
  - repeat constructor. exact Hv.
  - destruct (String.eqb k key) eqn:E.
    + apply String.eqb_eq in E. subst k. now constructor.
    + now constructor.
Qed.

Lemma lookup_prop_Forall (P : string * JsVal -> Prop) (key : string) (v : JsVal)
    (ps : Props) :
  Forall P ps -> lookup_prop key ps = Some v -> P (key, v).
Proof.
  induction 1 as [|[k w] ps Hk _ IH]; simpl; [discriminate|].
  destruct (String.eqb k key) eqn:E.
  - apply String.eqb_eq in E. subst k. now intros [= <-].
  - exact IH.
Qed.

Lemma Forall_assign_all (P : string * JsVal -> Prop) (b ps : Props) :
  Forall P b -> Forall P ps -> Forall P (assign_all ps b).
Proof.
  unfold assign_all. intros Hb. revert ps.
  induction Hb as [|[k v] b Hk _ IH]; intros ps Hps; simpl; [exact Hps|].
  apply IH. now apply Forall_set_prop.
Qed.

Lemma lookup_assign_all_keeps (key : string) (b ps : Props) :
  is_Some (lookup_prop key ps) -> is_Some (lookup_prop key (assign_all ps b)).
Proof.
  unfold assign_all. revert ps.
  induction b as [|[k v] b IH]; intros ps Hps; simpl; [exact Hps|].
  apply IH. destruct (String.eqb_spec k key) as [->|Hne].
  - rewrite lookup_set_prop_eq. eauto.
  - now rewrite lookup_set_prop_ne.
Qed.

Lemma lookup_assign_all_new (key : string) (b ps : Props) :
  is_Some (lookup_prop key b) -> is_Some (lookup_prop key (assign_all ps b)).
Proof.
  unfold assign_all. revert ps.
  induction b as [|[k v] b IH]; intros ps; simpl; [intros [? [=]]|].
  destruct (String.eqb_spec k key) as [->|Hne]; intros Hb.
  - apply (lookup_assign_all_keeps key b). rewrite lookup_set_prop_eq. eauto.
  - now apply IH.
Qed.

Lemma lookup_delete_prop_ne (key key' : string) (ps : Props) :
  key <> key' -> lookup_prop key' (delete_prop key ps) = lookup_prop key' ps.
Proof.
  intros Hne. unfold delete_prop.
  induction ps as [|[k w] ps IH]; [reflexivity|].
  simpl. destruct (String.eqb_spec k key) as [->|Hk]; simpl.
  - destruct (String.eqb_spec key key'); [contradiction | exact IH].
  - now rewrite IH.
Qed.

Lemma Forall_delete_prop (P : string * JsVal -> Prop) (key : string) (ps : Props) :
  Forall P ps -> Forall P (delete_prop key ps).
Proof.
  unfold delete_prop. intros H. apply List.Forall_forall. intros x Hx.
  apply List.filter_In in Hx as [Hx _].
  revert x Hx. now apply List.Forall_forall.
Qed.

(** *** mergeArrays returns items of its arguments *)

Lemma Forall_map_set (P : JsVal -> Prop) (k v : JsVal) (m : list (JsVal * JsVal)) :
  P v -> Forall (fun e => P (snd e)) m ->
  Forall (fun e => P (snd e)) (HooksConfig.map_set k v m).
Proof.
  intros Hv. induction 1 as [|[k' v'] m Hk Hm IH]; simpl.
  - repeat constructor. exact Hv.
  - destruct (strict_equals k' k); constructor; assumption.
Qed.

Lemma Forall_mergeArrays (P : JsVal -> Prop) (arr1 arr2 : list JsVal) :
  Forall P arr1 -> Forall P arr2 -> Forall P (HooksConfig.mergeArrays arr1 arr2).
Proof.
  intros H1 H2. unfold HooksConfig.mergeArrays.
  assert (Hc : Forall P (arr1 ++ arr2)) by now apply Forall_app.
  assert (Hm : Forall (fun e : JsVal * JsVal => P (snd e)) []) by constructor.
  revert Hm. generalize (@nil (JsVal * JsVal)) as m.
  induction Hc as [|x l Hx _ IH]; intros m Hm; simpl.
  - now apply Forall_fmap.
  - apply IH. now apply Forall_map_set.
Qed.

(** *** deepMerge in terms of its loop *)

Lemma deepMerge_unfold (target source : JsVal) :
  HooksConfig.deepMerge target source =
  if HooksConfig.isObject target && HooksConfig.isObject source then
    match source with
    | JObj entries =>
        JObj (HooksConfig.mergeEntries target entries (own_enumerable target))
    | _ => JObj (own_enumerable target)
    end
  else JObj (own_enumerable target).
Proof.
  destruct source as [| | | | | | |l|entries]; try reflexivity.
  simpl. destruct (HooksConfig.isObject target && _); [|reflexivity].
  f_equal. generalize (own_enumerable target) as output.
  induction entries as [|[key sk] rest IH]; intros output; [reflexivity|].
  simpl. rewrite IH. reflexivity.
Qed.

(** *** Hook sections through deepMerge *)

Lemma section_ok_is_object (s : JsVal) :
  Spec.section_ok s -> HooksConfig.isObject s = true.
Proof. intros (ps & -> & _). reflexivity. Qed.

Lemma mergeValue_entry_ok (target : JsVal) (key : string) (sk : JsVal) :
  Spec.section_ok target -> Spec.entry_ok (key, sk) ->
  Spec.entry_ok (key, HooksConfig.mergeValue target key sk).
Proof.
  intros (tps & -> & Ht) [He Hc]. simpl in He, Hc. split; simpl; intros ->.
  - destruct (He eq_refl) as [b ->]. exists b.
    unfold HooksConfig.mergeValue. destruct b; reflexivity.
  - destruct (Hc eq_refl) as (l & -> & Hl).
    unfold HooksConfig.mergeValue. simpl.
    destruct (lookup_prop "checks" tps) as [tv|] eqn:E; simpl.
    + apply (lookup_prop_Forall _ _ _ _ Ht) in E as [_ E]. simpl in E.
      destruct (E eq_refl) as (tl & -> & Htl). simpl.
      exists (HooksConfig.mergeArrays tl l). split; [reflexivity|].
      now apply Forall_mergeArrays.
    + exists l. split; [reflexivity | exact Hl].
Qed.

Lemma mergeEntries_section (target : JsVal) (entries output : Props) :
  Spec.section_ok target -> Forall Spec.entry_ok entries ->
  Forall Spec.entry_ok output ->
  Forall Spec.entry_ok (HooksConfig.mergeEntries target entries output).
Proof.
  intros Ht He. revert output.
  induction He as [|[k v] entries Hk He IH]; intros output Ho; simpl; [exact Ho|].
  apply IH. apply Forall_set_prop; [|exact Ho]. now apply mergeValue_entry_ok.
Qed.

Lemma mergeEntries_keeps (target : JsVal) (key : string) (entries output : Props) :
  is_Some (lookup_prop key output) ->
  is_Some (lookup_prop key (HooksConfig.mergeEntries target entries output)).
Proof.
  revert output. induction entries as [|[k v] entries IH]; intros output Ho; simpl;
    [exact Ho|].
  apply IH. destruct (String.eqb_spec k key) as [->|Hne].
  - rewrite lookup_set_prop_eq. eauto.
  - now rewrite lookup_set_prop_ne.
Qed.

(** Merging a section into a section gives a section, with [enabled] if
    the target had it. *)
Lemma deepMerge_section (target source : JsVal) :
  Spec.section_ok target -> Spec.section_ok source ->
  Spec.section_ok (HooksConfig.deepMerge target source)
  /\ (has_enabled target -> has_enabled (HooksConfig.deepMerge target source)).
Proof.
  intros Ht Hs. pose proof Ht as (tps & -> & Htps). destruct Hs as (sps & -> & Hsps).
  rewrite deepMerge_unfold. simpl. split.
  - eexists. split; [reflexivity|]. now apply mergeEntries_section.
  - intros (ps & [= <-] & He). eexists. split; [reflexivity|].
    now apply mergeEntries_keeps.
Qed.

(** *** The merged configuration *)

Lemma string_in_dec (k : string) (l : list string) : {In k l} + {~ In k l}.
Proof. apply in_dec, string_dec. Qed.

Lemma mergeEntries_merged (tps entries output : Props) :
  props_ok tps -> Forall Spec.top_ok entries -> props_ok output ->
  props_ok (HooksConfig.mergeEntries (JObj tps) entries output).
Proof.
  intros (Htop & Hall & Hdef) He. revert output.
  induction He as [|[k v] entries Hk He IH]; intros output Ho; simpl; [exact Ho|].
  apply IH. destruct Ho as (Ho1 & Ho2 & Ho3).
  destruct (string_in_dec k Spec.section_keys) as [Hin|Hout].
  - (* a hook section: merged into the section of the target *)
    destruct (Hall k Hin) as [s Hs].
    pose proof (lookup_prop_Forall _ _ _ _ Htop Hs Hin) as Hsok. simpl in Hsok.
    pose proof (Hk Hin) as Hvok. simpl in Hvok.
    assert (Hval : HooksConfig.mergeValue (JObj tps) k v = HooksConfig.deepMerge s v).
    { unfold HooksConfig.mergeValue.
      rewrite (section_ok_is_object v Hvok). simpl. rewrite Hs. reflexivity. }
    rewrite Hval. destruct (deepMerge_section s v Hsok Hvok) as [Hm1 Hm2].
    repeat split.
    + apply Forall_set_prop; [|exact Ho1]. intros _. exact Hm1.
    + intros k' Hk'. destruct (String.eqb_spec k k') as [->|Hne].
      * rewrite lookup_set_prop_eq. eauto.
      * rewrite lookup_set_prop_ne by exact Hne. now apply Ho2.
    + intros k' s' Hk'. destruct (String.eqb_spec k k') as [->|Hne].
      * rewrite lookup_set_prop_eq. intros [= <-]. apply Hm2. now apply (Hdef k').
      * rewrite lookup_set_prop_ne by exact Hne. now apply Ho3.
  - (* any other key: the sections stay as they are *)
    assert (Hne : forall k', In k' Spec.section_keys -> k <> k')
      by (intros k' Hk' ->; contradiction).
    repeat split.
    + apply Forall_set_prop; [|exact Ho1]. intros Hin. contradiction.
    + intros k' Hk'. rewrite lookup_set_prop_ne by now apply Hne. now apply Ho2.
    + intros k' s' Hk'. rewrite lookup_set_prop_ne; [now apply Ho3|].
      apply Hne. unfold defaults_keys, Spec.section_keys in *. simpl in *. tauto.
Qed.

Lemma deepMerge_merged (m layer : JsVal) :
  merged_ok m -> Spec.layer_ok layer -> merged_ok (HooksConfig.deepMerge m layer).
Proof.
  intros (ps & -> & Hps) Hl. rewrite deepMerge_unfold.
  destruct (HooksConfig.isObject (JObj ps) && HooksConfig.isObject layer);
    [destruct layer as [| | | | | | |l|entries]|]; simpl;
    try (exists ps; split; [reflexivity | exact Hps]).
  eexists. split; [reflexivity|]. now apply mergeEntries_merged.
Qed.

Lemma delete_key_merged (m : JsVal) :
  merged_ok m -> merged_ok (HooksConfig.delete_key "environments" m).
Proof.
  intros (ps & -> & Htop & Hall & Hdef). simpl. eexists. split; [reflexivity|].
  assert (Hne : forall k, In k Spec.section_keys -> "environments" <> k).
  { intros k Hk E. subst k. unfold Spec.section_keys in Hk. simpl in Hk.
    repeat destruct Hk as [Hk|Hk]; try discriminate Hk. exact Hk. }
  repeat split.
  - now apply Forall_delete_prop.
  - intros k Hk. rewrite lookup_delete_prop_ne by now apply Hne. now apply Hall.
  - intros k s Hk. rewrite lookup_delete_prop_ne; [now apply Hdef|].
    apply Hne. unfold defaults_keys, Spec.section_keys in *. simpl in *. tauto.
Qed.

(** *** Removing duplicate names *)

Lemma strict_equals_sym (a b : JsVal) : strict_equals a b = strict_equals b a.
Proof.
  destruct a, b; simpl; try reflexivity.
  - now destruct b, b0.
  - apply Z.eqb_sym.
  - apply String.eqb_sym.
Qed.

Lemma same_name_ok (j index : nat) (c check : JsVal) :
  Spec.non_nullish c -> Spec.non_nullish check ->
  HooksConfig.same_name j c index check = Ok (name_eq index check j c).
Proof.
  unfold HooksConfig.same_name, member, Spec.non_nullish. intros -> ->. reflexivity.
Qed.

Lemma findIndex_from_pure (index : nat) (check : JsVal) (l : list JsVal) (j : nat) :
  Spec.non_nullish check -> Forall Spec.non_nullish l ->
  HooksConfig.findIndex_from j (fun j c => HooksConfig.same_name j c index check) l
  = Ok (first_match j (name_eq index check) l).
Proof.
  intros Hc Hl. revert j. induction Hl as [|c l Hx Hl IH]; intros j; simpl;
    [reflexivity|].
  rewrite same_name_ok by assumption. simpl.
  destruct (name_eq index check j c); [reflexivity | apply IH].
Qed.

Lemma first_match_before (p : nat -> JsVal -> bool) (l : list JsVal) (j i : nat) :
  first_match j p l = Some i ->
  forall n c, l !! n = Some c -> j + n < i -> p (j + n) c = false.
Proof.
  revert j. induction l as [|x l IH]; intros j H n c Hn Hlt; [discriminate|].
  simpl in H. destruct (p j x) eqn:E.
  - injection H as <-. lia.
  - destruct n as [|n]; simpl in Hn.
    + injection Hn as <-. now rewrite Nat.add_0_r.
    + replace (j + S n) with (S j + n) by lia. apply (IH (S j) H n c Hn). lia.
Qed.

Lemma keep_first_from_spec (self : list JsVal) :
  Forall Spec.non_nullish self ->
  forall rest pre, self = pre ++ rest ->
  exists result,
    HooksConfig.keep_first_from (length pre) self rest = Ok result
    /\ (forall c, In c result -> forall c', In c' pre -> differ c' c)
    /\ ForallOrdPairs differ result.
Proof.
  intros Hself. induction rest as [|check rest IH]; intros pre Heq.
  - exists []. simpl. repeat split; [intros c []|constructor].
  - assert (Hcheck : Spec.non_nullish check).
    { rewrite List.Forall_forall in Hself. apply Hself. subst self.
      apply in_or_app. right. now left. }
    simpl. rewrite findIndex_from_pure by assumption. simpl.
    destruct (IH (pre ++ [check])) as (result & Hres & Hpre & Hpairs).
    { rewrite <- app_assoc. exact Heq. }
    rewrite length_app, Nat.add_1_r in Hres. rewrite Hres. simpl.
    destruct (decide (first_match 0 (name_eq (length pre) check) self
                      = Some (length pre))) as [Hfirst|_].
    + exists (check :: result). split; [reflexivity|]. split.
      * intros c [<-|Hc] c' Hc'.
        -- apply list_elem_of_In, list_elem_of_lookup in Hc' as [n Hn].
           pose proof (lookup_lt_Some _ _ _ Hn) as Hlt.
           assert (Hn' : self !! n = Some c')
             by (subst self; now rewrite lookup_app_l).
           pose proof (first_match_before _ _ _ _ Hfirst n c' Hn' Hlt) as Hp.
           simpl in Hp. unfold name_eq in Hp.
           apply orb_false_iff in Hp as [_ Hp]. exact Hp.
        -- apply (Hpre c Hc). apply in_or_app. now left.
      * constructor; [|exact Hpairs].
        apply List.Forall_forall. intros c Hc.
        apply (Hpre c Hc). apply in_or_app. right. now left.
    + exists result. split; [reflexivity|]. split; [|exact Hpairs].
      intros c Hc c' Hc'. apply (Hpre c Hc). apply in_or_app. now left.
Qed.

Lemma pairs_unique_names (l : list JsVal) :
  ForallOrdPairs differ l -> Spec.unique_names l.
Proof.
  assert (Hlt : forall l, ForallOrdPairs differ l ->
            forall i j ci cj, i < j -> l !! i = Some ci -> l !! j = Some cj ->
              differ ci cj).
  { clear l. induction 1 as [|a l Ha Hl IH]; intros i j ci cj Hij Hi Hj.
    - discriminate.
    - destruct j as [|j]; [lia|]. simpl in Hj. destruct i as [|i]; simpl in Hi.
      + injection Hi as <-. rewrite List.Forall_forall in Ha. apply Ha.
        apply list_elem_of_In, list_elem_of_lookup. eauto.
      + apply (IH i j); [lia | assumption | assumption]. }
  intros H i j ci cj Hne Hi Hj.
  destruct (Nat.lt_ge_cases i j) as [Hij|Hij].
  - now apply (Hlt l H i j).
  - unfold Spec.check_name. rewrite strict_equals_sym.
    apply (Hlt l H j i); [lia | assumption | assumption].
Qed.

(** On a list of descriptors the filter does not throw and leaves no two
    entries with one name. *)
Lemma uniqueByName_unique (self : list JsVal) :
  Forall Spec.non_nullish self ->
  exists result, HooksConfig.uniqueByName self = Ok result
                 /\ Spec.unique_names result.
Proof.
  intros H. destruct (keep_first_from_spec self H self [] eq_refl)
    as (result & Hres & _ & Hpairs).
  exists result. split; [exact Hres | now apply pairs_unique_names].
Qed.

(** *** One hook section of the result *)

Lemma section_checks (s : JsVal) :
  Spec.section_ok s ->
  exists l, or_else (opt_member s "checks") (JArr []) = JArr l
            /\ Forall Spec.non_nullish l.
Proof.
  intros (ps & -> & Hps). unfold opt_member. simpl.
  destruct (lookup_prop "checks" ps) as [v|] eqn:E.
  - apply (lookup_prop_Forall _ _ _ _ Hps) in E as [_ E]. simpl in E.
    destruct (E eq_refl) as (l & -> & Hl). exists l. split; [reflexivity | exact Hl].
  - exists []. split; [reflexivity | constructor].
Qed.

Lemma merged_section_enabled (d o : JsVal) (extra : Props -> Props) :
  Spec.section_ok d -> has_enabled d -> Spec.section_ok o ->
  (forall ps, lookup_prop "enabled" (extra ps) = lookup_prop "enabled" ps) ->
  Spec.is_bool
    (get (JObj (extra (assign_all (assign_all [] (own_enumerable d))
                                  (own_enumerable o)))) "enabled").
Proof.
  intros (dps & -> & Hd) (ps' & [= <-] & He) (ops & -> & Ho) Hextra. simpl.
  rewrite Hextra.
  assert (Hall : Forall Spec.entry_ok (assign_all (assign_all [] dps) ops))
    by (apply Forall_assign_all; [assumption|];
        apply Forall_assign_all; [assumption | constructor]).
  assert (Hsome : is_Some (lookup_prop "enabled" (assign_all (assign_all [] dps) ops)))
    by now apply lookup_assign_all_keeps, lookup_assign_all_new.
  destruct Hsome as [v Hv]. rewrite Hv.
  apply (lookup_prop_Forall _ _ _ _ Hall) in Hv as [Hv _]. now apply Hv.
Qed.

Lemma hookSection_resolved (d o : JsVal) :
  Spec.section_ok d -> has_enabled d -> Spec.section_ok o ->
  exists section,
    HooksConfig.hookSection d o = Ok section
    /\ Spec.is_bool (get section "enabled")
    /\ exists l, get section "checks" = JArr l /\ Spec.unique_names l.
Proof.
  intros Hd He Ho. unfold HooksConfig.hookSection, HooksConfig.sectionChecks.
  destruct (section_checks d Hd) as (a & -> & Ha).
  destruct (section_checks o Ho) as (b & -> & Hb). simpl.
  destruct (uniqueByName_unique (a ++ b)) as (checks & -> & Hu);
    [now apply Forall_app|]. simpl.
  eexists. split; [reflexivity|]. split.
  - apply (merged_section_enabled d o (set_prop "checks" (JArr checks)));
      try assumption.
    intros ps. now apply lookup_set_prop_ne.
  - exists checks. split; [|exact Hu]. simpl. now rewrite lookup_set_prop_eq.
Qed.

(** *** The base configuration and its overlays follow the schema *)

Ltac solve_entry :=
  split; simpl; intros Hkey;
  first [ discriminate Hkey
        | eexists; reflexivity
        | eexists; split; [reflexivity | repeat constructor] ].

Ltac solve_section :=
  eexists; split;
  [ reflexivity
  | repeat (apply List.Forall_cons; [solve_entry|]); apply List.Forall_nil ].

Ltac solve_top :=
  repeat (apply List.Forall_cons; [intros _; solve_section|]); apply List.Forall_nil.

Lemma common_config_ok (e : ProcessEnv) : merged_ok (CommonConfig.config e).
Proof.
  eexists. split; [reflexivity|]. split; [|split].
  - solve_top.
  - intros k Hk. unfold Spec.section_keys in Hk. simpl in Hk.
    repeat destruct Hk as [<-|Hk]; try contradiction; simpl; eauto.
  - intros k s Hk. unfold defaults_keys in Hk. simpl in Hk.
    repeat destruct Hk as [<-|Hk]; try contradiction; simpl; intros [= <-];
      (eexists; split; [reflexivity | simpl; eauto]).
Qed.

Lemma environment_cases (e : ProcessEnv) :
  In (HooksConfig.getEnvironment e) ["ci"; "production"; "test"; "development"].
Proof.
  unfold HooksConfig.getEnvironment.
  repeat match goal with |- context [if ?c then _ else _] => destruct c end;
    simpl; tauto.
Qed.

Lemma environment_overlay_ok (e : ProcessEnv) :
  Spec.layer_ok
    (or_else (opt_member (opt_member (CommonConfig.config e) "environments")
                         (HooksConfig.getEnvironment e))
             (JObj [])).
Proof.
  pose proof (environment_cases e) as H. simpl in H.
  repeat destruct H as [<-|H]; try contradiction; simpl; solve_top.
Qed.

Lemma loadProjectConfig_ok (modules : string -> HooksConfig.ConfigModule)
    (projectType : string) :
  Spec.modules_ok modules ->
  Spec.layer_ok (HooksConfig.loadProjectConfig modules projectType).
Proof.
  intros H. unfold HooksConfig.loadProjectConfig.
  destruct (String.eqb projectType "common"); [constructor|].
  specialize (H projectType).
  destruct (modules projectType) as [| |config|[config|msg]];
    try assumption; constructor.
Qed.

(** The configuration files of the repository hold no hook section. *)
Lemma repo_modules_ok : Spec.modules_ok HooksConfig.repo_modules.
Proof.
  intros projectType. unfold HooksConfig.repo_modules.
  destruct (String.eqb projectType "nextjs"); [simpl; solve_top|].
  destruct (String.eqb projectType "vite"); [simpl; solve_top | exact I].
Qed.

(** What the three merges of [getConfig] leave. *)
Lemma merged_config_ok (e : ProcessEnv) (modules : string -> HooksConfig.ConfigModule)
    (projectType : string) (userConfig : JsVal) :
  Spec.modules_ok modules -> Spec.layer_ok userConfig ->
  merged_ok
    (HooksConfig.deepMerge
       (HooksConfig.deepMerge
          (HooksConfig.delete_key "environments"
             (HooksConfig.deepMerge (CommonConfig.config e)
                (or_else (opt_member (opt_member (CommonConfig.config e) "environments")
                                     (HooksConfig.getEnvironment e))
                         (JObj []))))
          (HooksConfig.loadProjectConfig modules projectType))
       (match userConfig with JUndef => JObj [] | _ => userConfig end)).
Proof.
  intros Hm Hu.
  apply deepMerge_merged; [apply deepMerge_merged; [apply delete_key_merged,
    deepMerge_merged; [apply common_config_ok | apply environment_overlay_ok]
    | now apply loadProjectConfig_ok]|].
  destruct userConfig; try exact Hu. constructor.
Qed.

Lemma merged_sections (m : JsVal) (k : string) :
  merged_ok m -> In k Spec.section_keys ->
  Spec.section_ok (get m k) /\ (In k defaults_keys -> has_enabled (get m k)).
Proof.
  intros (ps & -> & Htop & Hall & Hdef) Hk.
  destruct (Hall k Hk) as [s Hs]. simpl. rewrite Hs. split.
  - now apply (lookup_prop_Forall _ _ _ _ Htop Hs).
  - intros Hd. now apply (Hdef k).
Qed.

(** *** Layers whose hook sections are not all objects

    The index names of an array or a string are digits, so that the copy of
    such a value by [{...v}] holds no [enabled] and no [checks]. *)

Lemma pretty_N_go_digit (x : N) :
  forall s, (0 < x)%N ->
    exists c t, pretty_N_go x s = String c t /\ 48 <= nat_of_ascii c <= 57.
Proof.
  induction (N.lt_wf_0 x) as [x _ IH]. intros s Hx.
  rewrite pretty_N_go_step by exact Hx.
  destruct (N.eq_dec (x `div` 10)%N 0%N) as [E|E].
  - rewrite E, pretty_N_go_0. eexists _, _. split; [reflexivity|].
    unfold pretty_N_char. repeat case_match; vm_compute; lia.
  - apply IH; [apply N.div_lt; lia | now apply N.neq_0_lt_0].
Qed.

Lemma index_key_digit (i : nat) :
  exists c t, index_key i = String c t /\ 48 <= nat_of_ascii c <= 57.
Proof.
  unfold index_key, pretty, pretty_nat, pretty, pretty_N.
  case_decide as E.
  - exists "0"%char, "". split; [reflexivity | vm_compute; lia].
  - apply pretty_N_go_digit. lia.
Qed.

Lemma index_key_entry_ok (i : nat) (v : JsVal) : Spec.entry_ok (index_key i, v).
Proof.
  destruct (index_key_digit i) as (c & t & E & Hc).
  split; simpl; rewrite E; intros [= -> _]; vm_compute in Hc; lia.
Qed.

Lemma own_entries_ok (s : JsVal) :
  merged_section s -> Forall Spec.entry_ok (own_enumerable s).
Proof.
  destruct s; simpl; try (intros _; constructor).
  - intros _. apply List.Forall_forall. intros kv Hin.
    apply List.in_map_iff in Hin as ([i x] & <- & _). apply index_key_entry_ok.
  - intros _. apply List.Forall_forall. intros kv Hin.
    apply List.in_map_iff in Hin as ([i x] & <- & _). apply index_key_entry_ok.
  - trivial.
Qed.

Lemma merged_section_checks (o : JsVal) :
  merged_section o ->
  exists l, or_else (opt_member o "checks") (JArr []) = JArr l
            /\ Forall Spec.non_nullish l.
Proof.
  destruct o as [| | | | | | | |ps];
    try (intros _; exists []; split; [reflexivity | constructor]).
  intros H. apply section_checks. now exists ps.
Qed.

Lemma section_ok_merged (s : JsVal) : Spec.section_ok s -> merged_section s.
Proof. now intros (ps & -> & H). Qed.

Lemma schema_section_merged (s : JsVal) : schema_section s -> merged_section s.
Proof.
  destruct s; simpl; trivial. intros H.
  eapply Forall_impl; [exact H|]. now intros kv [_ Hkv].
Qed.

Lemma mergeValue_entry_any (target : JsVal) (key : string) (sk : JsVal) :
  merged_section target -> Spec.entry_ok (key, sk) ->
  Spec.entry_ok (key, HooksConfig.mergeValue target key sk).
Proof.
  intros Ht Hsk.
  destruct target as [| | | | | | | |tps];
    try (apply mergeValue_entry_ok; [now exists tps | exact Hsk]);
    destruct Hsk as [He Hc]; simpl in He, Hc; (split; simpl; intros ->;
      [ destruct (He eq_refl) as [y ->]; exists y; now destruct y
      | destruct (Hc eq_refl) as (cl & -> & Hl); exists cl; split;
        [reflexivity | exact Hl] ]).
Qed.

Lemma mergeEntries_entries (target : JsVal) (entries output : Props) :
  merged_section target -> Forall Spec.entry_ok entries ->
  Forall Spec.entry_ok output ->
  Forall Spec.entry_ok (HooksConfig.mergeEntries target entries output).
Proof.
  intros Ht He. revert output.
  induction He as [|[k v] entries Hk He IH]; intros output Ho; simpl; [exact Ho|].
  apply IH. apply Forall_set_prop; [|exact Ho]. now apply mergeValue_entry_any.
Qed.

(** Merging a hook section of a layer into what the merges left so far. *)
Lemma deepMerge_hook (t v : JsVal) :
  merged_section t -> schema_section v ->
  merged_section (HooksConfig.deepMerge t v).
Proof.
  intros Ht Hv. rewrite deepMerge_unfold.
  destruct (HooksConfig.isObject t && HooksConfig.isObject v);
    [|now apply own_entries_ok].
  destruct v as [| | | | | | | |vps]; try now apply own_entries_ok.
  apply mergeEntries_entries; [exact Ht| |now apply own_entries_ok].
  now apply (schema_section_merged (JObj vps)).
Qed.

Lemma mergeValue_hook (tps : Props) (k : string) (v s : JsVal) :
  lookup_prop k tps = Some s -> merged_section s -> schema_section v ->
  merged_section (HooksConfig.mergeValue (JObj tps) k v).
Proof.
  intros Hs Ht Hv. unfold HooksConfig.mergeValue, has_property.
  rewrite Hs, (get_own _ _ _ Hs). cbn [negb].
  destruct (HooksConfig.isObject v) eqn:Eo; [now apply deepMerge_hook|].
  destruct (isArray v && isArray s); [exact I|].
  destruct v; try exact I. discriminate Eo.
Qed.

Lemma mergeValue_defaults (tps : Props) (k : string) (v s : JsVal) :
  lookup_prop k tps = Some s -> Spec.section_ok s -> has_enabled s ->
  HooksConfig.isObject v = true -> schema_section v ->
  Spec.section_ok (HooksConfig.mergeValue (JObj tps) k v)
  /\ has_enabled (HooksConfig.mergeValue (JObj tps) k v).
Proof.
  intros Hs Hok Hen Hobj Hv. unfold HooksConfig.mergeValue, has_property.
  rewrite Hs, (get_own _ _ _ Hs), Hobj. cbn [negb].
  destruct v as [| | | | | | r| |vps];
    try (unfold HooksConfig.isObject in Hobj; simpl in Hobj;
         rewrite ?andb_false_r in Hobj; discriminate Hobj).
  - destruct Hok as (sps & -> & Hsps). rewrite deepMerge_unfold. simpl.
    split; [now exists sps | exact Hen].
  - destruct (deepMerge_section s (JObj vps) Hok) as [H1 H2].
    + exists vps. split; [reflexivity|]. now apply (schema_section_merged (JObj vps)).
    + split; [exact H1 | now apply H2].
Qed.

Lemma keys_apart (k : string) : In k defaults_keys -> In k hook_keys -> False.
Proof.
  unfold defaults_keys, hook_keys. simpl.
  intros [<-|[<-|[<-|[]]]] H; repeat destruct H as [H|H]; try discriminate H;
    exact H.
Qed.

Lemma mergeEntries_loose (tps entries output : Props) :
  loose_props tps -> Forall schema_top entries -> loose_props output ->
  loose_props (HooksConfig.mergeEntries (JObj tps) entries output).
Proof.
  intros [Hd Hh] He. revert output.
  induction He as [|[k v] entries [Hkd Hkh] He IH]; intros output Ho; simpl;
    [exact Ho|].
  apply IH. destruct Ho as [Ho1 Ho2]. simpl in Hkd, Hkh. split.
  - intros k' Hk'. destruct (String.eqb_spec k k') as [->|Hne].
    + rewrite lookup_set_prop_eq.
      destruct (Hd k' Hk') as (s & Hs & Hok & Hen).
      destruct (Hkd Hk') as [Hobj Hv].
      destruct (mergeValue_defaults tps k' v s Hs Hok Hen Hobj Hv) as [H1 H2].
      eauto.
    + rewrite lookup_set_prop_ne by exact Hne. now apply Ho1.
  - intros k' Hk'. destruct (String.eqb_spec k k') as [->|Hne].
    + rewrite lookup_set_prop_eq.
      destruct (Hh k' Hk') as (s & Hs & Hok).
      eexists. split; [reflexivity|].
      now apply (mergeValue_hook tps k' v s Hs Hok), Hkh.
    + rewrite lookup_set_prop_ne by exact Hne. now apply Ho2.
Qed.

Lemma deepMerge_loose (m layer : JsVal) :
  loose_ok m -> follows_schema layer -> loose_ok (HooksConfig.deepMerge m layer).
Proof.
  intros (ps & -> & Hps) Hl. rewrite deepMerge_unfold.
  destruct (HooksConfig.isObject (JObj ps) && HooksConfig.isObject layer);
    [destruct layer as [| | | | | | |l|entries]|]; simpl;
    try (exists ps; split; [reflexivity | exact Hps]).
  eexists. split; [reflexivity|]. now apply mergeEntries_loose.
Qed.

Lemma merged_ok_loose (m : JsVal) : merged_ok m -> loose_ok m.
Proof.
  intros (ps & -> & Htop & Hall & Hdef). exists ps. split; [reflexivity|].
  assert (Hkeys : forall k, In k defaults_keys \/ In k hook_keys ->
            In k Spec.section_keys)
    by (unfold defaults_keys, hook_keys, Spec.section_keys; simpl; tauto).
  split.
  - intros k Hk. destruct (Hall k) as [s Hs]; [apply Hkeys; tauto|].
    exists s. split; [exact Hs|]. split; [|now apply (Hdef k)].
    apply (lookup_prop_Forall _ _ _ _ Htop Hs). apply Hkeys. tauto.
  - intros k Hk. destruct (Hall k) as [s Hs]; [apply Hkeys; tauto|].
    exists s. split; [exact Hs|]. apply section_ok_merged.
    apply (lookup_prop_Forall _ _ _ _ Htop Hs). apply Hkeys. tauto.
Qed.

Lemma merged_section_enabled_any (d o : JsVal) (extra : Props -> Props) :
  Spec.section_ok d -> has_enabled d -> merged_section o ->
  (forall ps, lookup_prop "enabled" (extra ps) = lookup_prop "enabled" ps) ->
  Spec.is_bool
    (get (JObj (extra (assign_all (assign_all [] (own_enumerable d))
                                  (own_enumerable o)))) "enabled").
Proof.
  intros (dps & -> & Hd) (ps' & [= <-] & He) Ho Hextra.
  apply own_entries_ok in Ho. cbn [get own_enumerable].
  rewrite Hextra.
  set (ops := own_enumerable o) in *.
  assert (Hall : Forall Spec.entry_ok (assign_all (assign_all [] dps) ops))
    by (apply Forall_assign_all; [assumption|];
        apply Forall_assign_all; [assumption | constructor]).
  assert (Hsome : is_Some (lookup_prop "enabled" (assign_all (assign_all [] dps) ops)))
    by now apply lookup_assign_all_keeps, lookup_assign_all_new.
  destruct Hsome as [v Hv]. rewrite Hv.
  apply (lookup_prop_Forall _ _ _ _ Hall) in Hv as [Hv _]. now apply Hv.
Qed.

Lemma hookSection_resolved_any (d o : JsVal) :
  Spec.section_ok d -> has_enabled d -> merged_section o ->
  exists section,
    HooksConfig.hookSection d o = Ok section
    /\ Spec.is_bool (get section "enabled")
    /\ exists l, get section "checks" = JArr l /\ Spec.unique_names l.
Proof.
  intros Hd He Ho. unfold HooksConfig.hookSection, HooksConfig.sectionChecks.
  destruct (section_checks d Hd) as (a & -> & Ha).
  destruct (merged_section_checks o Ho) as (b & -> & Hb). simpl.
  destruct (uniqueByName_unique (a ++ b)) as (checks & -> & Hu);
    [now apply Forall_app|]. simpl.
  eexists. split; [reflexivity|]. split.
  - apply (merged_section_enabled_any d o (set_prop "checks" (JArr checks)));
      try assumption.
    intros ps. now apply lookup_set_prop_ne.
  - exists checks. split; [|exact Hu]. simpl. now rewrite lookup_set_prop_eq.
Qed.

(** What the three merges of [getConfig] leave. *)
Lemma merged_config_loose (e : ProcessEnv) (modules : string -> HooksConfig.ConfigModule)
    (projectType : string) (userConfig : JsVal) :
  follows_schema (HooksConfig.loadProjectConfig modules projectType) ->
  follows_schema userConfig ->
  loose_ok
    (HooksConfig.deepMerge
       (HooksConfig.deepMerge
          (HooksConfig.delete_key "environments"
             (HooksConfig.deepMerge (CommonConfig.config e)
                (or_else (opt_member (opt_member (CommonConfig.config e) "environments")
                                     (HooksConfig.getEnvironment e))
                         (JObj []))))
          (HooksConfig.loadProjectConfig modules projectType))
       (match userConfig with JUndef => JObj [] | _ => userConfig end)).
Proof.
  intros Hm Hu.
  apply deepMerge_loose; [apply deepMerge_loose; [|exact Hm]|].
  - apply merged_ok_loose, delete_key_merged, deepMerge_merged;
      [apply common_config_ok | apply environment_overlay_ok].
  - destruct userConfig; try exact Hu. constructor.
Qed.

Ltac solve_plain :=
  repeat (apply List.Forall_cons;
          [split; [simpl; discriminate | solve_entry]|]);
  apply List.Forall_nil.

Ltac solve_schema_section := first [exact I | simpl; solve_plain].

Ltac solve_schema :=
  repeat (apply List.Forall_cons;
          [ split;
            [ intros Hkey; simpl in Hkey;
              repeat (destruct Hkey as [Hkey|Hkey]; try discriminate Hkey);
              try contradiction;
              (clear Hkey; split; [reflexivity | solve_schema_section])
            | intros Hkey; simpl in Hkey;
              repeat (destruct Hkey as [Hkey|Hkey]; try discriminate Hkey);
              try contradiction;
              (clear Hkey; solve_schema_section) ]
          |]);
  apply List.Forall_nil.

(** C6, as amended.  For every environment, every project type and every
    layer of overrides, if the project overlay and the overrides follow the
    schema, [getConfig] returns a configuration in which the sections
    [preCommit], [prePush] and [commitMsg] each have a boolean [enabled],
    and the [checks] of [preCommit] and of [prePush] hold no two entries
    with one name.  The schema asks of a layer that is an object: each
    defaults section it holds ([preCommitDefaults], [prePushDefaults],
    [commitMsgDefaults]) is an object and no array; and in each of the six
    hook sections it holds that is an object with properties, no property is
    named [__proto__], [enabled], where present, is a boolean, and
    [checks], where present, is a list without [null] or [undefined]. *)
Theorem getConfig_resolved (e : ProcessEnv)
    (modules : string -> HooksConfig.ConfigModule) (projectType : string)
    (userConfig : JsVal) :
  follows_schema (HooksConfig.loadProjectConfig modules projectType) ->
  follows_schema userConfig ->
  exists cfg,
    HooksConfig.getConfig e modules projectType userConfig = Ok cfg
    /\ Spec.resolved cfg.
Proof.
  intros Hm Hu. unfold HooksConfig.getConfig.
  destruct (merged_config_loose e modules projectType userConfig Hm Hu)
    as (ps & Eq & Hd & Hh).
  set (merged := HooksConfig.deepMerge _ _) in *. rewrite Eq.
  assert (Hdef : forall k, In k defaults_keys ->
            Spec.section_ok (get (JObj ps) k) /\ has_enabled (get (JObj ps) k)).
  { intros k Hk. destruct (Hd k Hk) as (s & Hs & H1 & H2).
    rewrite (get_own _ _ _ Hs). tauto. }
  assert (Hhook : forall k, In k hook_keys -> merged_section (get (JObj ps) k)).
  { intros k Hk. destruct (Hh k Hk) as (s & Hs & H1).
    now rewrite (get_own _ _ _ Hs). }
  destruct (hookSection_resolved_any (get (JObj ps) "preCommitDefaults")
              (get (JObj ps) "preCommit")) as (preCommit & -> & Hpc1 & Hpc2);
    try (apply Hdef; simpl; tauto); try (apply Hhook; simpl; tauto).
  destruct (hookSection_resolved_any (get (JObj ps) "prePushDefaults")
              (get (JObj ps) "prePush")) as (prePush & -> & Hpp1 & Hpp2);
    try (apply Hdef; simpl; tauto); try (apply Hhook; simpl; tauto).
  cbn [res_bind]. eexists. split; [reflexivity|].
  unfold Spec.resolved, Spec.enabled_resolved, Spec.checks_unique.
  repeat split; try assumption.
  apply (merged_section_enabled_any (get (JObj ps) "commitMsgDefaults")
           (get (JObj ps) "commitMsg") (fun ps => ps));
    try (apply Hdef; simpl; tauto); try (apply Hhook; simpl; tauto).
  reflexivity.
Qed.

Lemma getConfig_resolved_witness :
  exists cfg,
    HooksConfig.getConfig Samples.production HooksConfig.repo_modules "nextjs"
      Samples.lintOff = Ok cfg
    /\ Spec.resolved cfg.
Proof.
  apply (getConfig_resolved Samples.production HooksConfig.repo_modules "nextjs"
           Samples.lintOff).
  - simpl. solve_schema.
  - simpl. solve_schema.
Defined.

(** C6, as the specification states it, fails on overrides that leave
    [enabled] unset: the resolver copies the property as it is, and the
    section [preCommit] of the result has an [enabled] that is [undefined].
    The other conditions of the schema are needed as well: overrides that
    put [null] in the place of a defaults section leave the hook without its
    [enabled], and on a [checks] that holds [null], or that is a number,
    [getConfig] throws. *)
Lemma getConfig_enabled_not_resolved :
  (exists cfg,
     HooksConfig.getConfig Samples.dev HooksConfig.repo_modules "common"
       Samples.enabledUnset = Ok cfg
     /\ get (get cfg "preCommit") "enabled" = JUndef
     /\ ~ Spec.resolved cfg)
  /\ (exists cfg,
        HooksConfig.getConfig Samples.dev HooksConfig.repo_modules "common"
          (JObj [("preCommitDefaults", JNull)]) = Ok cfg
        /\ get (get cfg "preCommit") "enabled" = JUndef
        /\ ~ Spec.resolved cfg)
  /\ (exists message,
        HooksConfig.getConfig Samples.dev HooksConfig.repo_modules "common"
          (JObj [("preCommit", JObj [("checks", JArr [JNull])])]) = Throw message)
  /\ (exists message,
        HooksConfig.getConfig Samples.dev HooksConfig.repo_modules "common"
          (JObj [("preCommit", JObj [("checks", JNum 5)])]) = Throw message).
Proof.
  split; [|split; [|split]].
  - eexists. split; [vm_compute; reflexivity|]. split; [vm_compute; reflexivity|].
    intros ([b Hb] & _). vm_compute in Hb. discriminate Hb.
  - eexists. split; [vm_compute; reflexivity|]. split; [vm_compute; reflexivity|].
    intros ([b Hb] & _). vm_compute in Hb. discriminate Hb.
  - eexists. vm_compute. reflexivity.
  - eexists. vm_compute. reflexivity.
Qed.

(** *** Which of two descriptors with one name survives *)

(** In [mergeArrays] the later array gives the object and the earlier one the
    place: the example of the specification. *)
Lemma mergeArrays_later_object :
  HooksConfig.mergeArrays
    [ JObj [("name", JStr "a"); ("enabled", JBool true)] ]
    [ JObj [("name", JStr "a"); ("enabled", JBool false)];
      JObj [("name", JStr "b"); ("enabled", JBool true)] ]
  = [ JObj [("name", JStr "a"); ("enabled", JBool false)];
      JObj [("name", JStr "b"); ("enabled", JBool true)] ].
Proof. vm_compute. reflexivity. Qed.

(** The same two lists, met as the [checks] of a defaults section and of its
    overriding section, leave the object of the defaults. *)
Lemma sectionChecks_first_object :
  HooksConfig.sectionChecks
    (JObj [("checks", JArr [ JObj [("name", JStr "a"); ("enabled", JBool true)] ])])
    (JObj [("checks", JArr [ JObj [("name", JStr "a"); ("enabled", JBool false)];
                             JObj [("name", JStr "b"); ("enabled", JBool true)] ])])
  = Ok [ JObj [("name", JStr "a"); ("enabled", JBool true)];
         JObj [("name", JStr "b"); ("enabled", JBool true)] ].
Proof. vm_compute. reflexivity. Qed.

(** C2. Where the list of a defaults section and the list of the section
    that overrides it carry one name, the resolved [checks] keep the object of
    the defaults, the lower layer.  In production the overlay of the
    environment switches the check [test] of the pre-push hook on, and the
    resolved list holds the entry of [prePushDefaults], switched off and with
    its options; overrides that switch [lint-staged] off leave the resolved
    pre-commit list as the defaults have it. *)
Theorem resolved_checks_keep_defaults :
  get (get (Samples.resolvedConfig Samples.production "common" JUndef) "prePush")
      "checks"
  = JArr [ CommonConfig.check "build" true true
             [("production", JBool false); ("sourceMap", JBool true)];
           CommonConfig.check "test" false false
             [("watch", JBool false); ("coverage", JBool false)] ]
  /\ get (get (Samples.resolvedConfig Samples.dev "common" Samples.lintOff)
              "preCommit") "checks"
  = get (get (Samples.resolvedConfig Samples.dev "common" JUndef) "preCommit")
        "checks"
  /\ In (CommonConfig.check "lint-staged" true true
           [("stagedOnly", JBool true); ("allowEmpty", JBool false);
            ("autoFix", JBool true)])
        (HooksConfig.as_items
           (get (get (Samples.resolvedConfig Samples.dev "common" Samples.lintOff)
                     "preCommit") "checks")).
Proof. vm_compute. repeat split; try reflexivity. left. reflexivity. Qed.

(** ** The merge engine leaves its arguments as they are *)

Section HeapFacts.

Import Heap.

Lemma unchanged_trans (h1 h2 h3 : heap) :
  unchanged h1 h2 -> unchanged h2 h3 -> unchanged h1 h3.
Proof. intros H12 H23 l c H. apply H23, H12, H. Qed.

Lemma unchanged_alloc (h : heap) (c : cell) : unchanged h (h ++ [c]).
Proof. intros l c' H. now apply lookup_app_l_Some. Qed.

Lemma lookup_alloc (h : heap) (c : cell) : (h ++ [c]) !! length h = Some c.
Proof. apply list_lookup_middle. reflexivity. Qed.

(** An assignment to a property of an object allocated after [h0] changes no
    cell of [h0]. *)
Lemma unchanged_store (h0 h : heap) (l : nat) (key : string) (v : val) :
  length h0 <= l -> unchanged h0 h -> unchanged h0 (store h l key v).
Proof.
  intros Hl Hu l' c Hc. unfold store.
  destruct (h !! l) as [[ps|items|r]|]; simpl; try (now apply Hu).
  assert (l' <> l) by (apply lookup_lt_Some in Hc; lia).
  rewrite list_lookup_insert_ne by congruence. now apply Hu.
Qed.

Lemma store_keeps_object (h : heap) (l : nat) (key : string) (v : val) :
  (exists ps, h !! l = Some (CObj ps)) ->
  exists ps, store h l key v !! l = Some (CObj ps).
Proof.
  intros [ps Hps]. unfold store. rewrite Hps. eexists.
  apply list_lookup_insert_eq. now apply lookup_lt_Some in Hps.
Qed.

Lemma mergeArrays_unchanged (h h' : heap) (a b : val) (r : Res val) :
  mergeArrays h a b = (h', r) -> unchanged h h'.
Proof.
  unfold mergeArrays. simpl.
  destruct (collect _ _ _); intros [= <- <-].
  - eapply unchanged_trans; apply unchanged_alloc.
  - apply unchanged_alloc.
Qed.

(** The loop writes to the object at [out] only, which is younger than [h0]. *)
Lemma mergeKeys_frame
    (recurse : heap -> val -> val -> option (heap * Res val))
    (target source : val) (out : nat) (h0 : heap) :
  (forall h t s h' r, recurse h t s = Some (h', r) -> unchanged h h') ->
  length h0 <= out ->
  forall ks h h' r,
    unchanged h0 h -> (exists ps, h !! out = Some (CObj ps)) ->
    mergeKeys recurse target source out ks h = Some (h', r) ->
    unchanged h0 h' /\ (exists ps, h' !! out = Some (CObj ps))
    /\ (forall v, r = Ok v -> v = VRef out).
Proof.
  intros Hrec Hout. induction ks as [|key ks IH]; intros h h' r Hu Hobj H; simpl in H.
  - injection H as <- <-. repeat split; try assumption. now intros v [= <-].
  - assert (Hstore : forall hc v,
              unchanged h0 hc -> (exists ps, hc !! out = Some (CObj ps)) ->
              mergeKeys recurse target source out ks (store hc out key v)
                = Some (h', r) ->
              unchanged h0 h' /\ (exists ps, h' !! out = Some (CObj ps))
              /\ (forall v, r = Ok v -> v = VRef out)).
    { intros hc v Hc Ho. apply IH.
      - now apply unchanged_store.
      - now apply store_keeps_object. }
    destruct (isObject h (get h source key)).
    + destruct (negb (has_property h target key));
        [exact (Hstore h _ Hu Hobj H)|].
      destruct (recurse h (get h target key) (get h source key))
        as [[h1 [merged|e]]|] eqn:E; try discriminate;
        pose proof (Hrec _ _ _ _ _ E) as H1;
        assert (Hu1 : unchanged h0 h1) by (eapply unchanged_trans; eassumption);
        assert (Ho1 : exists ps, h1 !! out = Some (CObj ps))
          by (destruct Hobj as [ps Hps]; exists ps; now apply H1).
      * exact (Hstore h1 merged Hu1 Ho1 H).
      * injection H as <- <-. repeat split; try assumption. discriminate.
    + destruct (isArray h (get h source key) && isArray h (get h target key));
        [|exact (Hstore h _ Hu Hobj H)].
      destruct (mergeArrays h (get h target key) (get h source key))
        as [h1 [merged|e]] eqn:E;
        pose proof (mergeArrays_unchanged _ _ _ _ _ E) as H1;
        assert (Hu1 : unchanged h0 h1) by (eapply unchanged_trans; eassumption);
        assert (Ho1 : exists ps, h1 !! out = Some (CObj ps))
          by (destruct Hobj as [ps Hps]; exists ps; now apply H1).
      * exact (Hstore h1 merged Hu1 Ho1 H).
      * injection H as <- <-. repeat split; try assumption. discriminate.
Qed.

(** Whenever [deepMerge] comes back, by a return or by a throw, every cell
    of the heap it was called in is as it was, and what it returns is an
    object allocated during the call. *)
Lemma deepMerge_frame (fuel : nat) :
  forall (h : heap) (target source : val) (h' : heap) (r : Res val),
    deepMerge fuel h target source = Some (h', r) ->
    unchanged h h' /\ (forall v, r = Ok v -> is_object_at h' v (length h)).
Proof.
  induction fuel as [|fuel IH]; intros h target source h' r H; [discriminate|].
  simpl in H.
  destruct (isObject _ target && isObject _ source).
  - apply (mergeKeys_frame (deepMerge fuel) target source (length h) h) in H
      as (Hu & Hobj & Hr).
    + split; [exact Hu|]. intros v Hv. split; [now apply Hr | exact Hobj].
    + intros hc t s hc' rc Hc. now apply IH in Hc.
    + reflexivity.
    + apply unchanged_alloc.
    + eexists. apply lookup_alloc.
  - injection H as <- <-. split; [apply unchanged_alloc|].
    intros v [= <-]. split; [reflexivity|]. eexists. apply lookup_alloc.
Qed.

End HeapFacts.

(** *** Trees in the heap *)

Section TreeFacts.

Import Heap.

Lemma tree_le_mono (h : heap) (n : nat) :
  forall v, tree_le h n v -> tree_le h (S n) v.
Proof.
  induction n as [|n IH]; intros v; destruct v as [| | | | | |l]; try (intros; exact I).
  - intros [].
  - simpl. destruct (h !! l) as [c|]; [|intros []].
    intros H. simpl in IH. eapply Forall_impl; [exact H|]. exact IH.
Qed.

Lemma tree_le_unchanged (h h' : heap) (n : nat) :
  unchanged h h' -> forall v, tree_le h n v -> tree_le h' n v.
Proof.
  intros Hu. induction n as [|n IH]; intros v; destruct v as [| | | | | |l];
    try (intros; exact I).
  - intros [].
  - simpl. destruct (h !! l) as [c|] eqn:E; [|intros []].
    rewrite (Hu l c E). intros H. eapply Forall_impl; [exact H | exact IH].
Qed.

Lemma tree_le_child (h : heap) (n l : nat) (c : cell) (x : val) :
  tree_le h (S n) (VRef l) -> h !! l = Some c -> In x (children c) ->
  tree_le h n x.
Proof.
  simpl. intros H Hc Hx. rewrite Hc in H.
  rewrite List.Forall_forall in H. now apply H.
Qed.

Lemma tree_le_reach (h : heap) (v w : val) :
  reach h v w -> forall n, tree_le h (S n) v -> tree_le h n w.
Proof.
  induction 1 as [l c x Hc Hx | l c x y Hc Hx Hreach IH]; intros n Hn.
  - now apply (tree_le_child h n l c).
  - pose proof (tree_le_child h n l c x Hn Hc Hx) as Hx'.
    destruct n as [|n].
    + destruct Hreach; destruct Hx'.
    + apply tree_le_mono, IH, Hx'.
Qed.

(** Nothing in a tree contains itself. *)
Lemma tree_acyclic (h : heap) (n l : nat) :
  tree_le h n (VRef l) -> ~ reach h (VRef l) (VRef l).
Proof.
  induction n as [|n IH]; intros Hn Hr; [exact Hn|].
  apply IH; [|exact Hr]. now apply (tree_le_reach h (VRef l)).
Qed.

Lemma reach_snoc (h : heap) (v : val) (l : nat) (c : cell) (x : val) :
  reach h v (VRef l) -> h !! l = Some c -> In x (children c) -> reach h v x.
Proof.
  intros Hr Hc Hx. remember (VRef l) as w eqn:Ew.
  induction Hr as [l' c' x' Hc' Hx' | l' c' x' y Hc' Hx' Hr IH]; subst.
  - eapply reach_more; [exact Hc' | exact Hx' |]. now apply (reach_child h l c).
  - eapply reach_more; [exact Hc' | exact Hx' |]. now apply IH.
Qed.

Lemma on_stack_In (l : nat) (stack : list nat) :
  on_stack l stack = true <-> In l stack.
Proof.
  unfold on_stack. rewrite existsb_exists. split.
  - intros (x & Hx & E). apply Nat.eqb_eq in E. now subst.
  - intros H. exists l. split; [exact H | apply Nat.eqb_refl].
Qed.

Lemma stack_bound (h : heap) (stack : list nat) :
  NoDup stack -> (forall a, In a stack -> a < length h) ->
  length stack <= length h.
Proof.
  intros Hnd Hlt. rewrite <- (List.length_seq (length h) 0).
  apply NoDup_incl_length; [now apply NoDup_ListNoDup|].
  intros a Ha. apply in_seq. specialize (Hlt a Ha). lia.
Qed.

(** [JSON.stringify] does not throw on a tree. *)
Lemma stringify_at_tree (h : heap) (n : nat) :
  forall (v : val) (fuel : nat) (stack : list nat),
    tree_le h n v -> NoDup stack ->
    (forall a, In a stack -> a < length h /\ reach h (VRef a) v) ->
    length h <= length stack + fuel ->
    exists t, stringify_at fuel stack h v = Ok t.
Proof.
  induction n as [|n IH]; intros v fuel stack Hv Hnd Hst Hfuel;
    destruct v as [| |b|z|s|f|l]; try (destruct fuel; simpl; eauto; fail).
  - destruct Hv.
  - assert (Hoff : on_stack l stack = false).
    { destruct (on_stack l stack) eqn:E; [|reflexivity].
      apply on_stack_In, Hst in E as [_ E].
      now apply (tree_acyclic h (S n) l) in E. }
    pose proof Hv as Hv'. simpl in Hv'.
    destruct (h !! l) as [c|] eqn:Hc; [|destruct Hv'].
    assert (Hl : l < length h) by now apply lookup_lt_Some in Hc.
    assert (Hnd' : NoDup (l :: stack)).
    { apply NoDup_cons. split; [|exact Hnd].
      intros Hin. apply list_elem_of_In, on_stack_In in Hin. congruence. }
    assert (Hst' : forall x, In x (children c) ->
              forall a, In a (l :: stack) -> a < length h /\ reach h (VRef a) x).
    { intros x Hx a [<-|Ha].
      - split; [exact Hl | now apply (reach_child h l c)].
      - destruct (Hst a Ha) as [Ha1 Ha2]. split; [exact Ha1|].
        now apply (reach_snoc h (VRef a) l c). }
    assert (Hlen : S (length stack) <= length h).
    { apply (stack_bound h (l :: stack) Hnd'). intros a [<-|Ha]; [exact Hl|].
      now apply Hst. }
    destruct fuel as [|fuel]; [lia|].
    assert (Hkid : forall x, In x (children c) ->
              exists t, stringify_at fuel (l :: stack) h x = Ok t).
    { intros x Hx. apply IH.
      - rewrite List.Forall_forall in Hv'. now apply Hv'.
      - exact Hnd'.
      - now apply Hst'.
      - simpl. lia. }
    simpl. rewrite Hoff, Hc. destruct c as [ps|items|r]; simpl in Hkid.
    + match goal with
      | |- context [res_bind (?f ps) _] =>
          assert (Hall : forall qs, (forall x, In x (map snd qs) -> In x (map snd ps)) ->
                    exists parts, f qs = Ok parts)
      end.
      { induction qs as [|[k x] qs IHq]; intros Hsub; [eauto|].
        destruct (Hkid x) as [t Ht]; [apply Hsub; now left|].
        destruct IHq as [ts Hts]; [intros y Hy; apply Hsub; now right|].
        rewrite Ht. simpl. rewrite Hts. simpl. eauto. }
      destruct (Hall ps) as [parts ->]; [auto|]. simpl. eauto.
    + match goal with
      | |- context [res_bind (?f items) _] =>
          assert (Hall : forall xs, (forall x, In x xs -> In x items) ->
                    exists parts, f xs = Ok parts)
      end.
      { induction xs as [|x xs IHx]; intros Hsub; [eauto|].
        destruct (Hkid x) as [t Ht]; [apply Hsub; now left|].
        destruct IHx as [ts Hts]; [intros y Hy; apply Hsub; now right|].
        rewrite Ht. simpl. rewrite Hts. simpl. eauto. }
      destruct (Hall items) as [parts ->]; [auto|]. simpl. eauto.
    + eauto.
Qed.

Lemma JSON_stringify_tree (h : heap) (n : nat) (v : val) :
  tree_le h n v -> exists r, JSON_stringify h v = Ok r.
Proof.
  intros Hv. unfold JSON_stringify.
  destruct (stringify_at_tree h n v (length h) [] Hv) as [t ->].
  - constructor.
  - intros a [].
  - simpl. lia.
  - simpl. eauto.
Qed.

End TreeFacts.

(** *** deepMerge on trees *)

Section MergeOnTrees.

Import Heap.

Lemma get_tree (h : heap) (n : nat) (o : val) (key : string) :
  tree_le h (S n) o -> tree_le h n (get h o key).
Proof.
  intros Ho. unfold get, find_property.
  assert (Hin : forall v, inherited key = Some v -> tree_le h n v).
  { unfold inherited. destruct (index_of _ _ _); intros v [= <-].
    destruct n; exact I. }
  assert (Hdef : tree_le h n (default VUndef (inherited key))).
  { destruct (inherited key) as [v|] eqn:E; simpl; [now apply Hin|].
    destruct n; exact I. }
  destruct o as [| |b|z|s|f|l]; try exact Hdef; try (destruct n; exact I).
  destruct (h !! l) as [[ps|items|r]|] eqn:Hc; try exact Hdef;
    [| |destruct n; exact I].
  - destruct (lookup_prop key ps) as [v|] eqn:E; [|exact Hdef]. simpl.
    apply (tree_le_child h n l (CObj ps)); [exact Ho | exact Hc|].
    simpl. clear -E. induction ps as [|[k w] ps IH]; [discriminate|].
    simpl in E. destruct (String.eqb k key).
    + injection E as <-. now left.
    + right. now apply IH.
  - destruct (regexp_prop r key) as [v|] eqn:E; [|exact Hdef]. simpl.
    unfold regexp_prop in E.
    repeat match type of E with
           | (if ?c then _ else _) = _ => destruct c
           | match ?c with _ => _ end = _ => destruct c
           end; try discriminate; injection E as <-; destruct n; exact I.
Qed.

Lemma items_tree (h : heap) (n : nat) (a : val) :
  tree_le h n a -> Forall (is_tree h) (items h a).
Proof.
  intros Ha. destruct a as [| | | | | |l]; try constructor.
  simpl. destruct (h !! l) as [[ps|its|r]|] eqn:Hc; try constructor.
  destruct n as [|n]; [destruct Ha|].
  apply List.Forall_forall. intros x Hx. exists n.
  now apply (tree_le_child h n l (CArr its)).
Qed.

Lemma map_key_tree (h : heap) (item : val) :
  is_tree h item -> exists k, map_key h item = Ok k.
Proof.
  intros [n Hn]. unfold map_key.
  destruct (_ && _); [eauto | now apply (JSON_stringify_tree h n)].
Qed.

Lemma collect_tree (h : heap) (combined : list val) :
  Forall (is_tree h) combined ->
  forall unique, exists result, collect h combined unique = Ok result.
Proof.
  induction 1 as [|item rest Hitem Hrest IH]; intros unique; simpl; [eauto|].
  destruct (map_key_tree h item Hitem) as [k ->]. simpl. apply IH.
Qed.

(** [mergeArrays] returns on arrays of trees. *)
Lemma mergeArrays_tree (h : heap) (n : nat) (a b : val) :
  tree_le h n a -> tree_le h n b ->
  exists h' merged, mergeArrays h a b = (h', Ok merged).
Proof.
  intros Ha Hb. unfold mergeArrays. simpl.
  set (combined := items h a ++ items h b).
  assert (Hc : Forall (is_tree h) combined)
    by (apply Forall_app; split; eapply items_tree; eassumption).
  assert (Hc' : Forall (is_tree (h ++ [CArr combined])) combined).
  { eapply Forall_impl; [exact Hc|]. intros x [m Hm]. exists m.
    eapply tree_le_unchanged; [apply unchanged_alloc | exact Hm]. }
  destruct (collect_tree _ combined Hc' []) as [unique ->]. eauto.
Qed.

Lemma mergeKeys_tree
    (recurse : heap -> val -> val -> option (heap * Res val))
    (target source : val) (out n : nat) (h0 : heap) :
  (forall h t s, tree_le h n t -> tree_le h n s ->
     exists h' v, recurse h t s = Some (h', Ok v) /\ unchanged h h') ->
  tree_le h0 (S n) target -> tree_le h0 (S n) source -> length h0 <= out ->
  forall ks h,
    unchanged h0 h ->
    exists h', mergeKeys recurse target source out ks h = Some (h', Ok (VRef out)).
Proof.
  intros Hrec Ht Hs Hout. induction ks as [|key ks IH]; intros h Hu; simpl; [eauto|].
  assert (Htk : tree_le h n (get h target key))
    by (apply get_tree; eapply tree_le_unchanged; eassumption).
  assert (Hsk : tree_le h n (get h source key))
    by (apply get_tree; eapply tree_le_unchanged; eassumption).
  assert (Hnext : forall v, exists h',
            mergeKeys recurse target source out ks (store h out key v)
              = Some (h', Ok (VRef out)))
    by (intros v; apply IH; now apply unchanged_store).
  destruct (isObject h (get h source key)).
  - destruct (negb (has_property h target key)); [apply Hnext|].
    destruct (Hrec h _ _ Htk Hsk) as (h1 & merged & -> & H1).
    apply IH. apply unchanged_store; [exact Hout|].
    eapply unchanged_trans; eassumption.
  - destruct (_ && _); [|apply Hnext].
    destruct (mergeArrays_tree h n _ _ Htk Hsk) as (h1 & merged & E).
    rewrite E. apply IH. apply unchanged_store; [exact Hout|].
    eapply unchanged_trans; [exact Hu|]. eapply mergeArrays_unchanged, E.
Qed.

(** C9. For a target and a source that are trees of the heap, nested at
    most [n] deep, [deepMerge] with its helper [mergeArrays] returns; every
    cell the heap had before the call, so every object and array of the two
    arguments, is the same after it; and the returned value is an object
    that the call has allocated. *)
Theorem deepMerge_leaves_inputs (h : heap) (n : nat) (target source : val) :
  tree_le h n target -> tree_le h n source ->
  exists h' merged,
    deepMerge (S n) h target source = Some (h', Ok merged)
    /\ unchanged h h'
    /\ is_object_at h' merged (length h).
Proof.
  revert h target source.
  induction n as [|n IH]; intros h target source Ht Hs.
  - assert (Hno : isObject (h ++ [CObj (own_enumerable h target)]) source = false)
      by (unfold isObject; destruct source; simpl; rewrite ?andb_false_r;
          try reflexivity; destruct Hs).
    simpl. rewrite Hno, andb_false_r.
    eexists _, _. split; [reflexivity|]. split; [apply unchanged_alloc|].
    split; [reflexivity|]. eexists. apply lookup_alloc.
  - assert (E : exists h' merged,
                deepMerge (S (S n)) h target source = Some (h', Ok merged)).
    { simpl. destruct (_ && _); [|eauto].
      destruct (mergeKeys_tree (deepMerge (S n)) target source (length h) n h)
        with (ks := keys (h ++ [CObj (own_enumerable h target)]) source)
             (h := h ++ [CObj (own_enumerable h target)]) as [h' Hh'];
        try assumption; try reflexivity; [|apply unchanged_alloc|eauto].
      intros hc t s Htc Hsc. destruct (IH hc t s Htc Hsc) as (h1 & v & H1 & H2 & _).
      eauto. }
    destruct E as (h' & merged & E). exists h', merged. split; [exact E|].
    apply deepMerge_frame in E as [Hu Hobj]. split; [exact Hu|]. now apply Hobj.
Qed.

End MergeOnTrees.

Lemma deepMerge_leaves_inputs_witness :
  exists h' merged,
    Heap.deepMerge 4 Samples.heap0 (Heap.VRef 2) (Heap.VRef 5)
      = Some (h', Ok merged)
    /\ Heap.unchanged Samples.heap0 h'
    /\ Heap.is_object_at h' merged (length Samples.heap0).
Proof.
  apply (deepMerge_leaves_inputs Samples.heap0 3 (Heap.VRef 2) (Heap.VRef 5));
    vm_compute; repeat constructor.
Defined.

(** On the sample heap the merged object is the cell at 7; its [checks] are
    a new array that holds the descriptor of the source, and its [options] a
    new object, while the cells 0 to 6 stay. *)
Lemma deepMerge_sample :
  Heap.deepMerge 4 Samples.heap0 (Heap.VRef 2) (Heap.VRef 5)
  = Some (Samples.heap0 ++
          [ Heap.CObj [("checks", Heap.VRef 9); ("timeout", Heap.VNum 10000);
                       ("options", Heap.VRef 10); ("extra", Heap.VRef 0)];
            Heap.CArr [Heap.VRef 0; Heap.VRef 3; Heap.VStr "main"; Heap.VRef 6];
            Heap.CArr [Heap.VRef 3; Heap.VStr "main"; Heap.VRef 6];
            Heap.CObj [("fix", Heap.VBool true)] ],
          Ok (Heap.VRef 7)).
Proof. vm_compute. reflexivity. Qed.

(** * Further properties of the code *)

(** ** configs/hooks-config.js: deepMerge, key by key *)

Lemma lookup_prop_notin (key : string) (ps : Props) :
  ~ In key (map fst ps) -> lookup_prop key ps = None.
Proof.
  induction ps as [|[k v] ps IH]; simpl; [reflexivity|]. intros Hn.
  destruct (String.eqb k key) eqn:E.
  - apply String.eqb_eq in E. tauto.
  - apply IH. tauto.
Qed.

Lemma lookup_mergeEntries_other (target : JsVal) (key : string)
    (entries output : Props) :
  lookup_prop key entries = None ->
  lookup_prop key (HooksConfig.mergeEntries target entries output)
  = lookup_prop key output.
Proof.
  revert output. induction entries as [|[k v] rest IH]; intros output; simpl;
    [reflexivity|].
  destruct (String.eqb k key) eqn:E; [discriminate|]. intros Hrest.
  rewrite (IH _ Hrest). apply lookup_set_prop_ne.
  intros ->. rewrite String.eqb_refl in E. discriminate.
Qed.

Lemma lookup_mergeEntries_source (target : JsVal) (key : string) (v : JsVal)
    (entries output : Props) :
  List.NoDup (map fst entries) -> lookup_prop key entries = Some v ->
  lookup_prop key (HooksConfig.mergeEntries target entries output)
  = Some (HooksConfig.mergeValue target key v).
Proof.
  revert output. induction entries as [|[k w] rest IH]; intros output Hnd;
    simpl; [discriminate|].
  inversion Hnd as [|? ? Hk Hrest]; subst.
  destruct (String.eqb k key) eqn:E.
  - apply String.eqb_eq in E. subst k. intros [= ->].
    rewrite lookup_mergeEntries_other by now apply lookup_prop_notin.
    apply lookup_set_prop_eq.
  - intros Hv. now apply IH.
Qed.

(** X1.  [deepMerge] leaves alone what the overriding layer does not name:
    for an object [target] and any [source], a key that [source] does not
    hold as an own property reads in the result as it reads in [target].  In
    particular a [source] that is not an object (an array, a string, a
    number, [null]) changes nothing.  The precondition is that [source]
    holds no own property named [__proto__]: the assignment to that key
    would give the result another prototype, and with it other inherited
    properties. *)
Theorem deepMerge_keeps_unnamed_keys (tps : Props) (source : JsVal) (key : string) :
  (forall sps, source = JObj sps ->
     lookup_prop key sps = None /\ lookup_prop "__proto__" sps = None) ->
  get (HooksConfig.deepMerge (JObj tps) source) key = get (JObj tps) key.
Proof.
  intros Hs. rewrite deepMerge_unfold.
  destruct (HooksConfig.isObject (JObj tps) && HooksConfig.isObject source);
    [|reflexivity].
  destruct source as [| | | | | | | |sps]; try reflexivity.
  simpl. rewrite lookup_mergeEntries_other by now apply Hs. reflexivity.
Qed.

Lemma deepMerge_keeps_unnamed_keys_witness :
  get (HooksConfig.deepMerge
         (JObj [("timeout", JNum 10000); ("parallel", JBool false)])
         (JObj [("parallel", JBool true)])) "timeout"
  = get (JObj [("timeout", JNum 10000); ("parallel", JBool false)]) "timeout".
Proof.
  apply deepMerge_keeps_unnamed_keys. intros sps [= <-]. split; reflexivity.
Defined.

(** X2.  What [deepMerge] leaves at a key the overriding object names, for
    an object [target] and an object [source] none of whose own properties
    is named [__proto__] (with [v] the value of [source] at the key): a
    value that is neither an object nor an array replaces the target's; an
    array is merged with the target's array by [mergeArrays], and replaces a
    target value that is no array; an object is copied as it is under a key
    the target does not have, and merged recursively into the target's value
    otherwise. *)
Theorem deepMerge_named_key (tps sps : Props) (key : string) (v : JsVal) :
  List.NoDup (map fst sps) -> lookup_prop "__proto__" sps = None ->
  lookup_prop key sps = Some v ->
  let result := get (HooksConfig.deepMerge (JObj tps) (JObj sps)) key in
  key <> "__proto__"
  /\ (HooksConfig.isObject v = false -> isArray v = false -> result = v)
  /\ (forall a b, v = JArr b -> get (JObj tps) key = JArr a ->
        result = JArr (HooksConfig.mergeArrays a b))
  /\ (isArray v = true -> isArray (get (JObj tps) key) = false -> result = v)
  /\ (HooksConfig.isObject v = true -> has_property (JObj tps) key = false ->
        result = v)
  /\ (HooksConfig.isObject v = true -> has_property (JObj tps) key = true ->
        result = HooksConfig.deepMerge (get (JObj tps) key) v).
Proof.
  intros Hnd Hproto Hv result.
  assert (Hr : result = HooksConfig.mergeValue (JObj tps) key v).
  { unfold result. rewrite deepMerge_unfold. cbn [HooksConfig.isObject truthy typeof_object isArray andb negb].
    apply get_own. now apply lookup_mergeEntries_source. }
  rewrite Hr. unfold HooksConfig.mergeValue. split; [|repeat split].
  - intros ->. rewrite Hproto in Hv. discriminate Hv.
  - intros -> ->. reflexivity.
  - intros a b -> ->. reflexivity.
  - intros Ha Hb. destruct v; try discriminate Ha.
    unfold HooksConfig.isObject.
    cbn [truthy typeof_object isArray andb negb]. now rewrite Hb.
  - intros -> ->. reflexivity.
  - intros -> ->. reflexivity.
Qed.

Lemma deepMerge_named_key_witness :
  let result :=
    get (HooksConfig.deepMerge
           (JObj [("checks", JArr [JStr "a"]); ("timeout", JNum 10000)])
           (JObj [("checks", JArr [JStr "b"])])) "checks" in
  "checks" <> "__proto__"
  /\ (HooksConfig.isObject (JArr [JStr "b"]) = false ->
      isArray (JArr [JStr "b"]) = false -> result = JArr [JStr "b"])
  /\ (forall a b, JArr [JStr "b"] = JArr b ->
        get (JObj [("checks", JArr [JStr "a"]); ("timeout", JNum 10000)]) "checks"
        = JArr a ->
        result = JArr (HooksConfig.mergeArrays a b))
  /\ (isArray (JArr [JStr "b"]) = true ->
      isArray (get (JObj [("checks", JArr [JStr "a"]); ("timeout", JNum 10000)])
                   "checks") = false ->
      result = JArr [JStr "b"])
  /\ (HooksConfig.isObject (JArr [JStr "b"]) = true ->
      has_property (JObj [("checks", JArr [JStr "a"]); ("timeout", JNum 10000)])
                   "checks" = false ->
      result = JArr [JStr "b"])
  /\ (HooksConfig.isObject (JArr [JStr "b"]) = true ->
      has_property (JObj [("checks", JArr [JStr "a"]); ("timeout", JNum 10000)])
                   "checks" = true ->
      result = HooksConfig.deepMerge
                 (get (JObj [("checks", JArr [JStr "a"]); ("timeout", JNum 10000)])
                      "checks")
                 (JArr [JStr "b"])).
Proof.
  apply (deepMerge_named_key
           [("checks", JArr [JStr "a"]); ("timeout", JNum 10000)]
           [("checks", JArr [JStr "b"])] "checks" (JArr [JStr "b"])).
  - repeat constructor. simpl. tauto.
  - reflexivity.
  - reflexivity.
Defined.

(** X3.  An override that [deepMerge] cannot merge is lost.  Where the
    target holds a value [old] under the key and the overriding object holds
    there a [RegExp], or an object while [old] is no object, the result
    holds neither: it holds a fresh object with the own enumerable
    properties of [old], which is the empty object when [old] is a number, a
    boolean, [null] or a [RegExp]. *)
Theorem deepMerge_override_lost (tps sps : Props) (key : string) (old v : JsVal) :
  List.NoDup (map fst sps) ->
  lookup_prop key tps = Some old -> lookup_prop key sps = Some v ->
  HooksConfig.isObject v = true ->
  HooksConfig.isObject old = false \/ instanceof_RegExp v = true ->
  get (HooksConfig.deepMerge (JObj tps) (JObj sps)) key = JObj (own_enumerable old).
Proof.
  intros Hnd Hold Hv Hobj Hcase.
  rewrite deepMerge_unfold.
  cbn [HooksConfig.isObject truthy typeof_object isArray andb negb].
  rewrite (get_own _ _ _ (lookup_mergeEntries_source _ _ _ _ _ Hnd Hv)).
  unfold HooksConfig.mergeValue. rewrite Hobj.
  unfold has_property. rewrite Hold. cbn [negb].
  rewrite (get_own _ _ _ Hold). rewrite deepMerge_unfold.
  destruct Hcase as [Hno|Hre].
  - rewrite Hno. reflexivity.
  - destruct v; try discriminate Hre.
    now destruct (HooksConfig.isObject old && HooksConfig.isObject (JRegExp r)).
Qed.

Lemma deepMerge_override_lost_witness :
  get (HooksConfig.deepMerge
         (JObj [("pattern", JRegExp CommitMsg.default_pattern)])
         (JObj [("pattern", JRegExp CommonConfig.skipPattern)])) "pattern"
  = JObj (own_enumerable (JRegExp CommitMsg.default_pattern)).
Proof.
  apply (deepMerge_override_lost
           [("pattern", JRegExp CommitMsg.default_pattern)]
           [("pattern", JRegExp CommonConfig.skipPattern)] "pattern"
           (JRegExp CommitMsg.default_pattern) (JRegExp CommonConfig.skipPattern)).
  - repeat constructor. simpl. tauto.
  - reflexivity.
  - reflexivity.
  - reflexivity.
  - right. reflexivity.
Defined.

(** ** configs/hooks-config.js: mergeArrays *)

Lemma strict_equals_true (a b : JsVal) : strict_equals a b = true -> a = b.
Proof.
  destruct a, b; simpl; try discriminate; intros H; try reflexivity.
  - f_equal. now apply Bool.eqb_prop.
  - f_equal. now apply Z.eqb_eq.
  - f_equal. now apply String.eqb_eq.
Qed.

(** An entry of a map with distinct keys after [set]: an old entry under
    another key, or the new value under its key. *)
Lemma map_set_in (k v : JsVal) (m : list (JsVal * JsVal)) (p : JsVal * JsVal) :
  ForallOrdPairs keys_differ m ->
  In p (HooksConfig.map_set k v m) ->
  (In p m /\ strict_equals (fst p) k = false) \/ p = (k, v).
Proof.
  induction m as [|[k0 v0] m IH]; simpl; intros Hd.
  - intros [<-|[]]. now right.
  - inversion Hd as [|? ? Hk0 Hm]; subst.
    destruct (strict_equals k0 k) eqn:E.
    + pose proof (strict_equals_true _ _ E) as Hk. subst k0.
      intros [<-|Hin]; [now right|]. left. split; [now right|].
      rewrite strict_equals_sym.
      exact (proj1 (List.Forall_forall _ _) Hk0 p Hin).
    + intros [<-|Hin]; [left; split; [now left|exact E]|].
      destruct (IH Hm Hin) as [[Hp Hne]| ->]; [left; split; [now right|exact Hne]|].
      now right.
Qed.

Lemma map_set_distinct (k v : JsVal) (m : list (JsVal * JsVal)) :
  ForallOrdPairs keys_differ m ->
  ForallOrdPairs keys_differ (HooksConfig.map_set k v m).
Proof.
  induction m as [|[k0 v0] m IH]; simpl; intros Hd.
  - repeat constructor.
  - inversion Hd as [|? ? Hk0 Hm]; subst.
    destruct (strict_equals k0 k) eqn:E.
    + constructor; [|exact Hm].
      apply List.Forall_forall. intros q Hq.
      exact (proj1 (List.Forall_forall _ _) Hk0 q Hq).
    + constructor; [|now apply IH].
      apply List.Forall_forall. intros q Hq.
      destruct (map_set_in k v m q Hm Hq) as [[Hin _]| ->].
      * exact (proj1 (List.Forall_forall _ _) Hk0 q Hin).
      * exact E.
Qed.

(** [set] keeps every key, and the new value is in the map. *)
Lemma map_set_keeps (k v : JsVal) (m : list (JsVal * JsVal)) (p : JsVal * JsVal) :
  In p m ->
  In p (HooksConfig.map_set k v m)
  \/ (In (fst p, v) (HooksConfig.map_set k v m) /\ strict_equals (fst p) k = true).
Proof.
  induction m as [|[k0 v0] m IH]; simpl; [tauto|].
  destruct (strict_equals k0 k) eqn:E.
  - intros [<-|Hin]; [right; split; [now left|exact E]|left; now right].
  - intros [<-|Hin]; [left; now left|].
    destruct (IH Hin) as [H|[H1 H2]]; [left; now right|right; split; [now right|exact H2]].
Qed.

Lemma map_set_new (k v : JsVal) (m : list (JsVal * JsVal)) :
  exists k', In (k', v) (HooksConfig.map_set k v m).
Proof.
  induction m as [|[k0 v0] m IH]; simpl.
  - exists k. now left.
  - destruct (strict_equals k0 k).
    + exists k0. now left.
    + destruct IH as [k' Hk']. exists k'. now right.
Qed.

Lemma merge_map_snoc (l : list JsVal) (x : JsVal) :
  merge_map (l ++ [x]) = HooksConfig.map_set (HooksConfig.map_key x) x (merge_map l).
Proof. unfold merge_map. now rewrite fold_left_app. Qed.

(** The [Map] that [mergeArrays] builds from a list: every entry is filed
    under the key of its item, no two keys are equal, every item is the last
    of its key in the list, and every item of the list has its key in the
    map. *)
Lemma merge_map_spec (l : list JsVal) :
  Forall (fun p => fst p = HooksConfig.map_key (snd p)) (merge_map l)
  /\ ForallOrdPairs keys_differ (merge_map l)
  /\ (forall p, In p (merge_map l) -> last_of_key (snd p) l)
  /\ (forall x, In x l ->
        exists p, In p (merge_map l)
                  /\ (snd p = x \/ strict_equals (fst p) (HooksConfig.map_key x) = true)).
Proof.
  induction l as [|x l (I1 & I2 & I3 & I4)] using rev_ind.
  - repeat split; try constructor; intros ? [].
  - rewrite merge_map_snoc.
    set (k := HooksConfig.map_key x) in *. set (m := merge_map l) in *.
    assert (Hin := map_set_in k x m).
    repeat split.
    + apply List.Forall_forall. intros p Hp.
      destruct (Hin p I2 Hp) as [[Hold _]| ->]; [|reflexivity].
      exact (proj1 (List.Forall_forall _ _) I1 p Hold).
    + now apply map_set_distinct.
    + intros p Hp. destruct (Hin p I2 Hp) as [[Hold Hne]| ->].
      * destruct (I3 p Hold) as (pre & post & -> & Hpost).
        exists pre, (post ++ [x]). split; [now rewrite <- app_assoc|].
        apply List.Forall_app. split; [exact Hpost|].
        constructor; [|constructor]. unfold same_key.
        rewrite <- (proj1 (List.Forall_forall _ _) I1 p Hold). exact Hne.
      * exists l, []. split; [reflexivity|constructor].
    + intros y Hy. apply in_app_or in Hy. destruct Hy as [Hy|[<-|[]]].
      * destruct (I4 y Hy) as (p & Hp & Hcase).
        destruct (map_set_keeps k x m p Hp) as [Hkeep|[Hrep Heq]].
        -- exists p. now split.
        -- exists (fst p, x). split; [exact Hrep|]. right. simpl.
           destruct Hcase as [<-|Hs]; [|exact Hs].
           rewrite <- (proj1 (List.Forall_forall _ _) I1 p Hp).
           pose proof (strict_equals_true _ _ Heq) as Hk. rewrite Hk in Heq |- *.
           exact Heq.
      * destruct (map_set_new k x m) as [k' Hk']. exists (k', x). split; [exact Hk'|].
        now left.
Qed.

Lemma mergeArrays_merge_map (arr1 arr2 : list JsVal) :
  HooksConfig.mergeArrays arr1 arr2 = map snd (merge_map (arr1 ++ arr2)).
Proof. reflexivity. Qed.

(** X4.  The list [mergeArrays] returns holds no two items with the same
    key (the [name] of an object that has one, the JSON text of any other
    item). *)
Theorem mergeArrays_distinct_keys (arr1 arr2 : list JsVal) :
  ForallOrdPairs (fun a b => same_key a b = false)
                 (HooksConfig.mergeArrays arr1 arr2).
Proof.
  rewrite mergeArrays_merge_map.
  destruct (merge_map_spec (arr1 ++ arr2)) as (I1 & I2 & _).
  induction (merge_map (arr1 ++ arr2)) as [|p m IH]; simpl; [constructor|].
  inversion I1 as [|? ? Hp I1']; subst. inversion I2 as [|? ? Hpm I2']; subst.
  constructor; [|now apply IH].
  apply List.Forall_forall. intros y Hy. apply in_map_iff in Hy.
  destruct Hy as (q & <- & Hq). unfold same_key.
  rewrite <- Hp, <- (proj1 (List.Forall_forall _ _) I1' q Hq).
  exact (proj1 (List.Forall_forall _ _) Hpm q Hq).
Qed.

(** X5.  Of the items of [arr1] followed by [arr2] that share a key,
    [mergeArrays] returns the last: every item of the result is an item of
    the two arrays that no item of the same key follows, and every item of
    the two arrays is in the result or has an item of its key there. *)
Theorem mergeArrays_keeps_last (arr1 arr2 : list JsVal) :
  (forall item, In item (HooksConfig.mergeArrays arr1 arr2) ->
     last_of_key item (arr1 ++ arr2))
  /\ (forall item, In item (arr1 ++ arr2) ->
        exists kept, In kept (HooksConfig.mergeArrays arr1 arr2)
                     /\ (kept = item \/ same_key kept item = true)).
Proof.
  rewrite mergeArrays_merge_map.
  destruct (merge_map_spec (arr1 ++ arr2)) as (I1 & _ & I3 & I4). split.
  - intros item Hin. apply in_map_iff in Hin. destruct Hin as (p & <- & Hp).
    now apply I3.
  - intros item Hin. destruct (I4 item Hin) as (p & Hp & Hcase).
    exists (snd p). split; [now apply in_map|].
    destruct Hcase as [H|H]; [now left|right].
    unfold same_key. now rewrite <- (proj1 (List.Forall_forall _ _) I1 p Hp).
Qed.

(** ** configs/hooks-config.js: the filter that drops repeated names *)

(** [findIndex] stops at the entry itself at the latest, so that it reads
    the names of the entries before it only. *)
Lemma findIndex_from_upto (check : JsVal) (rest pre : list JsVal) (j i : nat) :
  Forall Spec.non_nullish pre -> Spec.non_nullish check -> i = j + length pre ->
  exists k,
    HooksConfig.findIndex_from j (fun j c => HooksConfig.same_name j c i check)
      (pre ++ check :: rest) = Ok (Some k)
    /\ (k = i <->
        existsb (fun n => strict_equals n (Spec.check_name check))
                (map Spec.check_name pre) = false).
Proof.
  intros Hpre Hcheck. revert j. induction Hpre as [|c pre Hc Hpre IH]; intros j Hi.
  - simpl in *. rewrite same_name_ok by assumption. unfold name_eq.
    replace (j =? i)%nat with true by (symmetry; apply Nat.eqb_eq; lia).
    simpl. exists j. split; [reflexivity|]. split; [reflexivity|lia].
  - simpl in *. rewrite same_name_ok by assumption. unfold name_eq.
    replace (j =? i)%nat with false by (symmetry; apply Nat.eqb_neq; lia).
    simpl. destruct (strict_equals (Spec.check_name c) (Spec.check_name check)).
    + exists j. split; [reflexivity|]. split; [lia|discriminate].
    + simpl. apply IH. lia.
Qed.

Lemma keep_first_from_run (rest pre : list JsVal) :
  Forall Spec.non_nullish pre -> Forall Spec.non_nullish rest ->
  HooksConfig.keep_first_from (length pre) (pre ++ rest) rest
  = Ok (first_by_name (map Spec.check_name pre) rest).
Proof.
  intros Hpre Hrest. revert pre Hpre.
  induction Hrest as [|check rest Hcheck Hrest IH]; intros pre Hpre; [reflexivity|].
  cbn [HooksConfig.keep_first_from first_by_name].
  destruct (findIndex_from_upto check rest pre 0 (length pre) Hpre Hcheck eq_refl)
    as (k & -> & Hk).
  cbn [res_bind].
  assert (Hpre' : Forall Spec.non_nullish (pre ++ [check]))
    by (apply List.Forall_app; split; [exact Hpre|now constructor]).
  specialize (IH _ Hpre').
  rewrite <- app_assoc, length_app, Nat.add_comm in IH. simpl in IH.
  rewrite IH. cbn [res_bind]. rewrite map_app. simpl.
  destruct (existsb _ (map Spec.check_name pre)).
  - destruct (decide (Some k = Some (length pre))) as [[= E]|]; [|reflexivity].
    apply Hk in E. discriminate.
  - destruct (decide (Some k = Some (length pre))) as [|E]; [reflexivity|].
    exfalso. apply E. f_equal. now apply Hk.
Qed.

(** An entry that is [null] or [undefined] ends the filter with the
    [TypeError] of reading its [name]. *)
Lemma keep_first_from_throws (rest pre : list JsVal) :
  Forall Spec.non_nullish pre -> ~ Forall Spec.non_nullish rest ->
  exists e, HooksConfig.keep_first_from (length pre) (pre ++ rest) rest = Throw e.
Proof.
  revert pre. induction rest as [|check rest IH]; intros pre Hpre Hrest.
  - exfalso. apply Hrest. constructor.
  - cbn [HooksConfig.keep_first_from].
    destruct (is_nullish check) eqn:Hn.
    + assert (Hthrow : exists e,
                HooksConfig.findIndex_from 0
                  (fun j c => HooksConfig.same_name j c (length pre) check)
                  (pre ++ check :: rest) = Throw e).
      { destruct Hpre as [|c pre Hc Hpre]; simpl; unfold HooksConfig.same_name, member.
        - rewrite Hn. simpl. eauto.
        - unfold Spec.non_nullish in Hc. rewrite Hc, Hn. simpl. eauto. }
      destruct Hthrow as [e ->]. simpl. eauto.
    + destruct (findIndex_from_upto check rest pre 0 (length pre) Hpre Hn eq_refl)
        as (k & -> & _).
      cbn [res_bind].
      assert (Hpre' : Forall Spec.non_nullish (pre ++ [check]))
        by (apply List.Forall_app; split; [exact Hpre|now constructor]).
      destruct (IH _ Hpre') as [e He].
      { intros Hall. apply Hrest. now constructor. }
      rewrite <- app_assoc, length_app, Nat.add_comm in He. simpl in He.
      rewrite He. simpl. eauto.
Qed.

Lemma uniqueByName_run (self : list JsVal) :
  Forall Spec.non_nullish self ->
  HooksConfig.uniqueByName self = Ok (first_by_name [] self).
Proof. intros H. exact (keep_first_from_run self [] (List.Forall_nil _) H). Qed.

Lemma first_by_name_app (seen a b : list JsVal) :
  first_by_name seen (a ++ b)
  = first_by_name seen a ++ first_by_name (seen ++ map Spec.check_name a) b.
Proof.
  revert seen. induction a as [|c a IH]; intros seen; simpl.
  - now rewrite app_nil_r.
  - rewrite IH, <- app_assoc. simpl.
    now destruct (existsb _ seen).
Qed.

Lemma first_by_name_sublist (seen l : list JsVal) :
  sublist (first_by_name seen l) l.
Proof.
  revert seen. induction l as [|c l IH]; intros seen; simpl; [constructor|].
  destruct (existsb _ seen); [apply sublist_cons|apply sublist_skip]; apply IH.
Qed.

Lemma existsb_false_Forall (name : JsVal) (seen : list JsVal) :
  existsb (fun n => strict_equals n name) seen = false <->
  Forall (fun n => strict_equals n name = false) seen.
Proof.
  induction seen as [|n seen IH]; simpl.
  - split; [constructor|reflexivity].
  - rewrite orb_false_iff, IH. split.
    + intros [H1 H2]. now constructor.
    + intros H. inversion H; subst. now split.
Qed.

(** Every entry the pass keeps has no entry of its name before it, in the
    list or among the names seen. *)
Lemma first_by_name_first (seen l : list JsVal) (r : JsVal) :
  In r (first_by_name seen l) ->
  exists pre post,
    l = pre ++ r :: post
    /\ Forall (fun n => strict_equals n (Spec.check_name r) = false)
              (seen ++ map Spec.check_name pre).
Proof.
  revert seen. induction l as [|c l IH]; intros seen; simpl; [tauto|].
  assert (Htail : In r (first_by_name (seen ++ [Spec.check_name c]) l) ->
            exists pre post,
              c :: l = pre ++ r :: post
              /\ Forall (fun n => strict_equals n (Spec.check_name r) = false)
                        (seen ++ map Spec.check_name pre)).
  { intros Hin. destruct (IH _ Hin) as (pre & post & -> & Hall).
    exists (c :: pre), post. split; [reflexivity|].
    simpl. now rewrite <- app_assoc in Hall. }
  destruct (existsb _ seen) eqn:E; [exact Htail|].
  intros [<-|Hin]; [|now apply Htail].
  exists [], l. split; [reflexivity|]. simpl. rewrite app_nil_r.
  now apply existsb_false_Forall.
Qed.

(** Every entry of the list is kept, or an entry of its name is, or its
    name was seen. *)
Lemma first_by_name_covers (seen l : list JsVal) (c : JsVal) :
  In c l ->
  existsb (fun n => strict_equals n (Spec.check_name c)) seen = true
  \/ exists r, In r (first_by_name seen l)
               /\ (r = c \/ strict_equals (Spec.check_name r) (Spec.check_name c) = true).
Proof.
  revert seen. induction l as [|c0 l IH]; intros seen; simpl; [tauto|].
  intros [->|Hin].
  - destruct (existsb _ seen) eqn:E; [now left|].
    right. exists c. split; [now left|now left].
  - destruct (IH (seen ++ [Spec.check_name c0]) Hin) as [Hseen|(r & Hr & Hcase)].
    + rewrite existsb_app in Hseen. simpl in Hseen. rewrite orb_false_r in Hseen.
      apply orb_true_iff in Hseen. destruct Hseen as [Hseen|Hc0]; [now left|].
      destruct (existsb (fun n => strict_equals n (Spec.check_name c0)) seen) eqn:E.
      * left. rewrite <- (strict_equals_true _ _ Hc0). exact E.
      * right. exists c0. split; [now left|now right].
    + right. exists r. split; [|exact Hcase].
      destruct (existsb _ seen); [exact Hr|now right].
Qed.

Lemma first_by_name_id (seen a : list JsVal) :
  Forall (fun c => Forall (fun n => strict_equals n (Spec.check_name c) = false) seen) a ->
  ForallOrdPairs differ a ->
  first_by_name seen a = a.
Proof.
  revert seen. induction a as [|c a IH]; intros seen Hseen Hd; simpl; [reflexivity|].
  inversion Hseen as [|? ? Hc Ha]; subst. inversion Hd as [|? ? Hca Hd']; subst.
  rewrite (proj2 (existsb_false_Forall _ _) Hc). f_equal.
  apply IH; [|exact Hd'].
  apply List.Forall_forall. intros c' Hc'.
  apply List.Forall_app. split.
  - exact (proj1 (List.Forall_forall _ _) Ha c' Hc').
  - constructor; [|constructor].
    exact (proj1 (List.Forall_forall _ _) Hca c' Hc').
Qed.

(** Entries kept after the names [seen] carry none of them. *)
Lemma first_by_name_new (seen l : list JsVal) :
  Forall (fun c => Forall (fun n => strict_equals n (Spec.check_name c) = false) seen)
         (first_by_name seen l).
Proof.
  apply List.Forall_forall. intros r Hr.
  destruct (first_by_name_first _ _ _ Hr) as (pre & post & _ & Hall).
  apply List.Forall_app in Hall. tauto.
Qed.

(** X6.  The filter that [getConfig] applies to a list of check descriptors
    keeps, of the entries with one name, the first, and keeps the order: the
    result is a sublist of the list, each of its entries has no entry of the
    same name before it in the list, and every entry of the list is in the
    result or has an entry of its name there.  The precondition is that no
    entry is [null] or [undefined]. *)
Theorem uniqueByName_keeps_first (self : list JsVal) :
  Forall Spec.non_nullish self ->
  exists result,
    HooksConfig.uniqueByName self = Ok result
    /\ sublist result self
    /\ (forall check, In check result -> first_of_name check self)
    /\ (forall check, In check self ->
          exists kept, In kept result
                       /\ (kept = check
                           \/ strict_equals (Spec.check_name kept)
                                            (Spec.check_name check) = true)).
Proof.
  intros Hself. exists (first_by_name [] self). split; [now apply uniqueByName_run|].
  split; [apply first_by_name_sublist|]. split.
  - intros check Hin.
    destruct (first_by_name_first _ _ _ Hin) as (pre & post & -> & Hall).
    exists pre, post. split; [reflexivity|]. simpl in Hall.
    apply List.Forall_forall. intros c Hc. unfold differ.
    apply (proj1 (List.Forall_forall _ _) Hall). now apply in_map.
  - intros check Hin.
    destruct (first_by_name_covers [] self check Hin) as [H|H]; [discriminate H|exact H].
Qed.

Lemma uniqueByName_keeps_first_witness :
  exists result,
    HooksConfig.uniqueByName [Samples.A_critical; Samples.B_critical; Samples.A_optional]
      = Ok result
    /\ sublist result [Samples.A_critical; Samples.B_critical; Samples.A_optional]
    /\ (forall check, In check result ->
          first_of_name check
            [Samples.A_critical; Samples.B_critical; Samples.A_optional])
    /\ (forall check,
          In check [Samples.A_critical; Samples.B_critical; Samples.A_optional] ->
          exists kept, In kept result
                       /\ (kept = check
                           \/ strict_equals (Spec.check_name kept)
                                            (Spec.check_name check) = true)).
Proof.
  apply (uniqueByName_keeps_first
           [Samples.A_critical; Samples.B_critical; Samples.A_optional]).
  repeat constructor.
Defined.

(** X7.  The filter returns a list exactly when no entry is [null] or
    [undefined]: such an entry makes it throw the [TypeError] of reading
    [name], wherever in the list the entry is. *)
Theorem uniqueByName_returns_iff (self : list JsVal) :
  (exists result, HooksConfig.uniqueByName self = Ok result)
  <-> Forall Spec.non_nullish self.
Proof.
  split.
  - intros [result Hres].
    destruct (List.Forall_dec Spec.non_nullish
                (fun v => bool_dec (is_nullish v) false) self) as [H|H];
      [exact H|].
    destruct (keep_first_from_throws self [] (List.Forall_nil _) H) as [e He].
    unfold HooksConfig.uniqueByName in Hres. simpl in He. congruence.
  - intros H. eexists. now apply uniqueByName_run.
Qed.

(** X8.  The checks of a resolved hook section are the checks of the
    defaults section, unchanged and in their order, followed by those
    entries of the overriding section whose name no entry before them has:
    an override entry that names a check of the defaults is dropped.  The
    precondition is that the two lists hold no [null] or [undefined] and that
    the names of the defaults differ pairwise. *)
Theorem sectionChecks_defaults_first (defaults overrides : JsVal)
    (a b : list JsVal) :
  or_else (opt_member defaults "checks") (JArr []) = JArr a ->
  or_else (opt_member overrides "checks") (JArr []) = JArr b ->
  Forall Spec.non_nullish a -> Forall Spec.non_nullish b ->
  ForallOrdPairs differ a ->
  exists added,
    HooksConfig.sectionChecks defaults overrides = Ok (a ++ added)
    /\ added = first_by_name (map Spec.check_name a) b
    /\ sublist added b
    /\ Forall (fun c => Forall (fun d => differ d c) a) added.
Proof.
  intros Ha Hb Hna Hnb Hd. exists (first_by_name (map Spec.check_name a) b).
  split; [|split; [reflexivity|split; [apply first_by_name_sublist|]]].
  - unfold HooksConfig.sectionChecks. rewrite Ha, Hb. simpl.
    rewrite uniqueByName_run by (apply List.Forall_app; now split).
    rewrite first_by_name_app. simpl. f_equal. f_equal.
    apply first_by_name_id; [|exact Hd].
    apply List.Forall_forall. intros; constructor.
  - eapply List.Forall_impl; [|apply first_by_name_new].
    intros c Hc. apply List.Forall_forall. intros d Hin. unfold differ.
    apply (proj1 (List.Forall_forall _ _) Hc). now apply in_map.
Qed.

Lemma sectionChecks_defaults_first_witness :
  exists added,
    HooksConfig.sectionChecks
      (JObj [("checks", JArr [Samples.A_critical; Samples.B_critical])])
      (JObj [("checks", JArr [Samples.A_optional])])
    = Ok ([Samples.A_critical; Samples.B_critical] ++ added)
    /\ added = first_by_name
                 (map Spec.check_name [Samples.A_critical; Samples.B_critical])
                 [Samples.A_optional]
    /\ sublist added [Samples.A_optional]
    /\ Forall (fun c => Forall (fun d => differ d c)
                               [Samples.A_critical; Samples.B_critical]) added.
Proof.
  apply (sectionChecks_defaults_first
           (JObj [("checks", JArr [Samples.A_critical; Samples.B_critical])])
           (JObj [("checks", JArr [Samples.A_optional])])).
  - reflexivity.
  - reflexivity.
  - repeat constructor.
  - repeat constructor.
  - repeat constructor.
Defined.

(** ** configs/hooks-config.js: the priority of the caller's overrides *)

Lemma in_set_prop_keys (key : string) (v : JsVal) (ps : Props) (k : string) :
  In k (map fst (set_prop key v ps)) -> In k (map fst ps) \/ k = key.
Proof.
  induction ps as [|[k0 w] ps IH]; simpl.
  - intros [<-|[]]. now right.
  - destruct (String.eqb k0 key); simpl; [tauto|].
    intros [<-|H]; [tauto|]. destruct (IH H); tauto.
Qed.

Lemma set_prop_NoDup (key : string) (v : JsVal) (ps : Props) :
  List.NoDup (map fst ps) -> List.NoDup (map fst (set_prop key v ps)).
Proof.
  induction ps as [|[k0 w] ps IH]; simpl; intros Hnd.
  - repeat constructor. simpl. tauto.
  - inversion Hnd as [|? ? Hk0 Hps]; subst.
    destruct (String.eqb k0 key) eqn:E; simpl; [now constructor|].
    constructor; [|now apply IH].
    intros Hin. destruct (in_set_prop_keys _ _ _ _ Hin) as [H| ->]; [tauto|].
    rewrite String.eqb_refl in E. discriminate.
Qed.

Lemma mergeEntries_NoDup (target : JsVal) (entries output : Props) :
  List.NoDup (map fst output) ->
  List.NoDup (map fst (HooksConfig.mergeEntries target entries output)).
Proof.
  revert output. induction entries as [|[k v] rest IH]; intros output H; simpl;
    [exact H|].
  apply IH. now apply set_prop_NoDup.
Qed.

Lemma lookup_assign_all_other (key : string) (b ps : Props) :
  lookup_prop key b = None ->
  lookup_prop key (assign_all ps b) = lookup_prop key ps.
Proof.
  revert ps. induction b as [|[k w] b IH]; intros ps; simpl; [reflexivity|].
  destruct (String.eqb k key) eqn:E; [discriminate|]. intros Hb.
  unfold assign_all in *. simpl. rewrite (IH _ Hb).
  apply lookup_set_prop_ne. intros ->. rewrite String.eqb_refl in E. discriminate.
Qed.

(** In [{...a, ...b}] a property of [b] wins. *)
Lemma lookup_assign_all_last (key : string) (v : JsVal) (b ps : Props) :
  List.NoDup (map fst b) -> lookup_prop key b = Some v ->
  lookup_prop key (assign_all ps b) = Some v.
Proof.
  revert ps. induction b as [|[k w] b IH]; intros ps Hnd; simpl; [discriminate|].
  inversion Hnd as [|? ? Hk Hb]; subst.
  destruct (String.eqb k key) eqn:E.
  - apply String.eqb_eq in E. subst k. intros [= ->].
    change (assign_all ps ((key, v) :: b)) with (assign_all (set_prop key v ps) b).
    rewrite lookup_assign_all_other by now apply lookup_prop_notin.
    apply lookup_set_prop_eq.
  - intros Hv.
    change (assign_all ps ((k, w) :: b)) with (assign_all (set_prop k w ps) b).
    now apply IH.
Qed.

Lemma mergeEntries_distinct (tps entries output : Props) :
  props_ok tps -> sections_distinct tps -> Forall Spec.top_ok entries ->
  sections_distinct output ->
  sections_distinct (HooksConfig.mergeEntries (JObj tps) entries output).
Proof.
  intros (Htop & Hall & _) Hd He. revert output.
  induction He as [|[k v] entries Hk He IH]; intros output Ho; simpl; [exact Ho|].
  apply IH. intros k' s' Hk'.
  destruct (String.eqb_spec k k') as [->|Hne].
  - rewrite lookup_set_prop_eq. intros [= <-].
    destruct (Hall k' Hk') as [s Hs].
    pose proof (lookup_prop_Forall _ _ _ _ Htop Hs Hk') as (sps & Heq & _).
    pose proof (Hk Hk') as (vps & Hveq & _). simpl in Heq, Hveq. subst s v.
    unfold HooksConfig.mergeValue.
    cbn [HooksConfig.isObject truthy typeof_object isArray andb negb].
    unfold has_property. rewrite Hs. cbn [negb].
    rewrite (get_own _ _ _ Hs), deepMerge_unfold.
    cbn [HooksConfig.isObject truthy typeof_object isArray andb negb own_enumerable].
    simpl. apply mergeEntries_NoDup. exact (Hd k' _ Hk' Hs).
  - rewrite lookup_set_prop_ne by exact Hne. now apply Ho.
Qed.

Lemma deepMerge_distinct (m layer : JsVal) :
  merged_distinct m -> Spec.layer_ok layer ->
  merged_distinct (HooksConfig.deepMerge m layer).
Proof.
  intros (ps & -> & Hps & Hd) Hl.
  destruct (deepMerge_merged (JObj ps) layer) as (ps' & Heq & Hps');
    [now exists ps | exact Hl |].
  exists ps'. split; [exact Heq|]. split; [exact Hps'|].
  rewrite deepMerge_unfold in Heq.
  destruct (HooksConfig.isObject (JObj ps) && HooksConfig.isObject layer);
    [destruct layer as [| | | | | | |l|entries]|]; simpl in Heq;
    injection Heq as <-; try exact Hd.
  now apply mergeEntries_distinct.
Qed.

Lemma common_config_distinct (e : ProcessEnv) :
  merged_distinct (CommonConfig.config e).
Proof.
  destruct (common_config_ok e) as (ps & Heq & Hps).
  exists ps. split; [exact Heq|]. split; [exact Hps|].
  injection Heq as <-. intros k s Hk. unfold Spec.section_keys in Hk. simpl in Hk.
  repeat destruct Hk as [<-|Hk]; try contradiction; simpl; intros [= <-]; simpl;
    repeat (constructor; [simpl; intuition discriminate|]); constructor.
Qed.

Lemma delete_key_distinct (m : JsVal) :
  merged_distinct m -> merged_distinct (HooksConfig.delete_key "environments" m).
Proof.
  intros (ps & -> & Hps & Hd).
  destruct (delete_key_merged (JObj ps)) as (ps' & Heq & Hps'); [now exists ps|].
  exists ps'. split; [exact Heq|]. split; [exact Hps'|].
  simpl in Heq. injection Heq as <-. intros k s Hk.
  rewrite lookup_delete_prop_ne; [now apply Hd|].
  intros <-. unfold Spec.section_keys in Hk. simpl in Hk.
  repeat destruct Hk as [Hk|Hk]; try discriminate Hk; contradiction.
Qed.

(** What the merges of [getConfig] leave before the caller's overrides
    come. *)
Lemma base_layers_distinct (e : ProcessEnv)
    (modules : string -> HooksConfig.ConfigModule) (projectType : string) :
  Spec.modules_ok modules ->
  merged_distinct
    (HooksConfig.deepMerge
       (HooksConfig.delete_key "environments"
          (HooksConfig.deepMerge (CommonConfig.config e)
             (or_else (opt_member (opt_member (CommonConfig.config e) "environments")
                                  (HooksConfig.getEnvironment e))
                      (JObj []))))
       (HooksConfig.loadProjectConfig modules projectType)).
Proof.
  intros Hm.
  apply deepMerge_distinct; [|now apply loadProjectConfig_ok].
  apply delete_key_distinct, deepMerge_distinct;
    [apply common_config_distinct | apply environment_overlay_ok].
Qed.

(** The section a layer of overrides leaves in the merge, at a key where the
    layer holds a value that is no object and no array. *)
Lemma deepMerge_user_section (tps ups sps : Props) (section key : string)
    (v : JsVal) :
  props_ok tps -> sections_distinct tps -> In section Spec.section_keys ->
  List.NoDup (map fst ups) -> lookup_prop section ups = Some (JObj sps) ->
  List.NoDup (map fst sps) -> lookup_prop key sps = Some v ->
  HooksConfig.isObject v = false -> isArray v = false ->
  exists sec,
    get (HooksConfig.deepMerge (JObj tps) (JObj ups)) section = JObj sec
    /\ List.NoDup (map fst sec) /\ lookup_prop key sec = Some v.
Proof.
  intros (Htop & Hall & _) Hd Hk Hndu Hu Hnds Hv Hobj Harr.
  destruct (Hall section Hk) as [s Hs].
  pose proof (lookup_prop_Forall _ _ _ _ Htop Hs Hk) as (tsec & Heq & _).
  simpl in Heq. subst s.
  rewrite deepMerge_unfold.
  cbn [HooksConfig.isObject truthy typeof_object isArray andb negb].
  rewrite (get_own _ _ _ (lookup_mergeEntries_source _ _ _ _ _ Hndu Hu)).
  unfold HooksConfig.mergeValue at 1.
  cbn [HooksConfig.isObject truthy typeof_object isArray andb negb].
  unfold has_property. rewrite Hs. cbn [negb].
  rewrite (get_own _ _ _ Hs), deepMerge_unfold.
  cbn [HooksConfig.isObject truthy typeof_object isArray andb negb own_enumerable].
  eexists. split; [reflexivity|]. split.
  - apply mergeEntries_NoDup. exact (Hd section _ Hk Hs).
  - rewrite (lookup_mergeEntries_source _ _ _ _ _ Hnds Hv).
    unfold HooksConfig.mergeValue. now rewrite Hobj, Harr.
Qed.

Lemma hookSection_lookup (d o section : JsVal) (sec : Props) (key : string)
    (v : JsVal) :
  o = JObj sec -> List.NoDup (map fst sec) -> lookup_prop key sec = Some v ->
  key <> "checks" ->
  HooksConfig.hookSection d o = Ok section -> get section key = v.
Proof.
  intros -> Hnd Hv Hkey. unfold HooksConfig.hookSection.
  destruct (HooksConfig.sectionChecks d (JObj sec)) as [checks|msg]; simpl;
    [|discriminate].
  intros [= <-]. apply get_own.
  rewrite lookup_set_prop_ne by (intros E; now apply Hkey).
  now apply lookup_assign_all_last.
Qed.

(** X9.  The caller's overrides have the last word on the settings of a
    hook.  If [userConfig] holds, in its section [preCommit], [prePush] or
    [commitMsg], a value [v] that is no object and no array under a key
    other than [checks], then [getConfig] returns a configuration whose
    section reads [v] at that key, whatever the environment, the project
    overlay and the defaults say.  The precondition is that the project
    overlay and the overrides follow the schema of the hook sections (each
    hook section they hold is an object none of whose properties is named
    [__proto__], whose [enabled] is a boolean and whose [checks] is a list
    of descriptors) and that the overriding objects have distinct keys. *)
Theorem getConfig_override_wins (e : ProcessEnv)
    (modules : string -> HooksConfig.ConfigModule) (projectType : string)
    (ups sps : Props) (section key : string) (v : JsVal) :
  Spec.modules_ok modules ->
  follows_schema (HooksConfig.loadProjectConfig modules projectType) ->
  Spec.layer_ok (JObj ups) -> follows_schema (JObj ups) ->
  In section hook_keys ->
  List.NoDup (map fst ups) -> lookup_prop section ups = Some (JObj sps) ->
  List.NoDup (map fst sps) -> lookup_prop key sps = Some v ->
  key <> "checks" ->
  HooksConfig.isObject v = false -> isArray v = false ->
  exists cfg,
    HooksConfig.getConfig e modules projectType (JObj ups) = Ok cfg
    /\ get (get cfg section) key = v
    /\ key <> "__proto__".
Proof.
  intros Hm Hmp Hu Hup Hsec Hndu Hlu Hnds Hv Hkey Hobj Harr.
  assert (Hproto : key <> "__proto__").
  { pose proof (lookup_prop_Forall _ _ _ _ Hup Hlu) as [_ Hs]. simpl in Hs.
    specialize (Hs Hsec).
    pose proof (lookup_prop_Forall _ _ _ _ Hs Hv) as [Hk _]. exact Hk. }
  pose proof (merged_config_ok e modules projectType (JObj ups) Hm Hu) as Hok.
  destruct (base_layers_distinct e modules projectType Hm) as (tps & Eq & Hps & Hd).
  unfold HooksConfig.getConfig. cbv zeta. cbv iota in Hok.
  rewrite Eq in *.
  assert (Hsk : In section Spec.section_keys)
    by (unfold hook_keys, Spec.section_keys in *; simpl in *; tauto).
  destruct (deepMerge_user_section tps ups sps section key v Hps Hd Hsk Hndu Hlu
              Hnds Hv Hobj Harr) as (sec & Esec & Hndsec & Hlook).
  set (merged := HooksConfig.deepMerge (JObj tps) (JObj ups)) in *.
  assert (Hin : forall k, In k Spec.section_keys ->
            Spec.section_ok (get merged k)
            /\ (In k defaults_keys -> has_enabled (get merged k)))
    by (intros k; now apply merged_sections).
  destruct (hookSection_resolved (get merged "preCommitDefaults")
              (get merged "preCommit")) as (preCommit & Epc & _);
    try (apply Hin; simpl; tauto).
  destruct (hookSection_resolved (get merged "prePushDefaults")
              (get merged "prePush")) as (prePush & Epp & _);
    try (apply Hin; simpl; tauto).
  rewrite Epc, Epp. cbn [res_bind]. eexists. split; [reflexivity|].
  split; [|exact Hproto].
  unfold hook_keys in Hsec. simpl in Hsec.
  destruct Hsec as [<-|[<-|[<-|[]]]].
  - rewrite (get_own _ "preCommit" preCommit) by reflexivity.
    exact (hookSection_lookup _ _ _ sec key v Esec Hndsec Hlook Hkey Epc).
  - rewrite (get_own _ "prePush" prePush) by reflexivity.
    exact (hookSection_lookup _ _ _ sec key v Esec Hndsec Hlook Hkey Epp).
  - erewrite (get_own _ "commitMsg") by reflexivity.
    apply get_own. rewrite Esec. cbn [own_enumerable].
    now apply lookup_assign_all_last.
Qed.

Lemma getConfig_override_wins_witness :
  exists cfg,
    HooksConfig.getConfig Samples.production HooksConfig.repo_modules "nextjs"
      (JObj [("prePush", JObj [("enabled", JBool false)])]) = Ok cfg
    /\ get (get cfg "prePush") "enabled" = JBool false
    /\ "enabled" <> "__proto__".
Proof.
  apply (getConfig_override_wins Samples.production HooksConfig.repo_modules
           "nextjs" [("prePush", JObj [("enabled", JBool false)])]
           [("enabled", JBool false)] "prePush" "enabled" (JBool false)).
  - exact repo_modules_ok.
  - simpl. solve_schema.
  - simpl. solve_top.
  - simpl. solve_schema.
  - unfold hook_keys. simpl. tauto.
  - repeat constructor. simpl. tauto.
  - reflexivity.
  - repeat constructor. simpl. tauto.
  - reflexivity.
  - discriminate.
  - reflexivity.
  - reflexivity.
Defined.

(** ** hooks/pre-commit.js and hooks/pre-push.js: which checks run *)

Section RunnerFacts.

Variable World : Type.
Variable run_check : string -> World -> Hooks.CheckOutcome * World.

Local Abbreviation loop := (Hooks.loop World run_check).
Local Abbreviation runChecks := (Hooks.runChecks World run_check).
Local Abbreviation rs_trace := (Hooks.rs_trace World).

(** However a loop ends, the checks it invoked are the first ones of its
    list, in order. *)
Lemma loop_trace_prefix (checks : list JsVal) (st : Hooks.RunState World) :
  exists entries,
    rs_trace (end_state (loop checks st)) = rs_trace st ++ entries
    /\ map fst entries `prefix_of` checks.
Proof.
  revert st. induction checks as [|check rest IH]; intros st; simpl.
  - exists []. split; [now rewrite app_nil_r|apply prefix_nil].
  - destruct (run_check (Hooks.moduleName check) (Hooks.rs_world World st))
      as [outcome w] eqn:E.
    set (st' := Hooks.record World st check outcome w).
    assert (Hone : exists entries,
              rs_trace st' = rs_trace st ++ entries
              /\ map fst entries `prefix_of` check :: rest).
    { exists [(check, outcome)]. split; [reflexivity|]. simpl.
      apply prefix_cons, prefix_nil. }
    assert (Hmore : exists entries,
              rs_trace (end_state (loop rest st')) = rs_trace st ++ entries
              /\ map fst entries `prefix_of` check :: rest).
    { destruct (IH st') as (entries & Htr & Hpre).
      exists ((check, outcome) :: entries). split.
      - rewrite Htr. unfold st'. simpl. now rewrite <- app_assoc.
      - simpl. now apply prefix_cons. }
    destruct outcome; [exact Hmore| |exact Hone].
    destruct (truthy (get check "critical")); [exact Hone|exact Hmore].
Qed.

Lemma runChecks_end (checks : list JsVal) (w : World) :
  snd (runChecks checks (Hooks.start World w))
  = end_state (loop checks (Hooks.start World w)).
Proof.
  rewrite runChecks_start. now destruct (loop checks (Hooks.start World w)).
Qed.

Lemma filterEnabled_filter (l result : list JsVal) :
  Hooks.filterEnabled l = Ok result ->
  result = List.filter (fun check => truthy (get check "enabled")) l.
Proof.
  revert result. induction l as [|check l IH]; intros result; simpl.
  - now intros [= <-].
  - unfold member. destruct (is_nullish check); simpl; [discriminate|].
    destruct (Hooks.filterEnabled l) as [tail|msg]; simpl; [|discriminate].
    intros [= <-]. rewrite (IH tail eq_refl).
    now destruct (truthy (get check "enabled")).
Qed.

Lemma enabledChecks_enabled_of (checks : JsVal) (result : list JsVal) :
  Hooks.enabledChecks checks = Ok result -> result = enabled_of checks.
Proof.
  destruct checks; simpl; try discriminate. apply filterEnabled_filter.
Qed.

Lemma runChecks_invoked (checks : JsVal) (l : list JsVal) (w : World) :
  Hooks.enabledChecks checks = Ok l ->
  Spec.invoked (snd (runChecks l (Hooks.start World w)))
  `prefix_of` enabled_of checks.
Proof.
  intros Hl. rewrite runChecks_end, <- (enabledChecks_enabled_of _ _ Hl).
  destruct (loop_trace_prefix l (Hooks.start World w)) as (entries & Htr & Hpre).
  unfold Spec.invoked. rewrite Htr. exact Hpre.
Qed.

(** X10.  Whatever the configuration, the repository and the check modules
    do, and however the run ends (it returns, it rejects or it never
    settles), the modules a hook invokes are those of the entries of its
    [checks] list whose [enabled] is truthy, in the order of the list and
    without a gap: the invoked checks are the first ones of the enabled
    ones.  This holds of [runPreCommitChecks] and of [runPrePushChecks]. *)
Theorem hooks_invoke_enabled_checks_in_order (config : JsVal) (git : Hooks.Git)
    (w : World) :
  Spec.invoked (snd (Hooks.runPreCommitChecks World run_check config git w))
    `prefix_of` enabled_of (get (get config "preCommit") "checks")
  /\ Spec.invoked (snd (Hooks.runPrePushChecks World run_check config git w))
    `prefix_of` enabled_of (get (get config "prePush") "checks").
Proof.
  split.
  - unfold Hooks.runPreCommitChecks, Hooks.rejected.
    repeat match goal with
           | |- context [match ?x with _ => _ end] =>
               let E := fresh "E" in destruct x eqn:E
           end;
      try apply prefix_nil; now apply runChecks_invoked.
  - unfold Hooks.runPrePushChecks, Hooks.rejected.
    repeat match goal with
           | |- context [match ?x with _ => _ end] =>
               let E := fresh "E" in destruct x eqn:E
           end;
      try apply prefix_nil; now apply runChecks_invoked.
Qed.

End RunnerFacts.

Section RunnerVerdicts.

Variable World : Type.
Variable run_check : string -> World -> Hooks.CheckOutcome * World.

Lemma runChecks_false (checks : JsVal) (l : list JsVal) (w : World)
    (st : Hooks.RunState World) :
  Hooks.enabledChecks checks = Ok l ->
  Hooks.runChecks World run_check l (Hooks.start World w)
    = (Hooks.Returns (JBool false), st) ->
  exists entries c message,
    Hooks.rs_trace World st = entries ++ [(c, Hooks.Fails message)]
    /\ truthy (get c "critical") = true
    /\ truthy (get c "enabled") = true.
Proof.
  intros Hl. rewrite runChecks_start.
  destruct (Hooks.loop World run_check l (Hooks.start World w)) as [st'|st'|st'] eqn:E;
    try discriminate.
  intros [= <-].
  destruct (loop_aborted World run_check _ _ _ E)
    as (entries & c & message & Htr & Hcrit & rest & Hlist).
  exists entries, c, message. split; [exact Htr|]. split; [exact Hcrit|].
  pose proof (enabledChecks_enabled_of _ _ Hl) as Heq.
  assert (Hin : In c l) by (rewrite Hlist; apply in_or_app; right; now left).
  rewrite Heq in Hin. destruct checks; simpl in Hin; try contradiction.
  apply List.filter_In in Hin. tauto.
Qed.

(** X11.  A hook answers [false] in one case only: a check that is switched
    on and flagged critical threw, and it was the last one invoked.  (The
    summary after the loop, which looks for failed critical entries among
    the results, never finds one.)  This holds of [runPreCommitChecks] and
    of [runPrePushChecks]. *)
Theorem hook_false_only_at_critical_failure (config : JsVal) (git : Hooks.Git)
    (w : World) (st : Hooks.RunState World) :
  Hooks.runPreCommitChecks World run_check config git w
    = (Hooks.Returns (JBool false), st)
  \/ Hooks.runPrePushChecks World run_check config git w
     = (Hooks.Returns (JBool false), st) ->
  exists entries c message,
    Hooks.rs_trace World st = entries ++ [(c, Hooks.Fails message)]
    /\ truthy (get c "critical") = true
    /\ truthy (get c "enabled") = true.
Proof.
  intros [H|H].
  - unfold Hooks.runPreCommitChecks, Hooks.rejected in H.
    repeat match type of H with
           | context [match ?x with _ => _ end] =>
               let E := fresh "E" in destruct x eqn:E
           end;
      try discriminate H.
    eapply runChecks_false; eassumption.
  - unfold Hooks.runPrePushChecks, Hooks.rejected in H.
    repeat match type of H with
           | context [match ?x with _ => _ end] =>
               let E := fresh "E" in destruct x eqn:E
           end;
      try discriminate H.
    eapply runChecks_false; eassumption.
Qed.

End RunnerVerdicts.

Lemma hook_false_only_at_critical_failure_witness :
  exists entries c message,
    Hooks.rs_trace unit
      (snd (Hooks.runPreCommitChecks unit (Samples.failing ["A"])
              (JObj [("preCommit",
                       JObj [("enabled", JBool true);
                             ("checks", JArr [Samples.A_critical; Samples.B_critical])])])
              (Samples.repo "main" "feat: add login") tt))
    = entries ++ [(c, Hooks.Fails message)]
    /\ truthy (get c "critical") = true
    /\ truthy (get c "enabled") = true.
Proof.
  apply (hook_false_only_at_critical_failure unit (Samples.failing ["A"])
           (JObj [("preCommit",
                    JObj [("enabled", JBool true);
                          ("checks", JArr [Samples.A_critical; Samples.B_critical])])])
           (Samples.repo "main" "feat: add login") tt).
  left. vm_compute. reflexivity.
Defined.

(** ** hooks/commit-msg.js: what the hook accepts *)

Lemma trim_start_head (cs : list ascii) :
  match trim_start cs with [] => True | c :: _ => is_space c = false end.
Proof.
  induction cs as [|a cs IH]; simpl; [exact I|].
  destruct (is_space a) eqn:E; [exact IH|exact E].
Qed.

Lemma trim_start_fixed (cs : list ascii) :
  match cs with [] => True | c :: _ => is_space c = false end ->
  trim_start cs = cs.
Proof. destruct cs; simpl; [reflexivity|]. now intros ->. Qed.

Lemma trim_start_suffix (cs : list ascii) : exists sp, cs = sp ++ trim_start cs.
Proof.
  induction cs as [|a cs [sp IH]]; simpl; [now exists []|].
  destruct (is_space a); [|now exists []].
  exists (a :: sp). simpl. now f_equal.
Qed.

Lemma trim_chars_fixed (cs : list ascii) :
  let t := rev (trim_start (rev (trim_start cs))) in
  trim_start t = t /\ trim_start (rev t) = rev t.
Proof.
  intros t. subst t. set (u := trim_start cs). set (v := trim_start (rev u)).
  split.
  - destruct (trim_start_suffix (rev u)) as [sp Hsp]. fold v in Hsp.
    assert (Hu : u = rev v ++ rev sp)
      by (rewrite <- rev_app_distr, <- Hsp; symmetry; apply rev_involutive).
    pose proof (trim_start_head cs) as Hhead. fold u in Hhead.
    apply trim_start_fixed. destruct (rev v) as [|c r]; [exact I|].
    rewrite Hu in Hhead. exact Hhead.
  - rewrite rev_involutive. apply trim_start_fixed. apply trim_start_head.
Qed.

Lemma chars_of_list (l : list ascii) : chars (string_of_list_ascii l) = l.
Proof. apply list_ascii_of_string_of_list_ascii. Qed.

(** Trimming a trimmed text changes nothing. *)
Lemma trim_idempotent (s : string) : trim (trim s) = trim s.
Proof.
  unfold trim. rewrite chars_of_list.
  destruct (trim_chars_fixed (chars s)) as [H1 H2]. simpl in H1, H2.
  rewrite H1, H2. now rewrite rev_involutive.
Qed.

Lemma stripComments_trimmed (raw : string) :
  trim (Validator.stripComments raw) = Validator.stripComments raw.
Proof. apply trim_idempotent. Qed.

Lemma parse_test (m : string) (r : RegExp) :
  RegExpOps.global r = false ->
  match CommitMsg.parseCommitMessage m r with Some _ => true | None => false end
  = RegExpOps.test r m.
Proof.
  intros Hg. unfold CommitMsg.parseCommitMessage, RegExpOps.string_match, RegExpOps.test.
  rewrite Hg. now destruct (RegExpOps.exec_first r m).
Qed.


(** The configuration [getConfig] resolves from the files of the repository
    alone: its [commitMsg] section is the defaults section of the base
    configuration, which no environment and no project overlay touches, and
    its [skipCI] is off whenever [CI] is set. *)
Lemma repo_project_cases (projectType : string) :
  In (HooksConfig.loadProjectConfig HooksConfig.repo_modules projectType)
     [JObj []; ProjectConfigs.nextjs; ProjectConfigs.vite].
Proof.
  unfold HooksConfig.loadProjectConfig, HooksConfig.repo_modules.
  destruct (String.eqb projectType "common"); [simpl; tauto|].
  destruct (String.eqb projectType "nextjs"); [simpl; tauto|].
  destruct (String.eqb projectType "vite"); simpl; tauto.
Qed.

Lemma environment_ci (e : ProcessEnv) :
  env_is (env_CI e) "true" = true -> HooksConfig.getEnvironment e = "ci".
Proof. unfold HooksConfig.getEnvironment. now intros ->. Qed.

Lemma getConfig_repo_facts (e : ProcessEnv) (projectType : string) :
  exists cfg,
    HooksConfig.getConfig e HooksConfig.repo_modules projectType JUndef = Ok cfg
    /\ is_nullish cfg = false
    /\ get cfg "commitMsg" = get (CommonConfig.config e) "commitMsgDefaults"
    /\ truthy (opt_member (get cfg "general") "skipCI") && env_is (env_CI e) "true"
       = false
    /\ map Hooks.moduleName (enabled_of (get (get cfg "preCommit") "checks"))
       = ["lint-staged"; "typescript"]
    /\ map Hooks.moduleName (enabled_of (get (get cfg "prePush") "checks"))
       = ["build"]
    /\ truthy (opt_member (get cfg "prePush") "enabled")
       = negb (String.eqb (HooksConfig.getEnvironment e) "development")
    /\ truthy (opt_member (get cfg "preCommit") "enabled") = true
    /\ get (get cfg "preCommit") "skipPattern" = JRegExp CommonConfig.skipPattern
    /\ get (get cfg "prePush") "skipBranches"
       = JArr [ JStr "main"; JStr "master"; JStr "develop"; JStr "release/*" ].
Proof.
  pose proof (environment_cases e) as Henv.
  pose proof (repo_project_cases projectType) as Hproj.
  pose proof (environment_ci e) as Hci.
  unfold HooksConfig.getConfig, CommonConfig.config.
  set (env := HooksConfig.getEnvironment e) in *.
  set (proj := HooksConfig.loadProjectConfig _ _) in *.
  set (ci := env_is (env_CI e) "true") in *.
  clearbody env proj ci. simpl in Henv, Hproj.
  destruct Henv as [<-|[<-|[<-|[<-|[]]]]];
    destruct Hproj as [<-|[<-|[<-|[]]]];
    destruct ci; try (specialize (Hci eq_refl); discriminate Hci);
    (eexists; apply conj; [vm_compute; reflexivity|]);
    (apply conj; [reflexivity|]);
    repeat (apply conj; [vm_compute; reflexivity|]);
    vm_compute; reflexivity.
Qed.

Section ValidatorFacts.

Variable RegExp_new : string -> string -> Res RegExp.
Variable ToNumber_other : JsVal -> Validator.Number.
Variable function_length : Z.

Local Abbreviation validate :=
  (Validator.validate RegExp_new ToNumber_other function_length).
Local Abbreviation validateCommitMessage :=
  (Validator.validateCommitMessage RegExp_new ToNumber_other function_length).
Local Abbreviation checkMessage :=
  (Validator.checkMessage RegExp_new ToNumber_other function_length).

Lemma checkMessage_defaults (e : ProcessEnv) (m : string) :
  trim m = m ->
  exists verdict,
    Validator.checkMessage RegExp_new ToNumber_other function_length
      (get (CommonConfig.config e) "commitMsgDefaults") m = Ok verdict
    /\ Validator.accepted verdict = passes_defaults m.
Proof.
  intros Htrim. unfold Validator.checkMessage, passes_defaults.
  change (truthy (JStr m)) with (negb (String.eqb m "")).
  destruct (String.eqb m ""); [eexists; split; reflexivity|].
  cbn [negb andb].
  unfold Validator.isSpecialCommit. rewrite Htrim.
  change (member (get (CommonConfig.config e) "commitMsgDefaults") "autoSkipPattern")
    with (Ok JUndef).
  cbn [res_bind truthy].
  change (HooksConfig.not_false (get (get (CommonConfig.config e) "commitMsgDefaults") "allowMerge")) with true.
  change (HooksConfig.not_false (get (get (CommonConfig.config e) "commitMsgDefaults") "allowRevert")) with true.
  change (HooksConfig.not_false (get (get (CommonConfig.config e) "commitMsgDefaults") "allowSquash")) with false.
  rewrite !andb_true_r, andb_false_r.
  destruct (starts_with (chars "Merge ") (chars m)); [eexists; split; reflexivity|].
  destruct (starts_with (chars "Revert ") (chars m)); [eexists; split; reflexivity|].
  cbn [orb].
  change (get (get (CommonConfig.config e) "commitMsgDefaults") "minLength") with (JNum 10).
  change (get (get (CommonConfig.config e) "commitMsgDefaults") "maxLength") with (JNum 100).
  change (get (get (CommonConfig.config e) "commitMsgDefaults") "pattern")
    with (JRegExp CommonConfig.commitPattern).
  change (get (get (CommonConfig.config e) "commitMsgDefaults") "types") with JUndef.
  change (get (get (CommonConfig.config e) "commitMsgDefaults") "scopes") with JUndef.
  change (get (get (CommonConfig.config e) "commitMsgDefaults") "requireScope") with JUndef.
  change (get (get (CommonConfig.config e) "commitMsgDefaults") "allowEmoji") with JUndef.
  cbn [truthy Z.eqb negb Validator.to_number Validator.lt_number Validator.gt_number
       CommitMsg.parsePattern res_bind].
  rewrite <- (parse_test m CommonConfig.commitPattern eq_refl).
  rewrite (Z.leb_antisym _ 10), (Z.leb_antisym 100).
  destruct (Z.of_nat (String.length m) <? 10)%Z; [eexists; split; reflexivity|].
  destruct (100 <? Z.of_nat (String.length m))%Z; [eexists; split; reflexivity|].
  cbn [negb andb].
  destruct (CommitMsg.parseCommitMessage m CommonConfig.commitPattern);
    eexists; split; reflexivity.
Qed.


Lemma res_bind_ok {A B} (r : Res A) (k : A -> Res B) (b : B) :
  res_bind r k = Ok b -> exists a, r = Ok a /\ k a = Ok b.
Proof. destruct r as [a|msg]; simpl; [eauto|discriminate]. Qed.

Lemma includes_array (ts : list JsVal) (x : JsVal) :
  Validator.includes (JArr ts) x = Ok true -> In x ts.
Proof.
  simpl. intros [= H]. apply existsb_exists in H. destruct H as (t & Ht & Heq).
  now rewrite (strict_equals_true _ _ Heq).
Qed.

Lemma no_list_array (ts : list JsVal) :
  Validator.no_list function_length (JArr ts) = true -> ts = [].
Proof.
  unfold Validator.no_list. simpl. destruct ts; [reflexivity|discriminate].
Qed.

Lemma checkMessage_valid (cm : JsVal) (m : string) (parsed : CommitMsg.Parsed) :
  checkMessage cm m = Ok (Validator.Valid parsed) ->
  m <> ""
  /\ Validator.isSpecialCommit RegExp_new m cm = Ok false
  /\ (exists pattern,
        CommitMsg.parsePattern RegExp_new (get cm "pattern") = Ok pattern
        /\ CommitMsg.parseCommitMessage m pattern = Some parsed)
  /\ (forall lo, get cm "minLength" = JNum lo -> (lo <= Z.of_nat (String.length m))%Z)
  /\ (forall hi, get cm "maxLength" = JNum hi -> hi <> 0%Z ->
        (Z.of_nat (String.length m) <= hi)%Z)
  /\ (forall ts, get cm "types" = JArr ts -> ts = [] \/ In (CommitMsg.p_type parsed) ts)
  /\ (forall ss, get cm "scopes" = JArr ss ->
        ss = [] \/ In (CommitMsg.p_scope parsed) ss)
  /\ (truthy (get cm "requireScope") = true ->
      truthy (CommitMsg.p_scope parsed) = true).
Proof.
  unfold Validator.checkMessage. intros H.
  destruct (truthy (JStr m)) eqn:Hm; cbn [negb] in H; [|discriminate].
  apply res_bind_ok in H. destruct H as (special & Hspecial & H).
  destruct special; [discriminate|].
  destruct (Validator.lt_number _ _) eqn:Hlo in H; [discriminate|].
  destruct (Validator.gt_number _ _) eqn:Hhi in H; [discriminate|].
  apply res_bind_ok in H. destruct H as (pattern & Hpattern & H).
  destruct (CommitMsg.parseCommitMessage m pattern) as [p|] eqn:Hparse; [|discriminate].
  apply res_bind_ok in H. destruct H as (typeOk & Htype & H).
  destruct typeOk; cbn [negb] in H; [|discriminate].
  destruct (truthy (get cm "requireScope") && negb (truthy (CommitMsg.p_scope p)))
    eqn:Hreq; [discriminate|].
  apply res_bind_ok in H. destruct H as (scopeOk & Hscope & H).
  destruct scopeOk; cbn [negb] in H; [|discriminate].
  destruct (strict_equals _ _ && _) in H; [discriminate|].
  injection H as <-.
  split; [intros ->; discriminate Hm|]. split; [exact Hspecial|].
  split; [now exists pattern|]. split; [|split; [|split; [|split]]].
  - intros lo Elo. rewrite Elo in Hlo. simpl in Hlo.
    destruct (lo =? 0)%Z eqn:E0; simpl in Hlo; apply Z.ltb_ge in Hlo; [|exact Hlo].
    apply Z.eqb_eq in E0. lia.
  - intros hi Ehi Hne. rewrite Ehi in Hhi. simpl in Hhi.
    apply Z.eqb_neq in Hne. rewrite Hne in Hhi. simpl in Hhi.
    now apply Z.ltb_ge in Hhi.
  - intros ts Ets. rewrite Ets in Htype. unfold Validator.validateType in Htype.
    destruct (Validator.no_list function_length (JArr ts)) eqn:En.
    + left. now apply no_list_array in En.
    + right. now apply includes_array.
  - intros ss Ess. rewrite Ess in Hscope. unfold Validator.validateScope in Hscope.
    destruct (Validator.no_list function_length (JArr ss)) eqn:En.
    + left. now apply no_list_array in En.
    + right. destruct (truthy (CommitMsg.p_scope p)); cbn [negb] in Hscope;
        [|discriminate]. now apply includes_array.
  - intros Hr. rewrite Hr in Hreq. simpl in Hreq.
    now destruct (truthy (CommitMsg.p_scope p)).
Qed.


(** X13.  What an accepted message satisfies, for any configuration.  If
    the hook reports the message as valid, then the message file was read,
    and the message left after dropping the comment lines is not empty, is
    no special commit, is parsed by the configured pattern, has at least
    [minLength] characters and, unless [maxLength] is 0, at most [maxLength]
    (for limits that are numbers), has a type in the list [types] and a
    scope in the list [scopes] unless the list is empty, and has a scope if
    [requireScope] is set. *)
Theorem validate_valid_sound (config : JsVal) (ci argv2 : option string)
    (readFile : string -> Res string) (parsed : CommitMsg.Parsed) :
  validate config ci argv2 readFile = Ok (Validator.Valid parsed) ->
  exists file raw,
    argv2 = Some file /\ readFile file = Ok raw
    /\ truthy (get (get config "commitMsg") "enabled") = true
    /\ let m := Validator.stripComments raw in
       let cm := get config "commitMsg" in
       m <> ""
       /\ Validator.isSpecialCommit RegExp_new m cm = Ok false
       /\ (exists pattern,
             CommitMsg.parsePattern RegExp_new (get cm "pattern") = Ok pattern
             /\ CommitMsg.parseCommitMessage m pattern = Some parsed)
       /\ (forall lo, get cm "minLength" = JNum lo ->
             (lo <= Z.of_nat (String.length m))%Z)
       /\ (forall hi, get cm "maxLength" = JNum hi -> hi <> 0%Z ->
             (Z.of_nat (String.length m) <= hi)%Z)
       /\ (forall ts, get cm "types" = JArr ts ->
             ts = [] \/ In (CommitMsg.p_type parsed) ts)
       /\ (forall ss, get cm "scopes" = JArr ss ->
             ss = [] \/ In (CommitMsg.p_scope parsed) ss)
       /\ (truthy (get cm "requireScope") = true ->
           truthy (CommitMsg.p_scope parsed) = true).
Proof.
  unfold Validator.validate, member. intros H.
  destruct (is_nullish config); [discriminate|]. cbn [res_bind] in H.
  unfold opt_member in H.
  destruct (is_nullish (get config "commitMsg")) eqn:Hcm;
    [discriminate|].
  destruct (truthy (get (get config "commitMsg") "enabled")) eqn:Hen;
    cbn [negb] in H; [|discriminate].
  destruct (truthy _ && env_is ci "true") in H; [discriminate|].
  destruct argv2 as [file|]; [|discriminate].
  destruct (truthy (JStr file)); cbn [negb] in H; [|discriminate].
  destruct (readFile file) as [raw|msg] eqn:Hread; cbn [res_bind] in H;
    [|discriminate].
  destruct (checkMessage (get config "commitMsg") (Validator.stripComments raw))
    as [verdict|msg] eqn:Hcheck; [|discriminate].
  injection H as ->.
  exists file, raw. split; [reflexivity|]. split; [exact Hread|].
  split; [reflexivity|]. now apply checkMessage_valid.
Qed.

End ValidatorFacts.


Lemma validate_valid_sound_witness :
  exists file raw,
    Some ".git/COMMIT_EDITMSG" = Some file /\ message_file file = Ok raw
    /\ truthy (get (get commit_config "commitMsg") "enabled") = true
    /\ let m := Validator.stripComments raw in
       let cm := get commit_config "commitMsg" in
       m <> ""
       /\ Validator.isSpecialCommit no_engine m cm = Ok false
       /\ (exists pattern,
             CommitMsg.parsePattern no_engine (get cm "pattern") = Ok pattern
             /\ CommitMsg.parseCommitMessage m pattern
                = Some (CommitMsg.MkParsed (JStr "feat") (JStr "button") ""
                          "feat(button): add variant"))
       /\ (forall lo, get cm "minLength" = JNum lo ->
             (lo <= Z.of_nat (String.length m))%Z)
       /\ (forall hi, get cm "maxLength" = JNum hi -> hi <> 0%Z ->
             (Z.of_nat (String.length m) <= hi)%Z)
       /\ (forall ts, get cm "types" = JArr ts ->
             ts = []
             \/ In (CommitMsg.p_type
                      (CommitMsg.MkParsed (JStr "feat") (JStr "button") ""
                         "feat(button): add variant")) ts)
       /\ (forall ss, get cm "scopes" = JArr ss ->
             ss = []
             \/ In (CommitMsg.p_scope
                      (CommitMsg.MkParsed (JStr "feat") (JStr "button") ""
                         "feat(button): add variant")) ss)
       /\ (truthy (get cm "requireScope") = true ->
           truthy (CommitMsg.p_scope
                     (CommitMsg.MkParsed (JStr "feat") (JStr "button") ""
                        "feat(button): add variant")) = true).
Proof.
  apply (validate_valid_sound no_engine nan_of 0 commit_config None
           (Some ".git/COMMIT_EDITMSG") message_file
           (CommitMsg.MkParsed (JStr "feat") (JStr "button") ""
              "feat(button): add variant")).
  vm_compute. reflexivity.
Defined.

(** ** The hooks under the configuration of the repository *)

(** The checks that are switched on in the configuration [getConfig]
    resolves from the files of the repository: two for the pre-commit hook
    and one for the pre-push hook, each flagged critical. *)
Lemma getConfig_repo_checks (e : ProcessEnv) (projectType : string) :
  exists cfg lint ts build,
    HooksConfig.getConfig e HooksConfig.repo_modules projectType JUndef = Ok cfg
    /\ Hooks.enabledChecks (get (get cfg "preCommit") "checks") = Ok [lint; ts]
    /\ Hooks.enabledChecks (get (get cfg "prePush") "checks") = Ok [build]
    /\ map Hooks.moduleName [lint; ts; build] = ["lint-staged"; "typescript"; "build"]
    /\ map (fun c => truthy (get c "critical")) [lint; ts; build] = [true; true; true]
    /\ truthy (opt_member (get cfg "prePush") "enabled")
       = negb (String.eqb (HooksConfig.getEnvironment e) "development")
    /\ truthy (opt_member (get cfg "preCommit") "enabled") = true
    /\ get (get cfg "preCommit") "skipPattern" = JRegExp CommonConfig.skipPattern
    /\ get (get cfg "prePush") "skipBranches"
       = JArr [ JStr "main"; JStr "master"; JStr "develop"; JStr "release/*" ].
Proof.
  pose proof (environment_cases e) as Henv.
  pose proof (repo_project_cases projectType) as Hproj.
  unfold HooksConfig.getConfig, CommonConfig.config.
  set (env := HooksConfig.getEnvironment e) in *.
  set (proj := HooksConfig.loadProjectConfig _ _) in *.
  set (ci := env_is (env_CI e) "true") in *.
  clearbody env proj ci. simpl in Henv, Hproj.
  destruct Henv as [<-|[<-|[<-|[<-|[]]]]];
    destruct Hproj as [<-|[<-|[<-|[]]]];
    destruct ci;
    (do 4 eexists; apply conj; [vm_compute; reflexivity|]);
    repeat (apply conj; [vm_compute; reflexivity|]);
    vm_compute; reflexivity.
Qed.

Section RepoRuns.

Variable World : Type.
Variable run_check : string -> World -> Hooks.CheckOutcome * World.

Local Abbreviation runChecks := (Hooks.runChecks World run_check).

(** A run over one check that is flagged critical. *)
Lemma runChecks_one (a : JsVal) (w : World) :
  truthy (get a "critical") = true ->
  let first := run_check (Hooks.moduleName a) w in
  let run := runChecks [a] (Hooks.start World w) in
  fst run = verdict (fst first)
  /\ Spec.invoked (snd run) = [a]
  /\ Hooks.rs_world World (snd run) = snd first.
Proof.
  intros Ha. cbv zeta. rewrite runChecks_start. simpl.
  destruct (run_check (Hooks.moduleName a) w) as [o w1]. simpl.
  destruct o; simpl; rewrite ?Ha; repeat split.
Qed.

(** A run over two checks that are flagged critical. *)
Lemma runChecks_two (a b : JsVal) (w : World) :
  truthy (get a "critical") = true -> truthy (get b "critical") = true ->
  let first := run_check (Hooks.moduleName a) w in
  let second := run_check (Hooks.moduleName b) (snd first) in
  let run := runChecks [a; b] (Hooks.start World w) in
  match fst first with
  | Hooks.Passes =>
      fst run = verdict (fst second)
      /\ Spec.invoked (snd run) = [a; b]
      /\ Hooks.rs_world World (snd run) = snd second
  | other =>
      fst run = verdict other
      /\ Spec.invoked (snd run) = [a]
      /\ Hooks.rs_world World (snd run) = snd first
  end.
Proof.
  intros Ha Hb. cbv zeta. rewrite runChecks_start. simpl.
  destruct (run_check (Hooks.moduleName a) w) as [o w1]. simpl.
  destruct o; simpl; rewrite ?Ha; try (repeat split; fail).
  destruct (run_check (Hooks.moduleName b) w1) as [o2 w2]. simpl.
  destruct o2; simpl; rewrite ?Hb; repeat split.
Qed.

(** X14.  Which check modules the hooks run when the configuration is the
    one [getConfig] resolves from the files of the repository, for every
    environment and every project type that detection returns.  Unless the
    message of the last commit triggers the skip pattern, the pre-commit
    hook invokes [lint-staged] and, if that passes, [typescript], and
    nothing else; it answers [true] if both pass and [false] as soon as one
    throws, and it does not settle if one never settles.  Outside a
    development machine and off the branches of the skip list, the pre-push
    hook invokes [build] and nothing else, and answers as [build] does; on
    a development machine it invokes nothing and answers [true].  Whatever
    the repository and the modules do, no other check is run: the checks
    that the project overlays and the production overlay add ([next-lint],
    [next-build], [test], ...) never are. *)
Theorem repo_hooks_run_base_checks (e : ProcessEnv) (projectType : string)
    (w : World) :
  In projectType known_types ->
  exists cfg lint ts build,
    HooksConfig.getConfig e HooksConfig.repo_modules projectType JUndef = Ok cfg
    /\ map Hooks.moduleName [lint; ts; build]
       = ["lint-staged"; "typescript"; "build"]
    /\ (forall branch log,
          RegExpOps.test CommonConfig.skipPattern (trim log) = false ->
          let run := Hooks.runPreCommitChecks World run_check cfg
                       (Hooks.MkGit (Ok branch) (Ok log)) w in
          let first := run_check "lint-staged" w in
          let second := run_check "typescript" (snd first) in
          match fst first with
          | Hooks.Passes =>
              fst run = verdict (fst second)
              /\ Spec.invoked (snd run) = [lint; ts]
              /\ Hooks.rs_world World (snd run) = snd second
          | other =>
              fst run = verdict other
              /\ Spec.invoked (snd run) = [lint]
              /\ Hooks.rs_world World (snd run) = snd first
          end)
    /\ (forall out log,
          HooksConfig.getEnvironment e <> "development" ->
          ~ In (trim out) [ "main"; "master"; "develop"; "release/*" ] ->
          let run := Hooks.runPrePushChecks World run_check cfg
                       (Hooks.MkGit (Ok out) log) w in
          let first := run_check "build" w in
          fst run = verdict (fst first)
          /\ Spec.invoked (snd run) = [build]
          /\ Hooks.rs_world World (snd run) = snd first)
    /\ (HooksConfig.getEnvironment e = "development" ->
        forall git,
          Hooks.runPrePushChecks World run_check cfg git w
          = (Hooks.Returns (JBool true), Hooks.start World w))
    /\ (forall git,
          Spec.invoked (snd (Hooks.runPreCommitChecks World run_check cfg git w))
            `prefix_of` [lint; ts]
          /\ Spec.invoked (snd (Hooks.runPrePushChecks World run_check cfg git w))
            `prefix_of` [build]).
Proof.
  intros _.
  destruct (getConfig_repo_checks e projectType)
    as (cfg & lint & ts & build & Hcfg & Hpc & Hpp & Hnames & Hcrit & Hen & Hen'
        & Hskip & Hbranches).
  exists cfg, lint, ts, build. split; [exact Hcfg|]. split; [exact Hnames|].
  injection Hnames as Hn1 Hn2 Hn3. injection Hcrit as Hc1 Hc2 Hc3.
  split; [|split; [|split]].
  - intros branch log Hno. cbv zeta. unfold Hooks.runPreCommitChecks.
    rewrite Hen'. cbn [negb Hooks.git_branch Hooks.git_log].
    rewrite Hskip. cbn [truthy Hooks.skipPatternTest]. rewrite Hno, Hpc.
    rewrite <- Hn1, <- Hn2. now apply runChecks_two.
  - intros out log Hdev Hbranch. cbv zeta. unfold Hooks.runPrePushChecks.
    rewrite Hen. apply String.eqb_neq in Hdev. rewrite Hdev.
    cbn [negb Hooks.git_branch]. rewrite Hbranches.
    assert (Hinc : Hooks.includesBranch
                     (JArr [JStr "main"; JStr "master"; JStr "develop";
                            JStr "release/*"]) (trim out) = Ok false).
    { unfold Hooks.includesBranch. f_equal. simpl.
      repeat match goal with
             | |- context [String.eqb ?a ?b] =>
                 destruct (String.eqb_spec a b) as [E|_];
                 [exfalso; apply Hbranch; rewrite E; simpl; tauto|]
             end.
      reflexivity. }
    rewrite Hinc, Hpp. rewrite <- Hn3. now apply runChecks_one.
  - intros Hdev git. unfold Hooks.runPrePushChecks.
    rewrite Hen, Hdev. reflexivity.
  - intros git. split.
    + rewrite (enabledChecks_enabled_of _ _ Hpc).
      unfold Hooks.runPreCommitChecks, Hooks.rejected.
      repeat match goal with
             | |- context [match ?x with _ => _ end] =>
                 let E := fresh "E" in destruct x eqn:E
             end;
        try apply prefix_nil; now apply runChecks_invoked.
    + rewrite (enabledChecks_enabled_of _ _ Hpp).
      unfold Hooks.runPrePushChecks, Hooks.rejected.
      repeat match goal with
             | |- context [match ?x with _ => _ end] =>
                 let E := fresh "E" in destruct x eqn:E
             end;
        try apply prefix_nil; now apply runChecks_invoked.
Qed.

End RepoRuns.

Lemma repo_hooks_run_base_checks_witness :
  exists cfg,
    HooksConfig.getConfig Samples.production HooksConfig.repo_modules "nextjs" JUndef
      = Ok cfg
    /\ (let run := Hooks.runPreCommitChecks unit (Samples.failing []) cfg
                     (Samples.repo "feature/login" "feat: add login") tt in
        fst run = Hooks.Returns (JBool true)
        /\ map Hooks.moduleName (Spec.invoked (snd run))
           = ["lint-staged"; "typescript"])
    /\ (let run := Hooks.runPrePushChecks unit (Samples.failing []) cfg
                     (Samples.repo "feature/login" "feat: add login") tt in
        fst run = Hooks.Returns (JBool true)
        /\ map Hooks.moduleName (Spec.invoked (snd run)) = ["build"]).
Proof.
  destruct (repo_hooks_run_base_checks unit (Samples.failing [])
              Samples.production "nextjs" tt)
    as (cfg & lint & ts & build & Hcfg & Hnames & Hpre & Hpush & _);
    [simpl; tauto|].
  exists cfg. split; [exact Hcfg|].
  injection Hnames as Hn1 Hn2 Hn3.
  split.
  - destruct (Hpre ("feature/login" +:+ Samples.newline)
                   ("feat: add login" +:+ Samples.newline)) as (H1 & H2 & _);
      [vm_compute; reflexivity|].
    unfold Samples.repo. cbv zeta. rewrite H1, H2.
    split; [reflexivity|]. cbn [map]. rewrite Hn1, Hn2. reflexivity.
  - destruct (Hpush ("feature/login" +:+ Samples.newline)
                    (Ok ("feat: add login" +:+ Samples.newline)))
      as (H1 & H2 & _).
    + vm_compute. discriminate.
    + vm_compute. intuition discriminate.
    + unfold Samples.repo. cbv zeta. rewrite H1, H2.
      split; [reflexivity|]. cbn [map]. rewrite Hn3. reflexivity.
Defined.

(** ** scripts/utils/config-loader.js: fallback and cache *)

Section LoaderFacts.

Variable examples : JsVal.

Lemma getDefaultConfig_resolved (e : ProcessEnv) (projectRoot projectType : string) :
  Spec.resolved (Loader.getDefaultConfig examples e projectRoot projectType).
Proof.
  unfold Spec.resolved, Spec.enabled_resolved, Spec.checks_unique. simpl.
  repeat split; try (eexists; reflexivity);
    (eexists; split; [reflexivity|]); apply pairs_unique_names;
    repeat constructor.
Qed.

(** What [getConfig] returns when it is called with the project type alone,
    as the loader calls it. *)
Lemma getConfig_alone_resolved (e : ProcessEnv)
    (modules : string -> HooksConfig.ConfigModule) (projectType : string) :
  Spec.modules_ok modules ->
  exists ps,
    HooksConfig.getConfig e modules projectType JUndef = Ok (JObj ps)
    /\ Spec.resolved (JObj ps).
Proof.
  intros Hm. unfold HooksConfig.getConfig.
  pose proof (merged_config_ok e modules projectType JUndef Hm I) as Hok.
  set (merged := HooksConfig.deepMerge _ _) in *.
  assert (Hin : forall k, In k Spec.section_keys ->
            Spec.section_ok (get merged k)
            /\ (In k defaults_keys -> has_enabled (get merged k)))
    by (intros k; now apply merged_sections).
  destruct (hookSection_resolved (get merged "preCommitDefaults")
              (get merged "preCommit")) as (preCommit & -> & Hpc1 & Hpc2);
    try (apply Hin; simpl; tauto).
  destruct (hookSection_resolved (get merged "prePushDefaults")
              (get merged "prePush")) as (prePush & -> & Hpp1 & Hpp2);
    try (apply Hin; simpl; tauto).
  simpl. eexists. split; [reflexivity|].
  unfold Spec.resolved, Spec.enabled_resolved, Spec.checks_unique. simpl.
  repeat split; try assumption.
  apply (merged_section_enabled (get merged "commitMsgDefaults")
           (get merged "commitMsg") (fun ps => ps));
    try (apply Hin; simpl; tauto).
  reflexivity.
Qed.

(** X15.  The loader always ends with a configuration the hooks can use.
    If the project root can be listed, and the file [hooks-config.js], where
    one is found, is the one of the repository or fails to load, then
    [loadConfig] on a fresh loader returns a configuration, keeps it in its
    cache, and that configuration is resolved: each hook section has a
    boolean [enabled] and the check names of a section differ.  This holds
    whether the configuration file is missing, throws while loading, or is
    loaded (the fallback configuration covers the first two cases).  The
    precondition on the project overlays is that they follow the schema. *)
Theorem loadConfig_resolved (e : ProcessEnv) (dirname : list string)
    (files : Loader.Files) (modules : string -> HooksConfig.ConfigModule)
    (listing : list string) (cwd : string) :
  Spec.modules_ok modules ->
  ConfigLoader.root_readdir (Loader.f_root files) = Ok listing ->
  (forall path,
     Loader.f_require files path = Ok (Loader.hooks_config_js e modules)
     \/ exists err, Loader.f_require files path = Throw err) ->
  exists cfg written,
    Loader.loadConfig examples e dirname files (Loader.create cwd)
    = (Ok cfg, Loader.MkCache cfg true cwd, written)
    /\ truthy cfg = true
    /\ Spec.resolved cfg.
Proof.
  intros Hm Hlist Hreq. unfold Loader.loadConfig. simpl.
  destruct (Loader.f_root files) as [readdir manifest] eqn:Eroot.
  simpl in Hlist. subst readdir.
  destruct (detectProjectType_listed listing manifest) as (t & -> & _).
  assert (Hcfg : exists ps,
            Loader.loadConfigWithFallback examples e dirname files cwd t = JObj ps
            /\ Spec.resolved (JObj ps)).
  { unfold Loader.loadConfigWithFallback.
    assert (Hdef : exists ps,
              Loader.getDefaultConfig examples e cwd t = JObj ps
              /\ Spec.resolved (JObj ps))
      by (eexists; split; [reflexivity|apply getDefaultConfig_resolved]).
    destruct (Loader.findConfigPath dirname cwd files) as [path|];
      [|exact Hdef].
    destruct (Hreq path) as [->|[err ->]]; [|exact Hdef].
    simpl. destruct (getConfig_alone_resolved e modules t Hm) as (ps & -> & Hres).
    simpl. now exists ps. }
  destruct Hcfg as (ps & -> & Hres).
  simpl. eexists _, _. split; [reflexivity|]. split; [reflexivity|exact Hres].
Qed.

(** X16.  A configuration that was loaded is served from the cache.  After
    a call of [loadConfig] that returned a truthy configuration, every later
    call returns the same configuration, leaves the cache as it is and
    writes no file, whatever the environment and the files have become in
    the meantime: the project type is not detected again and the
    configuration file is not read again. *)
Theorem loadConfig_cached (e e' : ProcessEnv) (dirname dirname' : list string)
    (files files' : Loader.Files) (st st' : Loader.Cache) (cfg : JsVal)
    (written : list (string * JsVal)) :
  Loader.loadConfig examples e dirname files st = (Ok cfg, st', written) ->
  truthy cfg = true ->
  Loader.loadConfig examples e' dirname' files' st' = (Ok cfg, st', []).
Proof.
  unfold Loader.loadConfig. intros H Hcfg.
  destruct (Loader.c_isConfigLoaded st && truthy (Loader.c_config st)) eqn:Ec.
  - injection H as <- <- _. now rewrite Ec.
  - destruct (ConfigLoader.detectProjectType (Loader.f_root files)) as [t|err];
      [|discriminate].
    destruct (member _ "meta"); [|discriminate].
    injection H as <- <- _. simpl. now rewrite Hcfg.
Qed.

End LoaderFacts.

Lemma loadConfig_resolved_witness :
  exists cfg written,
    Loader.loadConfig JNull Samples.dev installed_dirname installed_files
      (Loader.create "/work/app")
    = (Ok cfg, Loader.MkCache cfg true "/work/app", written)
    /\ truthy cfg = true
    /\ Spec.resolved cfg.
Proof.
  apply (loadConfig_resolved JNull Samples.dev installed_dirname installed_files
           HooksConfig.repo_modules [ "package.json"; "vite.config.ts" ]
           "/work/app").
  - exact repo_modules_ok.
  - reflexivity.
  - intros path. left. reflexivity.
Defined.

Lemma loadConfig_cached_witness :
  Loader.loadConfig JNull Samples.production [] unreadable_files
    (Loader.MkCache (Samples.resolvedConfig Samples.dev "vite" JUndef) true
                    "/work/app")
  = (Ok (Samples.resolvedConfig Samples.dev "vite" JUndef),
     Loader.MkCache (Samples.resolvedConfig Samples.dev "vite" JUndef) true
                    "/work/app", []).
Proof.
  apply (loadConfig_cached JNull Samples.dev Samples.production installed_dirname []
           installed_files unreadable_files (Loader.create "/work/app")
           (Loader.MkCache (Samples.resolvedConfig Samples.dev "vite" JUndef) true
                           "/work/app")
           (Samples.resolvedConfig Samples.dev "vite" JUndef)
           (Loader.saveProjectConfig Samples.dev installed_files "/work/app"
              (Samples.resolvedConfig Samples.dev "vite" JUndef) "vite")).
  - vm_compute. reflexivity.
  - vm_compute. reflexivity.
Defined.

(** ** install.js *)

Lemma existsb_impl {A} (p q : A -> bool) (l : list A) :
  (forall x, p x = true -> q x = true) ->
  existsb p l = true -> existsb q l = true.
Proof.
  intros H Hp. apply existsb_exists in Hp. destruct Hp as (x & Hx & Hpx).
  apply existsb_exists. exists x. split; [exact Hx|now apply H].
Qed.

Lemma loader_next_config (f : string) :
  ConfigLoader.is_next_config f
  = Installer.is_next_config f || String.eqb f "next.config.cjs".
Proof.
  unfold ConfigLoader.is_next_config, Installer.is_next_config, mem_string. simpl.
  now rewrite !orb_false_r, !orb_assoc.
Qed.

Lemma loader_vite_config (f : string) :
  Installer.is_vite_config f = true -> ConfigLoader.is_vite_config f = true.
Proof.
  unfold ConfigLoader.is_vite_config, Installer.is_vite_config, mem_string. simpl.
  destruct (String.eqb f "vite.config.js"), (String.eqb f "vite.config.ts"),
    (String.eqb f "vite.config.mjs"); simpl; try reflexivity; discriminate.
Qed.

Lemma existsb_orb {A} (p q : A -> bool) (l : list A) :
  existsb (fun x => p x || q x) l = existsb p l || existsb q l.
Proof.
  induction l as [|x l IH]; simpl; [reflexivity|]. rewrite IH.
  destruct (p x), (q x), (existsb p l), (existsb q l); reflexivity.
Qed.

(** X17.  The installer and the loader detect the project type from the
    same listing of the project root, with patterns that differ in the
    extension [cjs].  Where the installer says [nextjs] the loader says
    [nextjs]; where the installer says [vite] the loader says [vite], unless
    the root holds [next.config.cjs], in which case the loader says
    [nextjs].  The manifest plays no part in either case. *)
Theorem installer_and_loader_detection (listing : list string)
    (manifest : ConfigLoader.Manifest) (type : string) :
  Installer.detectProjectType (Ok listing) = Ok type ->
  (type = "nextjs" ->
   ConfigLoader.detectProjectType (ConfigLoader.MkRoot (Ok listing) manifest)
   = Ok "nextjs")
  /\ (type = "vite" ->
      ConfigLoader.detectProjectType (ConfigLoader.MkRoot (Ok listing) manifest)
      = Ok (if existsb (fun f => String.eqb f "next.config.cjs") listing
            then "nextjs" else "vite")).
Proof.
  unfold Installer.detectProjectType, ConfigLoader.detectProjectType. simpl.
  assert (Hnext : existsb ConfigLoader.is_next_config listing
                  = existsb Installer.is_next_config listing
                    || existsb (fun f => String.eqb f "next.config.cjs") listing).
  { rewrite <- existsb_orb. induction listing as [|f l IH]; simpl; [reflexivity|].
    now rewrite IH, loader_next_config. }
  rewrite Hnext.
  destruct (existsb Installer.is_next_config listing); simpl.
  - intros [= <-]. split; [reflexivity|discriminate].
  - destruct (existsb Installer.is_vite_config listing) eqn:Ev.
    + intros [= <-]. split; [discriminate|]. intros _.
      destruct (existsb (fun f => String.eqb f "next.config.cjs") listing);
        [reflexivity|].
      now rewrite (existsb_impl _ _ _ loader_vite_config Ev).
    + intros [= <-]. split; discriminate.
Qed.

Lemma installer_and_loader_detection_witness :
  ("vite" = "nextjs" ->
   ConfigLoader.detectProjectType
     (ConfigLoader.MkRoot (Ok [ "vite.config.ts"; "next.config.cjs" ])
                          ConfigLoader.NoManifest)
   = Ok "nextjs")
  /\ ("vite" = "vite" ->
      ConfigLoader.detectProjectType
        (ConfigLoader.MkRoot (Ok [ "vite.config.ts"; "next.config.cjs" ])
                             ConfigLoader.NoManifest)
      = Ok (if existsb (fun f => String.eqb f "next.config.cjs")
                       [ "vite.config.ts"; "next.config.cjs" ]
            then "nextjs" else "vite")).
Proof.
  apply (installer_and_loader_detection [ "vite.config.ts"; "next.config.cjs" ]
           ConfigLoader.NoManifest "vite").
  reflexivity.
Defined.

Lemma set_prop_same (key : string) (v : JsVal) (ps : Props) :
  lookup_prop key ps = Some v -> set_prop key v ps = ps.
Proof.
  induction ps as [|[k w] ps IH]; simpl; [discriminate|].
  destruct (String.eqb k key) eqn:E.
  - now intros [= ->].
  - intros H. now rewrite IH.
Qed.

Lemma set_prop_new (key : string) (v : JsVal) (ps : Props) :
  ~ In key (map fst ps) -> set_prop key v ps = ps ++ [(key, v)].
Proof.
  induction ps as [|[k w] ps IH]; simpl; [reflexivity|]. intros Hn.
  destruct (String.eqb k key) eqn:E.
  - apply String.eqb_eq in E. tauto.
  - rewrite IH by tauto. reflexivity.
Qed.

(** [{...a, ...b}] for objects that share no key. *)
Lemma assign_all_app (acc b : Props) :
  List.NoDup (map fst (acc ++ b)) -> assign_all acc b = acc ++ b.
Proof.
  revert acc. induction b as [|[k v] b IH]; intros acc Hnd.
  - now rewrite app_nil_r.
  - change (assign_all acc ((k, v) :: b)) with (assign_all (set_prop k v acc) b).
    assert (Hk : ~ In k (map fst acc)).
    { rewrite map_app in Hnd. simpl in Hnd.
      apply List.NoDup_remove_2 in Hnd. intros Hin. apply Hnd.
      apply in_or_app. now left. }
    rewrite (set_prop_new _ _ _ Hk).
    rewrite IH; rewrite <- app_assoc; [reflexivity|exact Hnd].
Qed.

Lemma assign_all_NoDup (acc b : Props) :
  List.NoDup (map fst acc) -> List.NoDup (map fst (assign_all acc b)).
Proof.
  revert acc. induction b as [|[k v] b IH]; intros acc Hnd; [exact Hnd|].
  change (assign_all acc ((k, v) :: b)) with (assign_all (set_prop k v acc) b).
  apply IH. now apply set_prop_NoDup.
Qed.

Lemma configure_object (ps : Props) :
  Installer.configure (JObj ps)
  = Ok (JObj
          (set_prop "lint-staged" Installer.lintStaged
             (set_prop "scripts"
                (JObj (set_prop "prepare" (JStr "husky install")
                         (assign_all [] (own_enumerable (get (JObj ps) "scripts")))))
                ps))).
Proof. reflexivity. Qed.

Lemma configure_twice (pkg pkg' : JsVal) :
  Installer.configure pkg = Ok pkg' -> Installer.configure pkg' = Ok pkg'.
Proof.
  destruct pkg as [| | | | | | | |ps];
    try (unfold Installer.configure, member; simpl; intros [= <-]; reflexivity);
    try discriminate.
  rewrite configure_object. intros [= <-].
  set (sp := set_prop "prepare" (JStr "husky install") _).
  rewrite configure_object.
  assert (Hnd : List.NoDup (map fst sp)).
  { apply set_prop_NoDup, assign_all_NoDup. constructor. }
  assert (Hscripts : lookup_prop "scripts"
                       (set_prop "lint-staged" Installer.lintStaged
                          (set_prop "scripts" (JObj sp) ps)) = Some (JObj sp)).
  { rewrite lookup_set_prop_ne by discriminate. apply lookup_set_prop_eq. }
  rewrite (get_own _ _ _ Hscripts). cbn [own_enumerable].
  rewrite (assign_all_app [] sp Hnd). cbn [app].
  rewrite (set_prop_same "prepare" _ sp) by apply lookup_set_prop_eq.
  rewrite (set_prop_same "scripts" _ _ Hscripts).
  rewrite (set_prop_same "lint-staged") by apply lookup_set_prop_eq.
  reflexivity.
Qed.

(** X18.  Running the installer twice changes nothing the second time: the
    manifest that [setupPackageJson] writes is the manifest it would write
    when it reads its own output. *)
Theorem setupPackageJson_idempotent (manifest : ConfigLoader.Manifest)
    (pkg : JsVal) :
  Installer.setupPackageJson manifest = Ok pkg ->
  Installer.setupPackageJson (ConfigLoader.Parsed pkg) = Ok pkg.
Proof.
  destruct manifest as [| | |pkg0]; simpl; try discriminate; apply configure_twice.
Qed.

Lemma setupPackageJson_idempotent_witness :
  Installer.setupPackageJson
    (ConfigLoader.Parsed
       (JObj [ ("name", JStr "my-project"); ("version", JStr "1.0.0");
               ("scripts", JObj [ ("prepare", JStr "husky install") ]);
               ("devDependencies", JObj []);
               ("lint-staged", Installer.lintStaged) ]))
  = Ok (JObj [ ("name", JStr "my-project"); ("version", JStr "1.0.0");
               ("scripts", JObj [ ("prepare", JStr "husky install") ]);
               ("devDependencies", JObj []);
               ("lint-staged", Installer.lintStaged) ]).
Proof.
  apply (setupPackageJson_idempotent ConfigLoader.NoManifest). reflexivity.
Defined.

(** X19.  What the installer does to a manifest that is an object: it sets
    [lint-staged] to its own table and the script [prepare] to
    [husky install], replacing what was there under these two names, and
    keeps every other property of the manifest and every other script. *)
Theorem setupPackageJson_effect (ps : Props) :
  exists ps',
    Installer.setupPackageJson (ConfigLoader.Parsed (JObj ps)) = Ok (JObj ps')
    /\ get (JObj ps') "lint-staged" = Installer.lintStaged
    /\ get (get (JObj ps') "scripts") "prepare" = JStr "husky install"
    /\ (forall key, key <> "scripts" -> key <> "lint-staged" ->
          get (JObj ps') key = get (JObj ps) key)
    /\ (forall scripts key,
          lookup_prop "scripts" ps = Some (JObj scripts) ->
          List.NoDup (map fst scripts) -> key <> "prepare" ->
          get (get (JObj ps') "scripts") key = get (JObj scripts) key).
Proof.
  eexists. split; [apply configure_object|].
  set (sp := set_prop "prepare" (JStr "husky install") _).
  assert (Hscripts : lookup_prop "scripts"
                       (set_prop "lint-staged" Installer.lintStaged
                          (set_prop "scripts" (JObj sp) ps)) = Some (JObj sp)).
  { rewrite lookup_set_prop_ne by discriminate. apply lookup_set_prop_eq. }
  split; [apply get_own, lookup_set_prop_eq|].
  rewrite (get_own _ _ _ Hscripts).
  split; [apply get_own, lookup_set_prop_eq|]. split.
  - intros key H1 H2. unfold get.
    rewrite lookup_set_prop_ne by (intros E; now apply H2).
    rewrite lookup_set_prop_ne by (intros E; now apply H1). reflexivity.
  - intros scripts key Hs Hnd Hkey. unfold sp.
    rewrite (get_own _ _ _ Hs). cbn [own_enumerable].
    rewrite (assign_all_app [] scripts Hnd). cbn [app]. unfold get.
    rewrite lookup_set_prop_ne by (intros E; now apply Hkey). reflexivity.
Qed.

(** ** configs/common.config.js and configs/hooks-config.js: the environment *)

(** X20.  The two functions named [getEnvironment] (the helper that the base
    configuration exports and the one the resolver uses) agree on every
    environment but one: under [NODE_ENV=test] outside CI the resolver says
    [test], for which the base configuration has no overlay, and the helper
    says [development]. *)
Theorem getEnvironment_versions (e : ProcessEnv) :
  CommonUtils.getEnvironment e
  = (if String.eqb (HooksConfig.getEnvironment e) "test" then "development"
     else HooksConfig.getEnvironment e)
  /\ (HooksConfig.getEnvironment e = "test" ->
      opt_member (opt_member (CommonConfig.config e) "environments")
                 (HooksConfig.getEnvironment e) = JUndef).
Proof.
  split.
  - unfold CommonUtils.getEnvironment, HooksConfig.getEnvironment.
    destruct (env_is (env_CI e) "true" || env_is (env_GITHUB_ACTIONS e) "true");
      [reflexivity|].
    destruct (env_is (env_NODE_ENV e) "production"); [reflexivity|].
    destruct (env_is (env_NODE_ENV e) "test"); reflexivity.
  - intros ->. reflexivity.
Qed.

(** ** install.js: setupHusky *)

Lemma append_assoc (a b c : string) : (a +:+ b) +:+ c = a +:+ (b +:+ c).
Proof.
  induction a as [|x a IH]; [reflexivity|].
  change (String x ((a +:+ b) +:+ c) = String x (a +:+ (b +:+ c))).
  now rewrite IH.
Qed.

Lemma existsSync_cons (c p : string) (d : Installer.Disk) :
  c <> p -> Installer.existsSync c (p :: d) = Installer.existsSync c d.
Proof.
  intros Hne. unfold Installer.existsSync, mem_string. simpl.
  now rewrite (proj2 (String.eqb_neq c p) Hne).
Qed.

(** Two paths under one root differ if what follows the root differs. *)
Ltac paths_differ :=
  let H := fresh in
  intros H; unfold HooksConfig.path_join in H; rewrite !append_assoc in H;
  apply String.app_inj in H; vm_compute in H; discriminate H.

Section SetupFacts.

Variable projectRoot dirname : string.
Variable permitted : Installer.Operation -> string -> Installer.Disk -> bool.
Variable husky_init : Installer.Disk -> Res Installer.Disk.

Local Abbreviation copyFile := (Installer.copyFile dirname permitted).
Local Abbreviation create := (Installer.create permitted).

Lemma create_keeps (op : Installer.Operation) (p c : string)
    (d d' : Installer.Disk) :
  create op p d = Ok d' -> c <> p ->
  Installer.existsSync c d' = Installer.existsSync c d.
Proof.
  unfold Installer.create. destruct (permitted op p d); [|discriminate].
  intros [= <-] Hne. now apply existsSync_cons.
Qed.

Lemma copyFile_keeps (sourcePath targetDir baseDir c : string) (d : Installer.Disk) :
  c <> targetDir ->
  c <> HooksConfig.path_join targetDir (Installer.basename sourcePath) ->
  Installer.existsSync c (snd (copyFile sourcePath targetDir baseDir d))
  = Installer.existsSync c d.
Proof.
  intros Hdir Htarget. unfold Installer.copyFile.
  destruct (negb (Installer.existsSync _ d)); [reflexivity|].
  assert (Hmk : forall r, r = (if negb (Installer.existsSync targetDir d)
                               then create Installer.Mkdir targetDir d else Ok d) ->
            match r with
            | Ok d1 => Installer.existsSync c d1 = Installer.existsSync c d
            | Throw _ => True
            end).
  { intros r ->. destruct (negb (Installer.existsSync targetDir d)); [|reflexivity].
    destruct (create Installer.Mkdir targetDir d) as [d1|] eqn:E; [|exact I].
    now apply (create_keeps _ _ _ _ _ E). }
  specialize (Hmk _ eq_refl).
  destruct (if negb (Installer.existsSync targetDir d) then _ else _) as [d1|];
    [|reflexivity].
  destruct (create Installer.Copy _ d1) as [d2|] eqn:E; simpl; [|exact Hmk].
  rewrite (create_keeps _ _ _ _ _ E Htarget). exact Hmk.
Qed.

Lemma installHook_keeps (huskyDir c : string) (st : nat * Installer.Disk)
    (hookFile : string) :
  c <> huskyDir ->
  c <> HooksConfig.path_join huskyDir (Installer.basename hookFile) ->
  Installer.existsSync c
    (snd (Installer.installHook dirname permitted huskyDir st hookFile))
  = Installer.existsSync c (snd st).
Proof.
  intros H1 H2. unfold Installer.installHook.
  pose proof (copyFile_keeps hookFile huskyDir "hooks" c (snd st) H1 H2) as Hk.
  destruct (copyFile hookFile huskyDir "hooks" (snd st)) as [copied d1].
  simpl in Hk. destruct copied; [|exact Hk].
  unfold Installer.chmodSync.
  destruct (Installer.existsSync _ d1 && permitted Installer.Chmod _ d1); exact Hk.
Qed.

Lemma copyScript_keeps (scriptsDir c : string) (st : nat * Installer.Disk)
    (filePath : string) :
  c <> scriptsDir ->
  c <> HooksConfig.path_join scriptsDir (Installer.basename filePath) ->
  Installer.existsSync c
    (snd (Installer.copyScript dirname permitted scriptsDir st filePath))
  = Installer.existsSync c (snd st).
Proof.
  intros H1 H2. unfold Installer.copyScript.
  pose proof (copyFile_keeps filePath scriptsDir "scripts" c (snd st) H1 H2) as Hk.
  destruct (copyFile filePath scriptsDir "scripts" (snd st)) as [copied d1].
  exact Hk.
Qed.

Lemma fold_keeps (step : nat * Installer.Disk -> string -> nat * Installer.Disk)
    (c : string) (files : list string) (st : nat * Installer.Disk) :
  Forall (fun f => forall st, Installer.existsSync c (snd (step st f))
                              = Installer.existsSync c (snd st)) files ->
  Installer.existsSync c (snd (fold_left step files st))
  = Installer.existsSync c (snd st).
Proof.
  intros H. revert st. induction H as [|f files Hf _ IH]; intros st; simpl;
    [reflexivity|].
  now rewrite IH, Hf.
Qed.

Lemma ensureDirs_keeps (dirs : list string) (c : string) (d d' : Installer.Disk) :
  Installer.ensureDirs permitted dirs d = Ok d' -> Forall (fun dir => c <> dir) dirs ->
  Installer.existsSync c d' = Installer.existsSync c d.
Proof.
  intros H Hne. revert d H. induction Hne as [|dir dirs Hdir _ IH]; intros d; simpl.
  - now intros [= <-].
  - destruct (negb (Installer.existsSync dir d)); [|apply IH].
    destruct (create Installer.Mkdir dir d) as [d1|] eqn:E; simpl; [|discriminate].
    intros H. rewrite (IH _ H). now apply (create_keeps _ _ _ _ _ E).
Qed.

(** The installer creates neither of the two files it requires at its
    end. *)
Lemma setupHusky_keeps_critical (c : string) (d d1 d' : Installer.Disk) :
  In c (Installer.criticalFiles projectRoot) ->
  husky_init d = Ok d1 ->
  Installer.setupHusky projectRoot dirname permitted husky_init d = Ok d' ->
  Installer.existsSync c d' = Installer.existsSync c d1.
Proof.
  intros Hc Hinit. unfold Installer.setupHusky. rewrite Hinit. cbn [res_bind].
  destruct (negb (Installer.existsSync _ d1)); [discriminate|].
  set (huskyDir := HooksConfig.path_join projectRoot ".husky").
  set (d2 := snd (fold_left _ Installer.hooks (0, d1))).
  assert (H2 : Installer.existsSync c d2 = Installer.existsSync c d1).
  { unfold d2. rewrite fold_keeps; [reflexivity|].
    unfold Installer.hooks, Installer.criticalFiles in *. simpl in Hc.
    repeat (apply List.Forall_cons;
            [intros st; apply installHook_keeps;
             destruct Hc as [<-|[<-|[]]]; unfold huskyDir; paths_differ|]).
    apply List.Forall_nil. }
  destruct (Installer.ensureDirs _ _ d2) as [d3|] eqn:E3; cbn [res_bind];
    [|discriminate].
  assert (H3 : Installer.existsSync c d3 = Installer.existsSync c d2).
  { apply (ensureDirs_keeps _ _ _ _ E3).
    unfold Installer.criticalFiles in Hc. simpl in Hc.
    repeat (apply List.Forall_cons;
            [destruct Hc as [<-|[<-|[]]]; unfold huskyDir; paths_differ|]).
    apply List.Forall_nil. }
  pose proof (copyFile_keeps "hooks-config.js"
                (HooksConfig.path_join huskyDir "configs") "configs" c d3) as H4.
  destruct (copyFile "hooks-config.js" _ "configs" d3) as [configCopied d4].
  simpl in H4.
  assert (H4' : Installer.existsSync c d4 = Installer.existsSync c d3).
  { unfold Installer.criticalFiles in Hc. simpl in Hc.
    apply H4; destruct Hc as [<-|[<-|[]]]; unfold huskyDir; paths_differ. }
  destruct (if negb configCopied then _ else Ok d4) as [d5|] eqn:E5;
    cbn [res_bind]; [|discriminate].
  assert (H5 : Installer.existsSync c d5 = Installer.existsSync c d4).
  { destruct configCopied; simpl in E5; [now injection E5 as <-|].
    apply (create_keeps _ _ _ _ _ E5).
    unfold Installer.criticalFiles in Hc. simpl in Hc.
    destruct Hc as [<-|[<-|[]]]; unfold huskyDir; paths_differ. }
  set (d6 := snd (fold_left _ Installer.scriptFiles (0, d5))).
  assert (H6 : Installer.existsSync c d6 = Installer.existsSync c d5).
  { unfold d6. rewrite fold_keeps; [reflexivity|].
    unfold Installer.scriptFiles, Installer.criticalFiles in *. simpl in Hc.
    repeat (apply List.Forall_cons;
            [intros st; apply copyScript_keeps;
             destruct Hc as [<-|[<-|[]]]; unfold huskyDir; paths_differ|]).
    apply List.Forall_nil. }
  destruct (0 <? _)%nat; [discriminate|]. intros [= <-].
  now rewrite H6, H5, H4', H3, H2.
Qed.


(** X21.  [setupHusky] completes only on a disk that [npx husky init] left
    with the files [.husky/scripts/utils/config-loader.js] and
    [.husky/scripts/utils/logger.js] in the project.  The installer itself
    creates neither: it copies [utils/config-loader.js] and
    [utils/logger.js] to [.husky/scripts/], under their base names, and
    then looks for them under [.husky/scripts/utils/].  So on a project
    without these two files it ends with the error [Missing critical
    files], whatever is copied and whatever the operating system permits. *)
Theorem setupHusky_needs_critical_files (d d' : Installer.Disk) :
  Installer.setupHusky projectRoot dirname permitted husky_init d = Ok d' ->
  exists d1,
    husky_init d = Ok d1
    /\ Forall (fun file => Installer.existsSync file d1 = true)
              (Installer.criticalFiles projectRoot).
Proof.
  intros H. destruct (husky_init d) as [d1|err] eqn:Hinit;
    [|unfold Installer.setupHusky in H; rewrite Hinit in H; discriminate H].
  exists d1. split; [reflexivity|].
  assert (Hend : Forall (fun file => Installer.existsSync file d' = true)
                        (Installer.criticalFiles projectRoot)).
  { revert H. unfold Installer.setupHusky. rewrite Hinit. cbn [res_bind].
    destruct (negb (Installer.existsSync _ d1)); [discriminate|].
    destruct (Installer.ensureDirs _ _ _) as [d3|]; cbn [res_bind]; [|discriminate].
    destruct (copyFile "hooks-config.js" _ "configs" d3) as [configCopied d4].
    destruct (if negb configCopied then _ else Ok d4) as [d5|]; cbn [res_bind];
      [|discriminate].
    set (d6 := snd (fold_left _ Installer.scriptFiles (0, d5))). clearbody d6.
    unfold Installer.criticalFiles. cbn [List.filter].
    destruct (Installer.existsSync (HooksConfig.path_join _ "config-loader.js") d6)
      eqn:E1;
      destruct (Installer.existsSync (HooksConfig.path_join _ "logger.js") d6) eqn:E2;
      simpl; intros H; try discriminate H.
    injection H as <-. repeat (apply List.Forall_cons; [assumption|]).
    apply List.Forall_nil. }
  apply List.Forall_forall. intros c Hc.
  rewrite <- (setupHusky_keeps_critical c d d1 d' Hc Hinit H).
  exact (proj1 (List.Forall_forall _ _) Hend c Hc).
Qed.

End SetupFacts.

Lemma setupHusky_needs_critical_files_witness :
  exists d1,
    prepared_init [] = Ok d1
    /\ Forall (fun file => Installer.existsSync file d1 = true)
              (Installer.criticalFiles "/work/app").
Proof.
  apply (setupHusky_needs_critical_files "/work/app" "/tmp/npx/package"
           (fun op path disk => true) prepared_init []
           [ "/work/app/.husky/configs/hooks-config.js";
             "/work/app/.husky/scripts"; "/work/app/.husky/configs";
             "/work/app/.husky";
             "/work/app/.husky/scripts/utils/config-loader.js";
             "/work/app/.husky/scripts/utils/logger.js" ]).
  vm_compute. reflexivity.
Defined.

(** ** The skip rules of the hooks under the configuration of the repository *)

Lemma starts_with_app (p cs : list ascii) :
  starts_with p cs = true -> exists rest, cs = p ++ rest.
Proof.
  revert cs. induction p as [|a p IH]; intros cs; simpl.
  - intros _. now exists cs.
  - destruct cs as [|c cs]; [discriminate|].
    intros H. apply andb_true_iff in H. destruct H as [Hac Hrest].
    apply Ascii.eqb_eq in Hac. subst c.
    destruct (IH cs Hrest) as [rest ->]. now exists rest.
Qed.

(** The skip pattern holds of every message that starts with one of its four
    alternatives. *)
Lemma skipPattern_prefix (message prefix : string) :
  In prefix [ "wip:"; "fixup!"; "squash!"; "draft:" ] ->
  starts_with (chars prefix) (chars message) = true ->
  RegExpOps.test CommonConfig.skipPattern message = true.
Proof.
  intros Hin Hstart. destruct (starts_with_app _ _ Hstart) as [rest Hrest].
  unfold RegExpOps.test, RegExpOps.exec_first. rewrite Hrest.
  simpl in Hin. destruct Hin as [<-|[<-|[<-|[<-|[]]]]]; vm_compute; reflexivity.
Qed.


(** ** hooks/commit-msg.js: patterns given as strings *)

Lemma slashed_pattern_needs_slash (s : string) :
  starts_with (chars "/") (chars s) = false ->
  RegExpOps.string_match s CommitMsg.slashed_pattern = None.
Proof.
  intros Hs. unfold RegExpOps.string_match, RegExpOps.exec_first.
  change (RegExpOps.global CommitMsg.slashed_pattern) with false. cbv iota.
  assert (Hnone : Regex.search (re_ast CommitMsg.slashed_pattern)
                    (RegExpOps.ignore_case CommitMsg.slashed_pattern) (chars s) 0
                  = None).
  { destruct (chars s) as [|a cs].
    - reflexivity.
    - change (starts_with (chars "/") (a :: cs))
        with (Ascii.eqb "/"%char a && true) in Hs.
      rewrite andb_true_r in Hs.
      change (re_ast CommitMsg.slashed_pattern)
        with (Regex.RSeq Regex.RBol
                (Regex.RSeq (Regex.RChar (Regex.CChar "/"%char))
                   (Regex.seqs
                      [ Regex.RGroup 1 (Regex.RStar false (Regex.RChar Regex.CAny));
                        Regex.lit "/";
                        Regex.RGroup 2
                          (Regex.RStar true
                             (Regex.RChar (Regex.COneOf (chars "gimuy"))));
                        Regex.REol ]))).
      change (RegExpOps.ignore_case CommitMsg.slashed_pattern) with false.
      cbn [Regex.search]. unfold Regex.match_at at 1.
      cbn [Regex.run Nat.eqb Regex.cls_matches Regex.char_eq].
      unfold Regex.ascii_eqb. rewrite Hs.
      apply search_bol_later. discriminate. }
  now rewrite Hnone.
Qed.

(** X23.  A pattern that the configuration gives as a string not written
    between slashes is compiled as it is, with the flag [i]: such a pattern
    always ignores the letter case. *)
Theorem parsePattern_plain_string (RegExp_new : string -> string -> Res RegExp)
    (s : string) :
  starts_with (chars "/") (chars s) = false ->
  CommitMsg.parsePattern RegExp_new (JStr s) = RegExp_new s "i".
Proof.
  intros Hs. unfold CommitMsg.parsePattern.
  now rewrite (slashed_pattern_needs_slash s Hs).
Qed.

Lemma parsePattern_plain_string_witness :
  CommitMsg.parsePattern no_engine (JStr "^(feat|fix): .+") = no_engine "^(feat|fix): .+" "i".
Proof.
  apply (parsePattern_plain_string no_engine "^(feat|fix): .+"). reflexivity.
Defined.

(** ** configs/common.config.js: the wildcard of shouldSkipForBranch *)

(** One round of the greedy star before the end anchor. *)
Lemma run_any_to_end_cons {R} (a : ascii) (s : list ascii) (pos : nat)
    (cs : Regex.caps) (k : list ascii -> nat -> Regex.caps -> option R) :
  Regex.run any_to_end false (a :: s) pos cs k
  = match (if negb (Regex.is_line_terminator a)
           then if (pos <? S pos)%nat
                then Regex.run any_to_end false s (S pos) cs k
                else None
           else None) with
    | Some x => Some x
    | None => None
    end.
Proof. reflexivity. Qed.

(** [.*$]: the rest of the subject, if it holds no line terminator. *)
Lemma run_any_to_end {R} (s : list ascii) (pos : nat) (cs : Regex.caps)
    (k : list ascii -> nat -> Regex.caps -> option R) :
  Regex.run any_to_end false s pos cs k
  = if no_break s then k [] (pos + length s) cs else None.
Proof.
  revert pos. induction s as [|a s IH]; intros pos.
  - simpl. now rewrite Nat.add_0_r.
  - rewrite run_any_to_end_cons, IH.
    cbn [no_break forallb length].
    rewrite (proj2 (Nat.ltb_lt pos (S pos)) (Nat.lt_succ_diag_r pos)).
    rewrite Nat.add_succ_r. simpl.
    destruct (negb (Regex.is_line_terminator a)); [|reflexivity].
    fold (no_break s). now destruct (no_break s), (k [] (S (pos + length s)) cs).
Qed.

(** The literal part of a glob, then the star. *)
Lemma run_glob_prefix {R} (p s : list ascii) (pos : nat) (cs : Regex.caps)
    (k : list ascii -> nat -> Regex.caps -> option R) :
  Forall (fun c => c <> "*"%char) p ->
  Regex.run (CommonConfig.glob_body (p ++ ["*"%char])) false s pos cs k
  = if starts_with p s && no_break (drop (length p) s)
    then k [] (pos + length s) cs else None.
Proof.
  intros Hp. revert s pos. induction Hp as [|c p Hc Hp IH]; intros s pos.
  - cbn [app CommonConfig.glob_body]. rewrite Ascii.eqb_refl.
    change (Regex.RSeq (Regex.RStar true (Regex.RChar Regex.CAny))
              (CommonConfig.glob_body [])) with any_to_end.
    rewrite run_any_to_end. reflexivity.
  - cbn [app CommonConfig.glob_body].
    rewrite (proj2 (Ascii.eqb_neq c "*"%char) Hc).
    cbn [Regex.run]. destruct s as [|a s]; [reflexivity|].
    cbn [Regex.cls_matches Regex.char_eq starts_with length drop].
    unfold Regex.ascii_eqb. destruct (Ascii.eqb c a); [|reflexivity].
    rewrite IH. cbn [andb]. now rewrite Nat.add_succ_r.
Qed.

Lemma chars_append (a b : string) : chars (a +:+ b) = chars a ++ chars b.
Proof.
  induction a as [|x a IH]; [reflexivity|].
  change (chars (String x a +:+ b)) with (x :: chars (a +:+ b)).
  now rewrite IH.
Qed.

Lemma has_char_chars (c : ascii) (s : string) :
  has_char c s = existsb (fun a => Ascii.eqb a c) (chars s).
Proof. induction s as [|a s IH]; simpl; [reflexivity|]. now rewrite IH. Qed.

(** X24.  The wildcard of [utils.shouldSkipForBranch].  A list entry made of
    letters, digits, slashes, dashes and underscores followed by one star
    matches exactly the branch names that start with the text before the
    star and hold no line break after it: [release/*] matches [release/1.2]
    and [release/], and does not match [release] or [my-release/1]. *)
Theorem branch_matches_prefix_star (prefix currentBranch : string) :
  forallb is_plain (chars prefix) = true ->
  CommonConfig.branch_matches currentBranch (prefix +:+ "*")
  = starts_with (chars prefix) (chars currentBranch)
    && no_break (drop (String.length prefix) (chars currentBranch)).
Proof.
  intros Hplain. unfold CommonConfig.branch_matches.
  assert (Hall : Forall (fun c => c <> "*"%char) (chars prefix)).
  { apply List.Forall_forall. intros c Hc E. subst c.
    pose proof (proj1 (forallb_forall _ _) Hplain _ Hc) as H.
    vm_compute in H. discriminate H. }
  assert (Hstar : has_char "*" (prefix +:+ "*") = true).
  { rewrite has_char_chars, chars_append, existsb_app. simpl.
    now rewrite orb_true_r. }
  rewrite Hstar. unfold CommonConfig.glob_ast. rewrite chars_append.
  assert (Hlen : length (chars prefix) = String.length prefix).
  { clear. induction prefix; simpl; congruence. }
  rewrite <- Hlen.
  change (chars "*") with ["*"%char].
  destruct (chars currentBranch) as [|a cs] eqn:Eb.
  - cbn [Regex.search]. unfold Regex.match_at. cbn [Regex.run Nat.eqb].
    rewrite (run_glob_prefix _ _ _ _ _ Hall).
    now destruct (starts_with _ _ && _).
  - cbn [Regex.search]. unfold Regex.match_at. cbn [Regex.run Nat.eqb].
    rewrite (run_glob_prefix _ _ _ _ _ Hall).
    destruct (starts_with _ _ && _); [reflexivity|].
    now rewrite search_bol_later.
Qed.

Lemma branch_matches_prefix_star_witness :
  CommonConfig.branch_matches "release/1.2" ("release/" +:+ "*")
  = starts_with (chars "release/") (chars "release/1.2")
    && no_break (drop (String.length "release/") (chars "release/1.2")).
Proof.
  apply (branch_matches_prefix_star "release/" "release/1.2"). reflexivity.
Defined.
